(** * Label health and cross-label flow analysis (package [analysis])

    A shallow embedding of the label analysis engine of beads_viewer:
    label extraction, co-occurrence, cross-label dependency flow, velocity,
    freshness, composite health and the per-label orchestration, followed by
    the properties established about them.

    Conventions of the embedding:
    - Go [int] values are counters bounded by the size of the input, so
      they are unbounded [Z] here; [time.Duration] is an [int64] count of
      nanoseconds and keeps its saturation and wrap-around.
    - Go [float64] is Rocq's primitive binary64 [float]; every floating
      point operation of the source is the same IEEE operation here.
    - Go maps are [gmap]s, sets encoded as [map[string]bool] are [gset]s.
      Ranging over a map visits the entries in an unspecified order; the
      source always sorts what it collects that way, and so does the model.
    - a [for] loop over a slice is a [fold_left] over the list with the
      loop's mutable variables as the accumulator. *)

From Stdlib Require Import ZArith Floats Uint63 Lia Bool.
From Stdlib Require Import Strings.String Strings.Ascii.
From stdpp Require Import gmap strings list sorting.

Local Open Scope string_scope.
Local Open Scope Z_scope.

(** ** Go primitives *)

(** [m[k]++] on a [map[K]int]: a missing key reads as zero. *)
Definition map_incr `{Countable K} (k : K) (m : gmap K Z) : gmap K Z :=
  <[k := default 0 (m !! k) + 1]> m.

(** [s1 < s2] on Go strings: bytewise lexicographic order. *)
Definition string_lt (s1 s2 : string) : bool := String.ltb s1 s2.

Module sort.
(** [sort.Slice(xs, less)]: the result is a permutation of [xs] in which no
    element is [less] than one before it.  The source only sorts slices
    whose elements are pairwise comparable by [less], for which that
    result is unique, so any sorting algorithm models it. *)
Definition Slice {A} (less : A -> A -> bool) (xs : list A) : list A :=
  merge_sort (fun x y => Is_true (negb (less y x))) xs.

(** [sort.Strings(xs)]: increasing order. *)
Definition Strings (xs : list string) : list string := Slice string_lt xs.
End sort.

Module time.
(** An instant, in nanoseconds since the zero [time.Time]. *)
Definition Time := Z.
(** [time.Duration]: [int64] nanoseconds. *)
Definition Duration := Z.

Definition minDuration : Duration := - 2 ^ 63.
Definition maxDuration : Duration := 2 ^ 63 - 1.
Definition Hour : Duration := 3600000000000.

Definition zero : Time := 0.
Definition IsZero (t : Time) : bool := t =? 0.
Definition After (t u : Time) : bool := u <? t.
Definition Before (t u : Time) : bool := t <? u.
Definition Add (t : Time) (d : Duration) : Time := t + d.

(** [t.Sub(u)] saturates at the largest and smallest duration. *)
Definition Sub (t u : Time) : Duration :=
  Z.max minDuration (Z.min maxDuration (t - u)).

(** [int64] addition of durations. *)
Definition add (d1 d2 : Duration) : Duration :=
  (d1 + d2 + 2 ^ 63) mod 2 ^ 64 - 2 ^ 63.
End time.

Module float64.
(** [float64(n)] for an [int] [n] with [|n| < 2^63]: the nearest double. *)
Definition of_int (n : Z) : float :=
  if n <? 0 then (- of_uint63 (Uint63.of_Z (- n)))%float
  else of_uint63 (Uint63.of_Z n).

(** The integer part of a finite double, rounding toward zero. *)
Definition trunc (f : float) : option Z :=
  match Prim2SF f with
  | S754_zero _ => Some 0
  | S754_finite s m e =>
      let v := if 0 <=? e then Z.pos m * 2 ^ e else Z.pos m / 2 ^ (- e) in
      Some (if s then - v else v)
  | _ => None
  end.

(** [int(f)]: truncation toward zero.  When [f] is a NaN, an infinity or
    is out of the [int64] range, Go leaves the result to the
    implementation: it is [indefinite f] here. *)
Definition to_int (indefinite : float -> Z) (f : float) : Z :=
  match trunc f with
  | Some z => if (- 2 ^ 63 <=? z) && (z <? 2 ^ 63) then z else indefinite f
  | None => indefinite f
  end.

(** [d.Hours()] *)
Definition Hours (d : time.Duration) : float :=
  (of_int (Z.quot d time.Hour) + of_int (Z.rem d time.Hour) / 3600000000000)%float.
End float64.

(** ** The issue model *)

Module model.
(** Modelled from the spec: the issue records of package [model], which
    the analysis only reads.  An issue carries an identifier, a status, a priority, a type,
    a list of labels (duplicates and empty strings possible), creation,
    update and optional closing times, and a list of possibly nil
    dependency pointers. *)
Record Dependency := {
  DependsOnID : string;
  Type_ : string
}.

Record Issue := {
  ID : string;
  Status : string;
  Priority : Z;
  IssueType : string;
  Labels : list string;
  CreatedAt : time.Time;
  UpdatedAt : time.Time;
  ClosedAt : option time.Time;
  Dependencies : list (option Dependency)
}.

Definition StatusOpen := "open".
Definition StatusInProgress := "in_progress".
Definition StatusBlocked := "blocked".
Definition StatusClosed := "closed".
Definition DepBlocks := "blocks".
End model.

(** ** Constants and thresholds *)

Definition HealthLevelHealthy := "healthy".
Definition HealthLevelWarning := "warning".
Definition HealthLevelCritical := "critical".

Definition DefaultStaleThresholdDays : Z := 14.
Definition HealthyThreshold : Z := 70.
Definition WarningThreshold : Z := 40.
Definition VelocityWeight : float := 0.25%float.
Definition FreshnessWeight : float := 0.25%float.
Definition FlowWeight : float := 0.25%float.
Definition CriticalityWeight : float := 0.25%float.

Module LabelHealthConfig.
Record t := {
  StaleThresholdDays : Z;
  VelocityWeight : float;
  FreshnessWeight : float;
  FlowWeight : float;
  CriticalityWeight : float;
  MinIssuesForHealth : Z;
  IncludeClosedInFlow : bool
}.
End LabelHealthConfig.

Definition DefaultLabelHealthConfig : LabelHealthConfig.t := {|
  LabelHealthConfig.StaleThresholdDays := DefaultStaleThresholdDays;
  LabelHealthConfig.VelocityWeight := VelocityWeight;
  LabelHealthConfig.FreshnessWeight := FreshnessWeight;
  LabelHealthConfig.FlowWeight := FlowWeight;
  LabelHealthConfig.CriticalityWeight := CriticalityWeight;
  LabelHealthConfig.MinIssuesForHealth := 1;
  LabelHealthConfig.IncludeClosedInFlow := false
|}.

Definition clampScore (v : Z) : Z :=
  if v <? 0 then 0 else if 100 <? v then 100 else v.

Definition minFloat (a b : float) : float := if (a <? b)%float then a else b.
Definition maxFloat (a b : float) : float := if (b <? a)%float then a else b.

Definition HealthLevelFromScore (score : Z) : string :=
  if HealthyThreshold <=? score then HealthLevelHealthy
  else if WarningThreshold <=? score then HealthLevelWarning
  else HealthLevelCritical.

(** ** Label extraction *)

Module LabelStats.
Record t := {
  Label : string;
  TotalCount : Z;
  OpenCount : Z;
  ClosedCount : Z;
  InProgress : Z;
  Blocked : Z;
  ByPriority : gmap Z Z;
  ByType : gmap string Z;
  IssueIDs : list string
}.

(** The record allocated when a label is first seen. *)
Definition new (label : string) : t := {|
  Label := label; TotalCount := 0; OpenCount := 0; ClosedCount := 0;
  InProgress := 0; Blocked := 0; ByPriority := ∅; ByType := ∅; IssueIDs := []
|}.
End LabelStats.

Module LabelExtractionResult.
Record t := {
  Labels : list string;
  LabelCount : Z;
  Stats : gmap string LabelStats.t;
  IssueCount : Z;
  UnlabeledCount : Z;
  TopLabels : list string
}.
End LabelExtractionResult.

(** The comparison of [sortLabelsByCount]: count descending, then label. *)
Definition labelCount_less (a b : string * Z) : bool :=
  if negb (a.2 =? b.2) then b.2 <? a.2 else string_lt a.1 b.1.

Definition sortLabelsByCount (stats : gmap string LabelStats.t) : list string :=
  let lc := (fun e : string * LabelStats.t => (e.1, LabelStats.TotalCount e.2))
              <$> map_to_list stats in
  fst <$> sort.Slice labelCount_less lc.

(** The updates of one label occurrence on an issue: the body of the inner
    loop of [ExtractLabels] after the empty-label test. *)
Definition count_label (issue : model.Issue) (label : string)
    (stats : LabelStats.t) : LabelStats.t :=
  let st := model.Status issue in {|
    LabelStats.Label := LabelStats.Label stats;
    LabelStats.TotalCount := LabelStats.TotalCount stats + 1;
    LabelStats.OpenCount :=
      if String.eqb st model.StatusOpen then LabelStats.OpenCount stats + 1
      else LabelStats.OpenCount stats;
    LabelStats.ClosedCount :=
      if String.eqb st model.StatusOpen then LabelStats.ClosedCount stats
      else if String.eqb st model.StatusClosed then LabelStats.ClosedCount stats + 1
      else LabelStats.ClosedCount stats;
    LabelStats.InProgress :=
      if String.eqb st model.StatusOpen then LabelStats.InProgress stats
      else if String.eqb st model.StatusClosed then LabelStats.InProgress stats
      else if String.eqb st model.StatusInProgress then LabelStats.InProgress stats + 1
      else LabelStats.InProgress stats;
    LabelStats.Blocked := LabelStats.Blocked stats;
    LabelStats.ByPriority := map_incr (model.Priority issue) (LabelStats.ByPriority stats);
    LabelStats.ByType := map_incr (model.IssueType issue) (LabelStats.ByType stats);
    LabelStats.IssueIDs := LabelStats.IssueIDs stats ++ [model.ID issue]
  |}.

(** The loop state of [ExtractLabels]. *)
Record extract_state := {
  es_stats : gmap string LabelStats.t;
  es_labelSet : gset string;
  es_unlabeled : Z
}.

Definition extract_label (issue : model.Issue) (s : extract_state)
    (label : string) : extract_state :=
  if String.eqb label "" then s
  else
    let stats := default (LabelStats.new label) (es_stats s !! label) in
    {| es_stats := <[label := count_label issue label stats]> (es_stats s);
       es_labelSet := {[label]} ∪ es_labelSet s;
       es_unlabeled := es_unlabeled s |}.

Definition extract_issue (s : extract_state) (issue : model.Issue) : extract_state :=
  let s1 :=
    if (length (model.Labels issue) =? 0)%nat
    then {| es_stats := es_stats s; es_labelSet := es_labelSet s;
            es_unlabeled := es_unlabeled s + 1 |}
    else s in
  fold_left (extract_label issue) (model.Labels issue) s1.

Definition ExtractLabels (issues : list model.Issue) : LabelExtractionResult.t :=
  if (length issues =? 0)%nat then
    {| LabelExtractionResult.Labels := [];
       LabelExtractionResult.LabelCount := 0;
       LabelExtractionResult.Stats := ∅;
       LabelExtractionResult.IssueCount := 0;
       LabelExtractionResult.UnlabeledCount := 0;
       LabelExtractionResult.TopLabels := [] |}
  else
    let s := fold_left extract_issue issues
               {| es_stats := ∅; es_labelSet := ∅; es_unlabeled := 0 |} in
    let labels := sort.Strings (elements (es_labelSet s)) in
    {| LabelExtractionResult.Labels := labels;
       LabelExtractionResult.LabelCount := Z.of_nat (length labels);
       LabelExtractionResult.Stats := es_stats s;
       LabelExtractionResult.IssueCount := Z.of_nat (length issues);
       LabelExtractionResult.UnlabeledCount := es_unlabeled s;
       LabelExtractionResult.TopLabels := sortLabelsByCount (es_stats s) |}.

(** [GetLabelsForIssue]: the labels of the first issue with that ID. *)
Fixpoint GetLabelsForIssue (issues : list model.Issue) (issueID : string) : list string :=
  match issues with
  | [] => []
  | issue :: rest =>
      if String.eqb (model.ID issue) issueID then model.Labels issue
      else GetLabelsForIssue rest issueID
  end.

(** ** Label co-occurrence *)

(** [if cooc[l] == nil { cooc[l] = make(map[string]int) }] *)
Definition cooc_init (cooc : gmap string (gmap string Z)) (l : string)
    : gmap string (gmap string Z) :=
  match cooc !! l with
  | None => <[l := ∅]> cooc
  | Some _ => cooc
  end.

(** [cooc[l1][l2]++]: the inner map of [l1] is updated in place. *)
Definition cooc_incr (cooc : gmap string (gmap string Z)) (l1 l2 : string)
    : gmap string (gmap string Z) :=
  <[l1 := map_incr l2 (default ∅ (cooc !! l1))]> cooc.

(** The body of the inner loop of [GetLabelCooccurrence] for the pair
    [labels[i], labels[j]]. *)
Definition cooc_pair (cooc : gmap string (gmap string Z)) (a b : string)
    : gmap string (gmap string Z) :=
  let '(l1, l2) := if string_lt b a then (b, a) else (a, b) in
  let cooc := cooc_init cooc l1 in
  let cooc := cooc_init cooc l2 in
  let cooc := cooc_incr cooc l1 l2 in
  cooc_incr cooc l2 l1.

(** The two nested index loops [i < j] over one label list. *)
Fixpoint cooc_labels (cooc : gmap string (gmap string Z)) (labels : list string)
    : gmap string (gmap string Z) :=
  match labels with
  | [] => cooc
  | l :: rest => cooc_labels (fold_left (fun c l' => cooc_pair c l l') rest cooc) rest
  end.

Definition GetLabelCooccurrence (issues : list model.Issue)
    : gmap string (gmap string Z) :=
  fold_left (fun cooc issue => cooc_labels cooc (model.Labels issue)) issues ∅.

(** Reading [cooc[a][b]]: a missing entry reads as zero. *)
Definition cooc_get (cooc : gmap string (gmap string Z)) (a b : string) : Z :=
  default 0 (cooc !! a ≫= fun inner => inner !! b).

(** [b] is a key of the inner map stored under the outer key [a]. *)
Definition cooc_has (cooc : gmap string (gmap string Z)) (a b : string) : Prop :=
  exists inner, cooc !! a = Some inner /\ is_Some (inner !! b).

(** An issue that only carries an ID and labels. *)
Definition labels_issue (id : string) (labels : list string) : model.Issue :=
  {| model.ID := id; model.Status := model.StatusOpen; model.Priority := 0;
     model.IssueType := ""; model.Labels := labels;
     model.CreatedAt := time.zero; model.UpdatedAt := time.zero;
     model.ClosedAt := None; model.Dependencies := [] |}.

(** ** Cross-label flow *)

Module BlockingPair.
Record t := {
  BlockerID : string;
  BlockedID : string;
  BlockerLabel : string;
  BlockedLabel : string
}.
End BlockingPair.

Module LabelDependency.
Record t := {
  FromLabel : string;
  ToLabel : string;
  IssueCount : Z;
  IssueIDs : list string;
  BlockingPairs : list BlockingPair.t
}.
End LabelDependency.

Module LabelPath.
Record t := {
  Labels : list string;
  Length : Z;
  IssueCount : Z;
  TotalWeight : float
}.
End LabelPath.

Module CrossLabelFlow.
Record t := {
  Labels : list string;
  FlowMatrix : list (list Z);
  Dependencies : list LabelDependency.t;
  CriticalPaths : list LabelPath.t;
  BottleneckLabels : list string;
  TotalCrossLabelDeps : Z
}.
End CrossLabelFlow.

(** The mutable variables of the aggregation loop of
    [ComputeCrossLabelFlow]. *)
Record flow_state := {
  fs_matrix : list (list Z);
  fs_totalDeps : Z;
  fs_depMap : gmap (string * string) LabelDependency.t
}.

(** [index[l] = i] for each position of the label list. *)
Definition label_index (labelList : list string) : gmap string nat :=
  (fold_left (fun (acc : gmap string nat * nat) l => (<[l := acc.2]> acc.1, S acc.2))
     labelList (∅, 0%nat)).1.

(** [issueMap[iss.ID] = iss] for each issue, later issues overwriting. *)
Definition issue_map (issues : list model.Issue) : gmap string model.Issue :=
  fold_left (fun m iss => <[model.ID iss := iss]> m) issues ∅.

(** The body of the label cross-product loop for the pair [from], [to].
    Both indices come from [index], hence lie inside the matrix. *)
Definition flow_pair (index : gmap string nat) (blocker blocked : model.Issue)
    (from : string) (s : flow_state) (to : string) : flow_state :=
  if String.eqb from "" || String.eqb to "" || String.eqb from to then s
  else
    match index !! from, index !! to with
    | Some iFrom, Some iTo =>
        let entry :=
          default {| LabelDependency.FromLabel := from;
                     LabelDependency.ToLabel := to;
                     LabelDependency.IssueCount := 0;
                     LabelDependency.IssueIDs := [];
                     LabelDependency.BlockingPairs := [] |}
                  (fs_depMap s !! (from, to)) in
        let pair := {| BlockingPair.BlockerID := model.ID blocker;
                       BlockingPair.BlockedID := model.ID blocked;
                       BlockingPair.BlockerLabel := from;
                       BlockingPair.BlockedLabel := to |} in
        {| fs_matrix := alter (alter Z.succ iTo) iFrom (fs_matrix s);
           fs_totalDeps := fs_totalDeps s + 1;
           fs_depMap :=
             <[(from, to) :=
                 {| LabelDependency.FromLabel := LabelDependency.FromLabel entry;
                    LabelDependency.ToLabel := LabelDependency.ToLabel entry;
                    LabelDependency.IssueCount := LabelDependency.IssueCount entry + 1;
                    LabelDependency.IssueIDs :=
                      LabelDependency.IssueIDs entry ++ [model.ID blocked];
                    LabelDependency.BlockingPairs :=
                      LabelDependency.BlockingPairs entry ++ [pair] |}]>
               (fs_depMap s) |}
    | _, _ => s
    end.

(** Whether the closed-issue filter drops [iss]. *)
Definition skip_closed (cfg : LabelHealthConfig.t) (iss : model.Issue) : bool :=
  negb (LabelHealthConfig.IncludeClosedInFlow cfg)
  && String.eqb (model.Status iss) model.StatusClosed.

Definition flow_dep (cfg : LabelHealthConfig.t) (index : gmap string nat)
    (issueMap : gmap string model.Issue) (blocked : model.Issue)
    (s : flow_state) (dep : option model.Dependency) : flow_state :=
  match dep with
  | None => s
  | Some d =>
      if negb (String.eqb (model.Type_ d) model.DepBlocks) then s
      else
        match issueMap !! model.DependsOnID d with
        | None => s
        | Some blocker =>
            if skip_closed cfg blocker then s
            else
              fold_left
                (fun s from =>
                   fold_left (flow_pair index blocker blocked from)
                     (model.Labels blocked) s)
                (model.Labels blocker) s
        end
  end.

Definition flow_issue (cfg : LabelHealthConfig.t) (index : gmap string nat)
    (issueMap : gmap string model.Issue) (s : flow_state)
    (blocked : model.Issue) : flow_state :=
  if skip_closed cfg blocked then s
  else fold_left (flow_dep cfg index issueMap blocked) (model.Dependencies blocked) s.

(** The comparison passed to [sort.Slice] for the dependency list. *)
Definition dependency_less (a b : LabelDependency.t) : bool :=
  if negb (String.eqb (LabelDependency.FromLabel a) (LabelDependency.FromLabel b))
  then string_lt (LabelDependency.FromLabel a) (LabelDependency.FromLabel b)
  else if negb (String.eqb (LabelDependency.ToLabel a) (LabelDependency.ToLabel b))
  then string_lt (LabelDependency.ToLabel a) (LabelDependency.ToLabel b)
  else LabelDependency.IssueCount b <? LabelDependency.IssueCount a.

(** The row-sum loop: [outCounts], [maxOut] and the row number.  The matrix
    has one row per label, so [labelList[i]] is always in range. *)
Definition out_counts (labelList : list string) (matrix : list (list Z))
    : gmap string Z * Z :=
  let step (acc : gmap string Z * Z * nat) (row : list Z) :=
    let '(outCounts, maxOut, i) := acc in
    let sum := fold_left Z.add row 0 in
    let outCounts :=
      match labelList !! i with
      | Some l => <[l := sum]> outCounts
      | None => outCounts
      end in
    (outCounts, (if maxOut <? sum then sum else maxOut), S i) in
  (fold_left step matrix (∅, 0, 0%nat)).1.

Definition bottleneck_labels (labelList : list string) (matrix : list (list Z))
    : list string :=
  let '(outCounts, maxOut) := out_counts labelList matrix in
  sort.Strings
    (fst <$> filter (fun e : string * Z => e.2 = maxOut ∧ 0 < e.2)
               (map_to_list outCounts)).

Definition ComputeCrossLabelFlow (issues : list model.Issue)
    (cfg : LabelHealthConfig.t) : CrossLabelFlow.t :=
  let labels := ExtractLabels issues in
  let labelList := sort.Strings (LabelExtractionResult.Labels labels) in
  let n := length labelList in
  let matrix := replicate n (replicate n 0) in
  let index := label_index labelList in
  let issueMap := issue_map issues in
  let s := fold_left (flow_issue cfg index issueMap) issues
             {| fs_matrix := matrix; fs_totalDeps := 0; fs_depMap := ∅ |} in
  let deps := sort.Slice dependency_less (snd <$> map_to_list (fs_depMap s)) in
  {| CrossLabelFlow.Labels := labelList;
     CrossLabelFlow.FlowMatrix := fs_matrix s;
     CrossLabelFlow.Dependencies := deps;
     CrossLabelFlow.CriticalPaths := [];
     CrossLabelFlow.BottleneckLabels := bottleneck_labels labelList (fs_matrix s);
     CrossLabelFlow.TotalCrossLabelDeps := fs_totalDeps s |}.

(** The five issues of [TestComputeCrossLabelFlow]. *)
Definition flow_test_issue (id : string) (labels : list string) (status : string)
    (blockers : list string) : model.Issue :=
  {| model.ID := id; model.Status := status; model.Priority := 0;
     model.IssueType := ""; model.Labels := labels;
     model.CreatedAt := time.zero; model.UpdatedAt := time.zero;
     model.ClosedAt := None;
     model.Dependencies :=
       (fun b => Some {| model.DependsOnID := b; model.Type_ := model.DepBlocks |})
         <$> blockers |}.

Definition flow_test_issues : list model.Issue :=
  [ flow_test_issue "A" ["api"] model.StatusOpen [];
    flow_test_issue "B" ["ui"] model.StatusOpen ["A"];
    flow_test_issue "C" ["api"; "core"] model.StatusOpen [];
    flow_test_issue "D" ["ui"; "core"] model.StatusOpen ["C"];
    flow_test_issue "E" ["api"] model.StatusClosed ["A"] ].

(** [FlowMatrix[from][to]] addressed by label, as the test does through the
    positions of the labels in [Labels]. *)
Definition flow_between (flow : CrossLabelFlow.t) (from to : string) : option Z :=
  i ← list_find (String.eqb from) (CrossLabelFlow.Labels flow);
  j ← list_find (String.eqb to) (CrossLabelFlow.Labels flow);
  row ← CrossLabelFlow.FlowMatrix flow !! i.1;
  row !! j.1.

(** ** Health metrics *)

Module VelocityMetrics.
Record t := {
  ClosedLast7Days : Z;
  ClosedLast30Days : Z;
  AvgDaysToClose : float;
  TrendDirection : string;
  TrendPercent : float;
  VelocityScore : Z
}.
End VelocityMetrics.

Module FreshnessMetrics.
Record t := {
  MostRecentUpdate : time.Time;
  OldestOpenIssue : time.Time;
  AvgDaysSinceUpdate : float;
  StaleCount : Z;
  StaleThresholdDays : Z;
  FreshnessScore : Z
}.
End FreshnessMetrics.

Module FlowMetrics.
Record t := {
  IncomingDeps : Z;
  OutgoingDeps : Z;
  IncomingLabels : list string;
  OutgoingLabels : list string;
  BlockedByExternal : Z;
  BlockingExternal : Z;
  FlowScore : Z
}.
End FlowMetrics.

Module CriticalityMetrics.
Record t := {
  AvgPageRank : float;
  AvgBetweenness : float;
  MaxBetweenness : float;
  CriticalPathCount : Z;
  BottleneckCount : Z;
  CriticalityScore : Z
}.
End CriticalityMetrics.

Module LabelHealth.
Record t := {
  Label : string;
  IssueCount : Z;
  OpenCount : Z;
  ClosedCount : Z;
  Blocked : Z;
  Health : Z;
  HealthLevel : string;
  Velocity : VelocityMetrics.t;
  Freshness : FreshnessMetrics.t;
  Flow : FlowMetrics.t;
  Criticality : CriticalityMetrics.t;
  Issues : list string
}.
End LabelHealth.

Module LabelSummary.
Record t := {
  Label : string;
  IssueCount : Z;
  OpenCount : Z;
  Health : Z;
  HealthLevel : string;
  TopIssue : string;
  NeedsAttention : bool
}.
End LabelSummary.

Module LabelAnalysisResult.
Record t := {
  GeneratedAt : time.Time;
  TotalLabels : Z;
  HealthyCount : Z;
  WarningCount : Z;
  CriticalCount : Z;
  Labels : list LabelHealth.t;
  Summaries : list LabelSummary.t;
  CrossLabelFlow : option CrossLabelFlow.t;
  AttentionNeeded : list string
}.
End LabelAnalysisResult.

Module GraphStats.
(** What the label engine reads from the graph analysis: the PageRank
    and betweenness maps and the critical path score of an issue. *)
Record t := {
  PageRank : gmap string float;
  Betweenness : gmap string float;
  GetCriticalPathScore : string -> float
}.
End GraphStats.

Definition NeedsAttention (health : LabelHealth.t) : bool :=
  LabelHealth.Health health <? HealthyThreshold.

Definition NewLabelHealth (label : string) : LabelHealth.t := {|
  LabelHealth.Label := label;
  LabelHealth.IssueCount := 0;
  LabelHealth.OpenCount := 0;
  LabelHealth.ClosedCount := 0;
  LabelHealth.Blocked := 0;
  LabelHealth.Health := 100;
  LabelHealth.HealthLevel := HealthLevelHealthy;
  LabelHealth.Velocity := {|
    VelocityMetrics.ClosedLast7Days := 0;
    VelocityMetrics.ClosedLast30Days := 0;
    VelocityMetrics.AvgDaysToClose := 0;
    VelocityMetrics.TrendDirection := "stable";
    VelocityMetrics.TrendPercent := 0;
    VelocityMetrics.VelocityScore := 100 |};
  LabelHealth.Freshness := {|
    FreshnessMetrics.MostRecentUpdate := time.zero;
    FreshnessMetrics.OldestOpenIssue := time.zero;
    FreshnessMetrics.AvgDaysSinceUpdate := 0;
    FreshnessMetrics.StaleCount := 0;
    FreshnessMetrics.StaleThresholdDays := DefaultStaleThresholdDays;
    FreshnessMetrics.FreshnessScore := 100 |};
  LabelHealth.Flow := {|
    FlowMetrics.IncomingDeps := 0;
    FlowMetrics.OutgoingDeps := 0;
    FlowMetrics.IncomingLabels := [];
    FlowMetrics.OutgoingLabels := [];
    FlowMetrics.BlockedByExternal := 0;
    FlowMetrics.BlockingExternal := 0;
    FlowMetrics.FlowScore := 100 |};
  LabelHealth.Criticality := {|
    CriticalityMetrics.AvgPageRank := 0;
    CriticalityMetrics.AvgBetweenness := 0;
    CriticalityMetrics.MaxBetweenness := 0;
    CriticalityMetrics.CriticalPathCount := 0;
    CriticalityMetrics.BottleneckCount := 0;
    CriticalityMetrics.CriticalityScore := 50 |};
  LabelHealth.Issues := []
|}.

(** *** Velocity *)

Definition day : time.Duration := 24 * time.Hour.

(** The mutable variables of the loop of [ComputeVelocityMetrics]. *)
Record velocity_state := {
  vs_closed7 : Z;
  vs_closed30 : Z;
  vs_totalCloseDur : time.Duration;
  vs_closeSamples : Z;
  vs_prevWeek : Z;
  vs_currentWeek : Z
}.

Definition velocity_init : velocity_state :=
  {| vs_closed7 := 0; vs_closed30 := 0; vs_totalCloseDur := 0;
     vs_closeSamples := 0; vs_prevWeek := 0; vs_currentWeek := 0 |}.

Definition velocity_issue (now : time.Time) (s : velocity_state)
    (iss : model.Issue) : velocity_state :=
  let weekAgo := time.Add now (- 7 * day) in
  let monthAgo := time.Add now (- 30 * day) in
  let prevWeekStart := time.Add now (- 14 * day) in
  match model.ClosedAt iss with
  | None => s
  | Some closedAt =>
      let inPrev := time.After closedAt prevWeekStart && time.Before closedAt weekAgo in
      let sampled := negb (time.IsZero (model.CreatedAt iss)) in
      {| vs_closed7 :=
           if time.After closedAt weekAgo then vs_closed7 s + 1 else vs_closed7 s;
         vs_closed30 :=
           if time.After closedAt monthAgo then vs_closed30 s + 1 else vs_closed30 s;
         vs_totalCloseDur :=
           if sampled
           then time.add (vs_totalCloseDur s) (time.Sub closedAt (model.CreatedAt iss))
           else vs_totalCloseDur s;
         vs_closeSamples :=
           if sampled then vs_closeSamples s + 1 else vs_closeSamples s;
         vs_prevWeek := if inPrev then vs_prevWeek s + 1 else vs_prevWeek s;
         vs_currentWeek :=
           if inPrev then vs_currentWeek s
           else if time.After closedAt weekAgo then vs_currentWeek s + 1
           else vs_currentWeek s |}
  end.

(** The trend of [currentWeek] against [prevWeek] closures:
    percentage and direction. *)
Definition velocity_trend (currentWeek prevWeek : Z) : float * string :=
  if 0 <? prevWeek then
    let trendPercent :=
      (float64.of_int (currentWeek - prevWeek) / float64.of_int prevWeek * 100)%float in
    (trendPercent,
     if (10 <? trendPercent)%float then "improving"
     else if (trendPercent <? -10)%float then "declining"
     else "stable")
  else if 0 <? currentWeek then (100%float, "improving")
  else (0%float, "stable").

(** *** Freshness *)

Record freshness_state := {
  fr_mostRecent : time.Time;
  fr_oldestOpen : time.Time;
  fr_totalStaleness : float;
  fr_count : Z;
  fr_staleCount : Z
}.

Definition freshness_init : freshness_state :=
  {| fr_mostRecent := time.zero; fr_oldestOpen := time.zero;
     fr_totalStaleness := 0; fr_count := 0; fr_staleCount := 0 |}.

(** Days between the last update of an issue and [now]. *)
Definition days_since (now updatedAt : time.Time) : float :=
  (float64.Hours (time.Sub now updatedAt) / 24)%float.

Definition freshness_issue (now : time.Time) (threshold : float)
    (s : freshness_state) (iss : model.Issue) : freshness_state :=
  let updated := negb (time.IsZero (model.UpdatedAt iss)) in
  let days := days_since now (model.UpdatedAt iss) in
  {| fr_mostRecent :=
       if time.After (model.UpdatedAt iss) (fr_mostRecent s)
       then model.UpdatedAt iss else fr_mostRecent s;
     fr_oldestOpen :=
       if negb (String.eqb (model.Status iss) model.StatusClosed)
          && (time.IsZero (fr_oldestOpen s)
              || time.Before (model.CreatedAt iss) (fr_oldestOpen s))
       then model.CreatedAt iss else fr_oldestOpen s;
     fr_totalStaleness :=
       if updated then (fr_totalStaleness s + days)%float else fr_totalStaleness s;
     fr_count := if updated then fr_count s + 1 else fr_count s;
     fr_staleCount :=
       if updated && (threshold <=? days)%float
       then fr_staleCount s + 1 else fr_staleCount s |}.

(** The issues carrying [label], each once, in input order. *)
Definition labeled_issues (label : string) (issues : list model.Issue)
    : list model.Issue :=
  List.filter (fun iss => existsb (fun l => String.eqb l label) (model.Labels iss)) issues.

(** The status switch of [ComputeLabelHealthForLabel]:
    closed, open and blocked counters after one more issue. *)
Definition count_status (acc : Z * Z * Z) (iss : model.Issue) : Z * Z * Z :=
  let '(closed, open, blocked) := acc in
  let st := model.Status iss in
  if String.eqb st model.StatusClosed then (closed + 1, open, blocked)
  else if String.eqb st model.StatusInProgress then (closed, open + 1, blocked)
  else if String.eqb st model.StatusBlocked then (closed, open, blocked + 1)
  else (closed, open + 1, blocked).

(** *** Per-label flow *)

Record label_flow_state := {
  lf_incoming : Z;
  lf_outgoing : Z;
  lf_seenIn : gset string;
  lf_seenOut : gset string
}.

Definition label_flow_dep (label : string) (issues : list model.Issue)
    (iss : model.Issue) (s : label_flow_state) (dep : option model.Dependency)
    : label_flow_state :=
  match dep with
  | None => s
  | Some d =>
      if negb (String.eqb (model.Type_ d) model.DepBlocks) then s
      else
        let blockerLabels := GetLabelsForIssue issues (model.DependsOnID d) in
        let targetLabels := model.Labels iss in
        let s1 :=
          fold_left
            (fun s bl =>
               if negb (String.eqb bl label)
               then {| lf_incoming := lf_incoming s + 1; lf_outgoing := lf_outgoing s;
                       lf_seenIn := {[bl]} ∪ lf_seenIn s; lf_seenOut := lf_seenOut s |}
               else s)
            blockerLabels s in
        fold_left
          (fun s tl =>
             if String.eqb tl label then s
             else {| lf_incoming := lf_incoming s; lf_outgoing := lf_outgoing s + 1;
                     lf_seenIn := lf_seenIn s; lf_seenOut := {[tl]} ∪ lf_seenOut s |})
          targetLabels s1
  end.

Definition label_flow (label : string) (issues labeled : list model.Issue)
    : FlowMetrics.t :=
  let s :=
    fold_left
      (fun s iss => fold_left (label_flow_dep label issues iss) (model.Dependencies iss) s)
      labeled
      {| lf_incoming := 0; lf_outgoing := 0; lf_seenIn := ∅; lf_seenOut := ∅ |} in
  {| FlowMetrics.IncomingDeps := lf_incoming s;
     FlowMetrics.OutgoingDeps := lf_outgoing s;
     FlowMetrics.IncomingLabels := sort.Strings (elements (lf_seenIn s));
     FlowMetrics.OutgoingLabels := sort.Strings (elements (lf_seenOut s));
     FlowMetrics.BlockedByExternal := 0;
     FlowMetrics.BlockingExternal := 0;
     FlowMetrics.FlowScore := clampScore (100 - lf_incoming s * 5) |}.

(** The comparison passed to [sort.Slice] for the summaries:
    health descending, then label. *)
Definition summary_less (a b : LabelSummary.t) : bool :=
  if negb (LabelSummary.Health a =? LabelSummary.Health b)
  then LabelSummary.Health b <? LabelSummary.Health a
  else string_lt (LabelSummary.Label a) (LabelSummary.Label b).

(** ** The engine

    The functions below convert doubles to integers and read the graph
    statistics.  Three things are fixed from outside: what [int(f)] yields
    when [f] has no [int] value, the graph analysis
    [NewAnalyzer(issues).Analyze()] and the helper [findMax], both defined in
    the graph part of the package. *)

Section Engine.
Variable indefinite : float -> Z.
Variable Analyze : list model.Issue -> GraphStats.t.
Variable findMax : gmap string float -> float.

Definition ComputeVelocityMetrics (issues : list model.Issue) (now : time.Time)
    : VelocityMetrics.t :=
  let s := fold_left (velocity_issue now) issues velocity_init in
  let avgDays :=
    if 0 <? vs_closeSamples s
    then (float64.Hours (vs_totalCloseDur s) / 24
            / float64.of_int (vs_closeSamples s))%float
    else 0%float in
  let '(trendPercent, trendDir) :=
    velocity_trend (vs_currentWeek s) (vs_prevWeek s) in
  let velocityScore :=
    if 0 <? vs_closed30 s
    then float64.to_int indefinite
           (minFloat 100 (float64.of_int (vs_closed30 s) * 10)%float)
    else 0 in
  let velocityScore :=
    if String.eqb trendDir "improving" && (velocityScore <? 100)
    then clampScore (velocityScore + 10) else velocityScore in
  {| VelocityMetrics.ClosedLast7Days := vs_closed7 s;
     VelocityMetrics.ClosedLast30Days := vs_closed30 s;
     VelocityMetrics.AvgDaysToClose := avgDays;
     VelocityMetrics.TrendDirection := trendDir;
     VelocityMetrics.TrendPercent := trendPercent;
     VelocityMetrics.VelocityScore := velocityScore |}.

Definition ComputeFreshnessMetrics (issues : list model.Issue) (now : time.Time)
    (staleDays : Z) : FreshnessMetrics.t :=
  let staleDays := if staleDays <=? 0 then DefaultStaleThresholdDays else staleDays in
  let threshold := float64.of_int staleDays in
  let s := fold_left (freshness_issue now threshold) issues freshness_init in
  let avgStaleness :=
    if 0 <? fr_count s
    then (fr_totalStaleness s / float64.of_int (fr_count s))%float
    else 0%float in
  let freshnessScore :=
    float64.to_int indefinite
      (maxFloat 0 (100 - avgStaleness / (threshold * 2) * 100)%float) in
  {| FreshnessMetrics.MostRecentUpdate := fr_mostRecent s;
     FreshnessMetrics.OldestOpenIssue := fr_oldestOpen s;
     FreshnessMetrics.AvgDaysSinceUpdate := avgStaleness;
     FreshnessMetrics.StaleCount := fr_staleCount s;
     FreshnessMetrics.StaleThresholdDays := staleDays;
     FreshnessMetrics.FreshnessScore := clampScore freshnessScore |}.

Definition ComputeCompositeHealth (velocity freshness flow criticality : Z)
    (cfg : LabelHealthConfig.t) : Z :=
  let weighted :=
    (float64.of_int velocity * LabelHealthConfig.VelocityWeight cfg
     + float64.of_int freshness * LabelHealthConfig.FreshnessWeight cfg
     + float64.of_int flow * LabelHealthConfig.FlowWeight cfg
     + float64.of_int criticality * LabelHealthConfig.CriticalityWeight cfg)%float in
  clampScore (float64.to_int indefinite (weighted + 0.5)%float).

(** *** Criticality *)

Record criticality_state := {
  cr_prSum : float;
  cr_bwSum : float;
  cr_maxBwLabel : float;
  cr_critCount : Z;
  cr_bottleneckCount : Z
}.

Definition criticality_issue (stats : GraphStats.t) (s : criticality_state)
    (iss : model.Issue) : criticality_state :=
  let bwVal := default 0%float (GraphStats.Betweenness stats !! model.ID iss) in
  {| cr_prSum :=
       (cr_prSum s + default 0%float (GraphStats.PageRank stats !! model.ID iss))%float;
     cr_bwSum := (cr_bwSum s + bwVal)%float;
     cr_maxBwLabel :=
       if (cr_maxBwLabel s <? bwVal)%float then bwVal else cr_maxBwLabel s;
     cr_critCount :=
       if (0 <? GraphStats.GetCriticalPathScore stats (model.ID iss))%float
       then cr_critCount s + 1 else cr_critCount s;
     cr_bottleneckCount :=
       if (0 <? bwVal)%float then cr_bottleneckCount s + 1 else cr_bottleneckCount s |}.

Definition label_criticality (stats : GraphStats.t) (labeled : list model.Issue)
    (issueCount : Z) : CriticalityMetrics.t :=
  let maxPR := findMax (GraphStats.PageRank stats) in
  let maxBW := findMax (GraphStats.Betweenness stats) in
  let s :=
    fold_left (criticality_issue stats) labeled
      {| cr_prSum := 0; cr_bwSum := 0; cr_maxBwLabel := 0;
         cr_critCount := 0; cr_bottleneckCount := 0 |} in
  let avgPR :=
    if 0 <? issueCount then (cr_prSum s / float64.of_int issueCount)%float
    else 0%float in
  let avgBW :=
    if 0 <? issueCount then (cr_bwSum s / float64.of_int issueCount)%float
    else 0%float in
  let critScore := 0 in
  let critScore :=
    if (0 <? maxPR)%float
    then critScore + float64.to_int indefinite (avgPR / maxPR * 50)%float
    else critScore in
  let critScore :=
    if (0 <? maxBW)%float
    then critScore + float64.to_int indefinite (cr_maxBwLabel s / maxBW * 50)%float
    else critScore in
  {| CriticalityMetrics.AvgPageRank := avgPR;
     CriticalityMetrics.AvgBetweenness := avgBW;
     CriticalityMetrics.MaxBetweenness := cr_maxBwLabel s;
     CriticalityMetrics.CriticalPathCount := cr_critCount s;
     CriticalityMetrics.BottleneckCount := cr_bottleneckCount s;
     CriticalityMetrics.CriticalityScore := clampScore critScore |}.

(** *** Health of one label *)

Definition ComputeLabelHealthForLabel (label : string) (issues : list model.Issue)
    (cfg : LabelHealthConfig.t) (now : time.Time) (stats : option GraphStats.t)
    : LabelHealth.t :=
  let health := NewLabelHealth label in
  let labeled := labeled_issues label issues in
  let ids := model.ID <$> labeled in
  let issueCount := Z.of_nat (length labeled) in
  if issueCount =? 0 then
    {| LabelHealth.Label := label;
       LabelHealth.IssueCount := issueCount;
       LabelHealth.OpenCount := LabelHealth.OpenCount health;
       LabelHealth.ClosedCount := LabelHealth.ClosedCount health;
       LabelHealth.Blocked := LabelHealth.Blocked health;
       LabelHealth.Health := 0;
       LabelHealth.HealthLevel := HealthLevelCritical;
       LabelHealth.Velocity := LabelHealth.Velocity health;
       LabelHealth.Freshness := LabelHealth.Freshness health;
       LabelHealth.Flow := LabelHealth.Flow health;
       LabelHealth.Criticality := LabelHealth.Criticality health;
       LabelHealth.Issues := ids |}
  else
    let '(closed, open, blocked) :=
      fold_left count_status labeled
        (LabelHealth.ClosedCount health, LabelHealth.OpenCount health,
         LabelHealth.Blocked health) in
    let velocity := ComputeVelocityMetrics labeled now in
    let freshness :=
      ComputeFreshnessMetrics labeled now (LabelHealthConfig.StaleThresholdDays cfg) in
    let flow := label_flow label issues labeled in
    let stats := match stats with Some s => s | None => Analyze issues end in
    let criticality := label_criticality stats labeled issueCount in
    let score :=
      ComputeCompositeHealth (VelocityMetrics.VelocityScore velocity)
        (FreshnessMetrics.FreshnessScore freshness) (FlowMetrics.FlowScore flow)
        (CriticalityMetrics.CriticalityScore criticality) cfg in
    {| LabelHealth.Label := label;
       LabelHealth.IssueCount := issueCount;
       LabelHealth.OpenCount := open;
       LabelHealth.ClosedCount := closed;
       LabelHealth.Blocked := blocked;
       LabelHealth.Health := score;
       LabelHealth.HealthLevel := HealthLevelFromScore score;
       LabelHealth.Velocity := velocity;
       LabelHealth.Freshness := freshness;
       LabelHealth.Flow := flow;
       LabelHealth.Criticality := criticality;
       LabelHealth.Issues := ids |}.

(** *** Health of all labels *)

(** One iteration of the loop of [ComputeAllLabelHealth] over the sorted
    labels; the accumulator is the result under construction. *)
Definition all_health_label (issues : list model.Issue) (cfg : LabelHealthConfig.t)
    (now : time.Time) (fullStats : GraphStats.t) (result : LabelAnalysisResult.t)
    (label : string) : LabelAnalysisResult.t :=
  let health := ComputeLabelHealthForLabel label issues cfg now (Some fullStats) in
  let summary := {|
    LabelSummary.Label := label;
    LabelSummary.IssueCount := LabelHealth.IssueCount health;
    LabelSummary.OpenCount := LabelHealth.OpenCount health;
    LabelSummary.Health := LabelHealth.Health health;
    LabelSummary.HealthLevel := LabelHealth.HealthLevel health;
    LabelSummary.TopIssue := default "" (head (LabelHealth.Issues health));
    LabelSummary.NeedsAttention := NeedsAttention health |} in
  let level := LabelHealth.HealthLevel health in
  let isHealthy := String.eqb level HealthLevelHealthy in
  let isWarning := negb isHealthy && String.eqb level HealthLevelWarning in
  let isCritical :=
    negb isHealthy && negb isWarning && String.eqb level HealthLevelCritical in
  {| LabelAnalysisResult.GeneratedAt := LabelAnalysisResult.GeneratedAt result;
     LabelAnalysisResult.TotalLabels := LabelAnalysisResult.TotalLabels result;
     LabelAnalysisResult.HealthyCount :=
       if isHealthy then LabelAnalysisResult.HealthyCount result + 1
       else LabelAnalysisResult.HealthyCount result;
     LabelAnalysisResult.WarningCount :=
       if isWarning then LabelAnalysisResult.WarningCount result + 1
       else LabelAnalysisResult.WarningCount result;
     LabelAnalysisResult.CriticalCount :=
       if isCritical then LabelAnalysisResult.CriticalCount result + 1
       else LabelAnalysisResult.CriticalCount result;
     LabelAnalysisResult.Labels := LabelAnalysisResult.Labels result ++ [health];
     LabelAnalysisResult.Summaries := LabelAnalysisResult.Summaries result ++ [summary];
     LabelAnalysisResult.CrossLabelFlow := LabelAnalysisResult.CrossLabelFlow result;
     LabelAnalysisResult.AttentionNeeded :=
       if isWarning || isCritical
       then LabelAnalysisResult.AttentionNeeded result ++ [label]
       else LabelAnalysisResult.AttentionNeeded result |}.

Definition ComputeAllLabelHealth (issues : list model.Issue)
    (cfg : LabelHealthConfig.t) (now : time.Time) : LabelAnalysisResult.t :=
  let labels := ExtractLabels issues in
  let result := {|
    LabelAnalysisResult.GeneratedAt := now;
    LabelAnalysisResult.TotalLabels := LabelExtractionResult.LabelCount labels;
    LabelAnalysisResult.HealthyCount := 0;
    LabelAnalysisResult.WarningCount := 0;
    LabelAnalysisResult.CriticalCount := 0;
    LabelAnalysisResult.Labels := [];
    LabelAnalysisResult.Summaries := [];
    LabelAnalysisResult.CrossLabelFlow := None;
    LabelAnalysisResult.AttentionNeeded := [] |} in
  let sorted := sort.Strings (LabelExtractionResult.Labels labels) in
  let fullStats := Analyze issues in
  let result := fold_left (all_health_label issues cfg now fullStats) sorted result in
  {| LabelAnalysisResult.GeneratedAt := LabelAnalysisResult.GeneratedAt result;
     LabelAnalysisResult.TotalLabels := LabelAnalysisResult.TotalLabels result;
     LabelAnalysisResult.HealthyCount := LabelAnalysisResult.HealthyCount result;
     LabelAnalysisResult.WarningCount := LabelAnalysisResult.WarningCount result;
     LabelAnalysisResult.CriticalCount := LabelAnalysisResult.CriticalCount result;
     LabelAnalysisResult.Labels := LabelAnalysisResult.Labels result;
     LabelAnalysisResult.Summaries :=
       sort.Slice summary_less (LabelAnalysisResult.Summaries result);
     LabelAnalysisResult.CrossLabelFlow := LabelAnalysisResult.CrossLabelFlow result;
     LabelAnalysisResult.AttentionNeeded :=
       LabelAnalysisResult.AttentionNeeded result |}.

End Engine.

(** ** Vocabulary of the properties *)

(** [s1 <= s2] in the bytewise lexicographic order. *)
Definition string_le (s1 s2 : string) : Prop := string_lt s2 s1 = false.

(** The order of the dependency list: blocking label, then blocked label,
    then larger counts first. *)
Definition dependency_le (a b : LabelDependency.t) : Prop :=
  string_lt (LabelDependency.FromLabel a) (LabelDependency.FromLabel b) = true
  \/ (LabelDependency.FromLabel a = LabelDependency.FromLabel b
      /\ (string_lt (LabelDependency.ToLabel a) (LabelDependency.ToLabel b) = true
          \/ (LabelDependency.ToLabel a = LabelDependency.ToLabel b
              /\ LabelDependency.IssueCount b <= LabelDependency.IssueCount a))).

(** What the extraction loop maintains: no statistics and no set entry
    for the empty label. *)
Definition no_empty_label (s : extract_state) : Prop :=
  es_stats s !! "" = None /\ "" ∉ es_labelSet s.

(** A pair of labels taken at two different positions of a label list. *)
Fixpoint distinct_pair (labels : list string) (a b : string) : Prop :=
  match labels with
  | [] => False
  | l :: rest =>
      (a = l /\ b ∈ rest) \/ (b = l /\ a ∈ rest) \/ distinct_pair rest a b
  end.

(** The sign of a double is not set, and it is not a NaN. *)
Definition sf_nonneg (x : spec_float) : Prop :=
  match x with
  | S754_zero s | S754_infinity s | S754_finite s _ _ => s = false
  | S754_nan => False
  end.

(** [clamp(v, 0, 100)] on integers. *)
Definition clamp_0_100 (v : Z) : Z := Z.max 0 (Z.min 100 v).

(** Rounding to the nearest integer the way the source does it: add one
    half and truncate. *)
Definition round_half_up (indefinite : float -> Z) (x : float) : Z :=
  float64.to_int indefinite (x + 0.5)%float.

(** The composite health in the words of the specification: the weighted
    sum of the four components, rounded and clamped. *)
Definition composite_health_spec (indefinite : float -> Z)
    (velocity freshness flow criticality : Z) (cfg : LabelHealthConfig.t) : Z :=
  clamp_0_100
    (round_half_up indefinite
       (float64.of_int velocity * LabelHealthConfig.VelocityWeight cfg
        + float64.of_int freshness * LabelHealthConfig.FreshnessWeight cfg
        + float64.of_int flow * LabelHealthConfig.FlowWeight cfg
        + float64.of_int criticality * LabelHealthConfig.CriticalityWeight cfg)%float).

(** A score is an integer between 0 and 100. *)
Definition is_score (v : Z) : Prop := 0 <= v <= 100.

(** The number of issues closed at an instant satisfying [p]. *)
Definition closed_when (p : time.Time -> bool) (issues : list model.Issue) : Z :=
  Z.of_nat (length (List.filter
    (fun iss => match model.ClosedAt iss with Some t => p t | None => false end)
    issues)).

(** Closures of the current week: later than seven days before [now]. *)
Definition current_week (now : time.Time) (issues : list model.Issue) : Z :=
  closed_when (fun t => time.After t (time.Add now (- 7 * day))) issues.

(** Closures of the previous week: strictly between fourteen and seven days
    before [now]. *)
Definition previous_week (now : time.Time) (issues : list model.Issue) : Z :=
  closed_when
    (fun t => time.After t (time.Add now (- 14 * day))
              && time.Before t (time.Add now (- 7 * day)))
    issues.

(** The number of issues whose status satisfies [p]. *)
Definition status_count (p : string -> bool) (issues : list model.Issue) : Z :=
  Z.of_nat (length (List.filter (fun iss => p (model.Status iss)) issues)).

Definition is_closed (st : string) : bool := String.eqb st model.StatusClosed.
Definition is_blocked (st : string) : bool := String.eqb st model.StatusBlocked.
Definition is_open_like (st : string) : bool := negb (is_closed st) && negb (is_blocked st).

(** A health level that puts a label on the attention list. *)
Definition needs_attention_level (level : string) : Prop :=
  level = HealthLevelWarning \/ level = HealthLevelCritical.

(** The boolean form of [needs_attention_level]. *)
Definition needs_attention_levelb (level : string) : bool :=
  String.eqb level HealthLevelWarning || String.eqb level HealthLevelCritical.

(** ** Inputs of the examples *)

(** A reference instant: 2025-01-01T00:00:00Z, in nanoseconds since the zero
    time. *)
Definition test_now : time.Time := 63871286400 * 10 ^ 9.

(** An issue created thirty days before [now] and closed [days] days
    before [now], as the velocity trend tests build them. *)
Definition closed_days_ago (now : time.Time) (id : string) (days : Z) : model.Issue :=
  {| model.ID := id; model.Status := model.StatusClosed; model.Priority := 0;
     model.IssueType := ""; model.Labels := [];
     model.CreatedAt := time.Add now (- 30 * day);
     model.UpdatedAt := time.zero;
     model.ClosedAt := Some (time.Add now (- days * day));
     model.Dependencies := [] |}.

(** Five closures in the current week, two in the previous one. *)
Definition improving_test_issues (now : time.Time) : list model.Issue :=
  [ closed_days_ago now "cur-1" 1; closed_days_ago now "cur-2" 2;
    closed_days_ago now "cur-3" 3; closed_days_ago now "cur-4" 4;
    closed_days_ago now "cur-5" 5;
    closed_days_ago now "prev-8" 8; closed_days_ago now "prev-9" 9 ].

(** One closure in the current week, five in the previous one. *)
Definition declining_test_issues (now : time.Time) : list model.Issue :=
  [ closed_days_ago now "cur-1" 2;
    closed_days_ago now "prev-8" 8; closed_days_ago now "prev-9" 9;
    closed_days_ago now "prev-10" 10; closed_days_ago now "prev-11" 11;
    closed_days_ago now "prev-12" 12 ].

(** An open issue last updated at [updatedAt], as the freshness tests build
    them. *)
Definition updated_issue (id : string) (updatedAt : time.Time) : model.Issue :=
  {| model.ID := id; model.Status := model.StatusOpen; model.Priority := 0;
     model.IssueType := ""; model.Labels := [];
     model.CreatedAt := time.zero; model.UpdatedAt := updatedAt;
     model.ClosedAt := None; model.Dependencies := [] |}.

(** ** Further queries of the label catalog *)

(** [GetLabelIssues]: the issues carrying [label], each once, in input
    order. *)
Definition GetLabelIssues (issues : list model.Issue) (label : string)
    : list model.Issue :=
  List.filter (fun issue => existsb (fun l => String.eqb l label) (model.Labels issue))
    issues.

(** The inner loop of [GetCommonLabels] over one label set: [counts] and the
    [seen] set of that label set. *)
Definition common_labels_set (counts : gmap string Z) (labels : list string)
    : gmap string Z * gset string :=
  fold_left
    (fun (acc : gmap string Z * gset string) label =>
       if decide (label ∈ acc.2) then acc
       else (map_incr label acc.1, {[label]} ∪ acc.2))
    labels (counts, ∅).

(** [GetCommonLabels]: the labels found in every one of the label sets,
    sorted; nothing for no label set at all. *)
Definition GetCommonLabels (labelSets : list (list string)) : list string :=
  if (length labelSets =? 0)%nat then []
  else
    let counts :=
      fold_left (fun counts labels => (common_labels_set counts labels).1) labelSets ∅ in
    sort.Strings
      (fst <$> filter (fun e : string * Z => e.2 = Z.of_nat (length labelSets))
                 (map_to_list counts)).

(** [ComputeBlockedByLabel]: for each label, the number of times it appears
    on an issue that is not closed and has open blockers.  The analyzer is
    read through its [GetOpenBlockers] query only. *)
Definition ComputeBlockedByLabel (GetOpenBlockers : string -> list string)
    (issues : list model.Issue) : gmap string Z :=
  fold_left
    (fun blocked issue =>
       if String.eqb (model.Status issue) model.StatusClosed then blocked
       else if (0 <? length (GetOpenBlockers (model.ID issue)))%nat
       then fold_left (fun blocked label => map_incr label blocked)
              (model.Labels issue) blocked
       else blocked)
    issues ∅.

(** ** Vocabulary of the further properties *)

(** Reading [m[k]] in a [map[K]int]: a missing key reads as zero. *)
Definition map_get `{Countable K} (m : gmap K Z) (k : K) : Z := default 0 (m !! k).

(** How many times [l] is written in a label list. *)
Definition label_count (l : string) (labels : list string) : Z :=
  Z.of_nat (count_occ string_dec labels l).

(** The sum of [f] over the issues. *)
Fixpoint sum_issues (f : model.Issue -> Z) (issues : list model.Issue) : Z :=
  match issues with
  | [] => 0
  | iss :: rest => f iss + sum_issues f rest
  end.

(** How many times [l] is written on the issues, repetitions on one issue
    included. *)
Definition occurrences (l : string) (issues : list model.Issue) : Z :=
  sum_issues (fun iss => label_count l (model.Labels iss)) issues.

(** The statistics recorded for [l], those of a fresh record when there
    are none. *)
Definition stats_of (stats : gmap string LabelStats.t) (l : string) : LabelStats.t :=
  default (LabelStats.new l) (stats !! l).

(** The order of the top labels: larger [count] first, then by label. *)
Definition top_label_le (count : string -> Z) (a b : string) : Prop :=
  count b < count a \/ (count a = count b /\ string_le a b).

(** The keys of the statistics are the collected labels. *)
Definition stats_keys_ok (s : extract_state) : Prop :=
  forall l, is_Some (es_stats s !! l) <-> l ∈ es_labelSet s.

(** What every statistics record satisfies: it carries its label, its
    blocked counter was never touched, it lists one issue ID per count, and
    its status counters are part of the total. *)
Definition stats_record_ok (l : string) (st : LabelStats.t) : Prop :=
  LabelStats.Label st = l
  /\ LabelStats.Blocked st = 0
  /\ Z.of_nat (length (LabelStats.IssueIDs st)) = LabelStats.TotalCount st
  /\ 0 <= LabelStats.OpenCount st
  /\ 0 <= LabelStats.ClosedCount st
  /\ 0 <= LabelStats.InProgress st
  /\ LabelStats.OpenCount st + LabelStats.ClosedCount st + LabelStats.InProgress st
     <= LabelStats.TotalCount st.

Definition stats_records_ok (s : extract_state) : Prop :=
  forall l, stats_record_ok l (stats_of (es_stats s) l).

(** The total of a label after the loop: one per non-empty occurrence. *)
Definition total_of (s : extract_state) (l : string) : Z :=
  LabelStats.TotalCount (stats_of (es_stats s) l).

(** The order [sortLabelsByCount] sorts its (label, count) pairs by. *)
Definition labelCount_le (a b : string * Z) : Prop :=
  b.2 < a.2 \/ (a.2 = b.2 /\ string_le a.1 b.1).

(** The number of ordered position pairs [(i, j)], [i <> j], of a label list
    that hold [a] at [i] and [b] at [j]. *)
Definition pairings (a b : string) (labels : list string) : Z :=
  if String.eqb a b then label_count a labels * (label_count a labels - 1)
  else label_count a labels * label_count b labels.

(** The number of label sets that hold [l]. *)
Definition containing (l : string) (labelSets : list (list string)) : Z :=
  Z.of_nat (length (filter (fun labels : list string => l ∈ labels) labelSets)).

(** What an issue adds to the blocked count of [l]: the occurrences of [l]
    on it when it is not closed and has open blockers. *)
Definition blocked_occurrences (GetOpenBlockers : string -> list string) (l : string)
    (iss : model.Issue) : Z :=
  if String.eqb (model.Status iss) model.StatusClosed then 0
  else if (0 <? length (GetOpenBlockers (model.ID iss)))%nat
  then label_count l (model.Labels iss)
  else 0.

(** A blocking pair is justified by the issues: a blocked issue and a
    blocker issue of the collection, neither dropped by the closed-issue
    filter, the first depending on the second through a blocks dependency,
    and each carrying the label the pair records for it. *)
Definition pair_justified (issues : list model.Issue) (cfg : LabelHealthConfig.t)
    (p : BlockingPair.t) : Prop :=
  exists blocker blocked d,
    blocker ∈ issues /\ blocked ∈ issues
    /\ skip_closed cfg blocker = false /\ skip_closed cfg blocked = false
    /\ Some d ∈ model.Dependencies blocked
    /\ model.Type_ d = model.DepBlocks
    /\ model.DependsOnID d = model.ID blocker
    /\ BlockingPair.BlockerID p = model.ID blocker
    /\ BlockingPair.BlockedID p = model.ID blocked
    /\ BlockingPair.BlockerLabel p ∈ model.Labels blocker
    /\ BlockingPair.BlockedLabel p ∈ model.Labels blocked.

(** A well-formed label dependency from [from] to [to]: two different
    non-empty labels, a positive count, one issue ID and one blocking pair
    per count, every pair recording these two labels and justified by the
    issues. *)
Definition dependency_ok (issues : list model.Issue) (cfg : LabelHealthConfig.t)
    (from to : string) (d : LabelDependency.t) : Prop :=
  LabelDependency.FromLabel d = from
  /\ LabelDependency.ToLabel d = to
  /\ from <> "" /\ to <> "" /\ from <> to
  /\ 0 < LabelDependency.IssueCount d
  /\ Z.of_nat (length (LabelDependency.IssueIDs d)) = LabelDependency.IssueCount d
  /\ Z.of_nat (length (LabelDependency.BlockingPairs d)) = LabelDependency.IssueCount d
  /\ Forall (fun p => BlockingPair.BlockerLabel p = from
                      /\ BlockingPair.BlockedLabel p = to
                      /\ pair_justified issues cfg p)
       (LabelDependency.BlockingPairs d).

(** The sum of a matrix row, as the bottleneck loop computes it. *)
Definition row_sum (row : list Z) : Z := fold_left Z.add row 0.

(** The sum of all entries of a matrix. *)
Definition matrix_sum (matrix : list (list Z)) : Z :=
  fold_right (fun row acc => row_sum row + acc) 0 matrix.

(** [matrix[i][j]], when both indices are in range. *)
Definition matrix_at (matrix : list (list Z)) (i j : nat) : option Z :=
  matrix !! i ≫= fun row => row !! j.

(** A square matrix of size [n] with no negative entry. *)
Definition matrix_ok (n : nat) (matrix : list (list Z)) : Prop :=
  length matrix = n
  /\ Forall (fun row => length row = n /\ Forall (fun v => 0 <= v) row) matrix.

(** What the aggregation loop keeps true of [depMap]: the entry stored under
    the key [(from, to)] is a well-formed dependency from [from] to [to], and
    both labels have a position in the matrix. *)
Definition deps_inv (issues : list model.Issue) (cfg : LabelHealthConfig.t)
    (index : gmap string nat) (s : flow_state) : Prop :=
  forall from to d, fs_depMap s !! (from, to) = Some d ->
    dependency_ok issues cfg from to d
    /\ is_Some (index !! from) /\ is_Some (index !! to).

(** The key of a dependency in [depMap]. *)
Definition dependency_key (d : LabelDependency.t) : string * string :=
  (LabelDependency.FromLabel d, LabelDependency.ToLabel d).

(** The sum of the counts of a list of dependencies. *)
Definition deps_total (deps : list LabelDependency.t) : Z :=
  foldr (fun d acc => LabelDependency.IssueCount d + acc) 0 deps.

(** The count of the first dependency from [from] to [to] in [deps], and
    [0] when there is none. *)
Definition dependency_count (deps : list LabelDependency.t) (from to : string) : Z :=
  match list_find (fun d => dependency_key d = (from, to)) deps with
  | Some (_, d) => LabelDependency.IssueCount d
  | None => 0
  end.

(** The count stored in [depMap] under the key [(from, to)], [0] without
    entry. *)
Definition map_count (depMap : gmap (string * string) LabelDependency.t)
    (from to : string) : Z :=
  default 0 (LabelDependency.IssueCount <$> depMap !! (from, to)).

(** What the aggregation loop keeps true of the matrix and the total: the
    matrix stays square without negative entry, the total is the sum of the
    matrix and the sum of the counts in [depMap], and the matrix entry of two
    labels is the count [depMap] holds for them. *)
Definition matrix_inv (n : nat) (index : gmap string nat) (s : flow_state) : Prop :=
  matrix_ok n (fs_matrix s)
  /\ fs_totalDeps s = matrix_sum (fs_matrix s)
  /\ fs_totalDeps s = deps_total (snd <$> map_to_list (fs_depMap s))
  /\ forall from to iFrom iTo,
       index !! from = Some iFrom -> index !! to = Some iTo ->
       matrix_at (fs_matrix s) iFrom iTo = Some (map_count (fs_depMap s) from to).

(** The row-sum loop of [out_counts] with its row counter kept. *)
Definition out_loop (labelList : list string) (matrix : list (list Z))
    : gmap string Z * Z * nat :=
  let step (acc : gmap string Z * Z * nat) (row : list Z) :=
    let '(outCounts, maxOut, i) := acc in
    let sum := fold_left Z.add row 0 in
    let outCounts :=
      match labelList !! i with
      | Some l => <[l := sum]> outCounts
      | None => outCounts
      end in
    (outCounts, (if maxOut <? sum then sum else maxOut), S i) in
  fold_left step matrix (∅, 0, 0%nat).

(** [row] is a row of [matrix] with a positive sum that no row of [matrix]
    exceeds. *)
Definition max_row (matrix : list (list Z)) (row : list Z) : Prop :=
  0 < row_sum row /\ Forall (fun r => row_sum r <= row_sum row) matrix.

(** [l] is a label other than [label] carried by the blocker of a blocks
    dependency of a member issue, the blocker being looked up by
    [GetLabelsForIssue]. *)
Definition flow_in_source (label : string) (issues members : list model.Issue)
    (l : string) : Prop :=
  l <> label
  /\ exists iss d, iss ∈ members /\ Some d ∈ model.Dependencies iss
                   /\ model.Type_ d = model.DepBlocks
                   /\ l ∈ GetLabelsForIssue issues (model.DependsOnID d).

(** [l] is a label other than [label] carried by a member issue that has a
    blocks dependency. *)
Definition flow_out_source (label : string) (members : list model.Issue)
    (l : string) : Prop :=
  l <> label
  /\ exists iss d, iss ∈ members /\ Some d ∈ model.Dependencies iss
                   /\ model.Type_ d = model.DepBlocks
                   /\ l ∈ model.Labels iss.

(** The summary line that [ComputeAllLabelHealth] writes for a label
    health. *)
Definition summary_of (h : LabelHealth.t) : LabelSummary.t :=
  {| LabelSummary.Label := LabelHealth.Label h;
     LabelSummary.IssueCount := LabelHealth.IssueCount h;
     LabelSummary.OpenCount := LabelHealth.OpenCount h;
     LabelSummary.Health := LabelHealth.Health h;
     LabelSummary.HealthLevel := LabelHealth.HealthLevel h;
     LabelSummary.TopIssue := default "" (head (LabelHealth.Issues h));
     LabelSummary.NeedsAttention := NeedsAttention h |}.

(** The order of the summaries: higher health first, then the label. *)
Definition summary_le (a b : LabelSummary.t) : Prop :=
  LabelSummary.Health b < LabelSummary.Health a
  \/ (LabelSummary.Health a = LabelSummary.Health b
      /\ string_le (LabelSummary.Label a) (LabelSummary.Label b)).

(** Closures of the last thirty days: later than thirty days before
    [now]. *)
Definition last_month (now : time.Time) (issues : list model.Issue) : Z :=
  closed_when (fun t => time.After t (time.Add now (- 30 * day))) issues.

(** The number of issues that carry an update time. *)
Definition updated_count (issues : list model.Issue) : Z :=
  Z.of_nat (length (List.filter
    (fun iss => negb (time.IsZero (model.UpdatedAt iss))) issues)).

(** An issue that is not closed. *)
Definition not_closed (iss : model.Issue) : Prop :=
  is_closed (model.Status iss) = false.

(** One closed issue and one issue in progress, created five days before
    the reference instant. *)
Definition oldest_open_test_issues : list model.Issue :=
  [ closed_days_ago test_now "2" 3;
    {| model.ID := "3"; model.Status := model.StatusInProgress;
       model.Priority := 0; model.IssueType := ""; model.Labels := [];
       model.CreatedAt := time.Add test_now (- 5 * day);
       model.UpdatedAt := time.Add test_now (- day);
       model.ClosedAt := None; model.Dependencies := [] |} ].

(** ** The application version *)

Module version.
(** The hard-coded version used when nothing else provides one. *)
Definition fallback : string := "v0.14.4".

(** [versionFromBuildInfo]: the module version stamped by the toolchain.
    [buildInfo] is [info.Main.Version] when [debug.ReadBuildInfo] succeeds
    and [None] when it does not. *)
Definition versionFromBuildInfo (buildInfo : option string) : string :=
  match buildInfo with
  | None => ""
  | Some v =>
      if String.eqb v "" || String.eqb v "(devel)" then ""
      else
        match v with
        | String c _ => if Ascii.eqb c "v" then v else "v" ++ v
        | EmptyString => v
        end
  end.

(** [init]: the value given to [Version], from the build-time [version]
    variable and the build information. *)
Definition init (version : string) (buildInfo : option string) : string :=
  if negb (String.eqb version "") then version
  else if negb (String.eqb (versionFromBuildInfo buildInfo) "")
  then versionFromBuildInfo buildInfo
  else fallback.
End version.

(** * Properties *)

(** ** The order on strings *)

Lemma ascii_compare_refl (a : ascii) : Ascii.compare a a = Eq.
Proof. unfold Ascii.compare. apply N.compare_refl. Qed.

Lemma string_compare_refl (s : string) : String.compare s s = Eq.
Proof.
  induction s as [|a s IH]; simpl; [reflexivity|].
  rewrite ascii_compare_refl. exact IH.
Qed.

Lemma ascii_compare_lt_trans (a b c : ascii) :
  Ascii.compare a b = Lt -> Ascii.compare b c = Lt -> Ascii.compare a c = Lt.
Proof.
  unfold Ascii.compare. rewrite !N.compare_lt_iff. lia.
Qed.

Lemma string_compare_lt_trans (s1 s2 s3 : string) :
  String.compare s1 s2 = Lt -> String.compare s2 s3 = Lt -> String.compare s1 s3 = Lt.
Proof.
  revert s2 s3.
  induction s1 as [|a s1 IH]; intros [|b s2] [|c s3]; simpl; try congruence.
  destruct (Ascii.compare a b) eqn:Hab; try discriminate;
    destruct (Ascii.compare b c) eqn:Hbc; try discriminate; intros H12 H23.
  - apply Ascii.compare_eq_iff in Hab, Hbc. subst.
    rewrite ascii_compare_refl. eauto.
  - apply Ascii.compare_eq_iff in Hab. subst. rewrite Hbc. reflexivity.
  - apply Ascii.compare_eq_iff in Hbc. subst. rewrite Hab. reflexivity.
  - rewrite (ascii_compare_lt_trans a b c Hab Hbc). reflexivity.
Qed.

Lemma string_lt_irrefl (s : string) : string_lt s s = false.
Proof. unfold string_lt, String.ltb. rewrite string_compare_refl. reflexivity. Qed.

Lemma string_lt_trans (s1 s2 s3 : string) :
  string_lt s1 s2 = true -> string_lt s2 s3 = true -> string_lt s1 s3 = true.
Proof.
  unfold string_lt, String.ltb.
  destruct (String.compare s1 s2) eqn:H12; try discriminate.
  destruct (String.compare s2 s3) eqn:H23; try discriminate.
  rewrite (string_compare_lt_trans _ _ _ H12 H23). reflexivity.
Qed.

Lemma string_lt_asym (s1 s2 : string) :
  string_lt s1 s2 = true -> string_lt s2 s1 = false.
Proof.
  unfold string_lt, String.ltb. rewrite (String.compare_antisym s2 s1).
  destruct (String.compare s1 s2); simpl; congruence.
Qed.

(** Two strings are equal or one is below the other. *)
Lemma string_lt_trichotomy (s1 s2 : string) :
  string_lt s1 s2 = true \/ s1 = s2 \/ string_lt s2 s1 = true.
Proof.
  unfold string_lt, String.ltb. rewrite (String.compare_antisym s2 s1).
  destruct (String.compare s1 s2) eqn:H; simpl; auto.
  right. left. by apply String.compare_eq_iff.
Qed.

Lemma string_le_alt (s1 s2 : string) :
  string_le s1 s2 <-> string_lt s1 s2 = true \/ s1 = s2.
Proof.
  unfold string_le. split.
  - intros H. destruct (string_lt_trichotomy s1 s2) as [?|[?|?]]; auto. congruence.
  - intros [H | ->]; [by apply string_lt_asym | apply string_lt_irrefl].
Qed.

Lemma string_le_leb (s1 s2 : string) : string_le s1 s2 <-> String.leb s1 s2 = true.
Proof.
  unfold string_le, string_lt, String.ltb, String.leb.
  rewrite (String.compare_antisym s2 s1).
  destruct (String.compare s1 s2); simpl; split; congruence.
Qed.

#[local] Instance string_le_trans : Transitive string_le.
Proof.
  intros a b c. rewrite !string_le_alt.
  intros [Hab| ->] [Hbc| ->]; eauto using string_lt_trans.
Qed.

#[local] Instance string_le_total : Total string_le.
Proof.
  intros a b. rewrite !string_le_alt.
  destruct (string_lt_trichotomy a b) as [?|[?|?]]; auto.
Qed.

(** ** Sorting *)

Section Sorting.
Context {A : Type} (less : A -> A -> bool) (le : relation A).
Hypothesis less_le : forall x y, less y x = false <-> le x y.
Context `{!Transitive le, !Total le}.

Lemma Slice_Permutation (xs : list A) : sort.Slice less xs ≡ₚ xs.
Proof. apply merge_sort_Permutation. Qed.

Lemma Slice_elem_of (x : A) (xs : list A) : x ∈ sort.Slice less xs <-> x ∈ xs.
Proof. by rewrite Slice_Permutation. Qed.

Lemma Slice_StronglySorted (xs : list A) : StronglySorted le (sort.Slice less xs).
Proof.
  set (R := fun x y : A => Is_true (negb (less y x))).
  assert (HR : forall x y, R x y <-> le x y).
  { intros x y. unfold R. rewrite <- less_le.
    destruct (less y x); simpl; split; intros; congruence || done. }
  assert (Transitive R).
  { intros x y z. rewrite !HR. apply transitivity. }
  assert (Total R).
  { intros x y. rewrite !HR. apply total, _. }
  assert (Hs : StronglySorted R (sort.Slice less xs)).
  { apply (StronglySorted_merge_sort R). }
  induction Hs as [|x l _ IH Hall]; constructor; [exact IH|].
  eapply Forall_impl; [exact Hall|]. intros y. apply HR.
Qed.
End Sorting.

Lemma Strings_elem_of (x : string) (xs : list string) : x ∈ sort.Strings xs <-> x ∈ xs.
Proof. apply Slice_elem_of. Qed.

Lemma Strings_StronglySorted (xs : list string) :
  StronglySorted string_le (sort.Strings xs).
Proof. apply Slice_StronglySorted; [done | apply _ ..]. Qed.

(** ** Cross-label flow *)

(** C1: on the five issues of the flow test, under the default
    configuration, the total number of cross-label dependencies is 4, the
    flow from "api" to "ui" is 2, and "api" is a bottleneck label. *)
Theorem cross_label_flow_example :
  let flow := ComputeCrossLabelFlow flow_test_issues DefaultLabelHealthConfig in
  LabelHealthConfig.IncludeClosedInFlow DefaultLabelHealthConfig = false
  /\ CrossLabelFlow.TotalCrossLabelDeps flow = 4
  /\ flow_between flow "api" "ui" = Some 2
  /\ "api" ∈ CrossLabelFlow.BottleneckLabels flow.
Proof.
  assert (Hb : CrossLabelFlow.BottleneckLabels
                 (ComputeCrossLabelFlow flow_test_issues DefaultLabelHealthConfig)
               = ["api"]) by (vm_compute; reflexivity).
  cbv zeta. rewrite Hb.
  split; [reflexivity|]. split; [vm_compute; reflexivity|].
  split; [vm_compute; reflexivity|]. apply list_elem_of_here.
Qed.

Lemma dependency_less_le (x y : LabelDependency.t) :
  dependency_less y x = false <-> dependency_le x y.
Proof.
  unfold dependency_less, dependency_le.
  destruct (String.eqb_spec (LabelDependency.FromLabel y) (LabelDependency.FromLabel x))
    as [HF|HF]; simpl.
  - rewrite HF, string_lt_irrefl.
    destruct (String.eqb_spec (LabelDependency.ToLabel y) (LabelDependency.ToLabel x))
      as [HT|HT]; simpl.
    + rewrite HT, string_lt_irrefl, Z.ltb_ge. intuition congruence.
    + split.
      * intros Hlt. right. split; [done|]. left.
        destruct (string_lt_trichotomy (LabelDependency.ToLabel x)
                    (LabelDependency.ToLabel y)) as [?|[?|?]]; congruence.
      * intros [?|[_ [Hlt|[? _]]]]; [done| |congruence].
        by apply string_lt_asym.
  - split.
    + intros Hlt. left.
      destruct (string_lt_trichotomy (LabelDependency.FromLabel x)
                  (LabelDependency.FromLabel y)) as [?|[?|?]]; congruence.
    + intros [Hlt|[? _]]; [by apply string_lt_asym | congruence].
Qed.

#[local] Instance dependency_le_trans : Transitive dependency_le.
Proof.
  intros a b c. unfold dependency_le.
  intros [Hab|[Hab Hab']] [Hbc|[Hbc Hbc']].
  - left. eauto using string_lt_trans.
  - left. congruence.
  - left. congruence.
  - right. split; [congruence|].
    destruct Hab' as [Hab'|[Hab' ?]], Hbc' as [Hbc'|[Hbc' ?]].
    + left. eauto using string_lt_trans.
    + left. congruence.
    + left. congruence.
    + right. split; [congruence | lia].
Qed.

#[local] Instance dependency_le_total : Total dependency_le.
Proof.
  intros a b. unfold dependency_le.
  destruct (string_lt_trichotomy (LabelDependency.FromLabel a)
              (LabelDependency.FromLabel b)) as [?|[HF|?]]; auto.
  destruct (string_lt_trichotomy (LabelDependency.ToLabel a)
              (LabelDependency.ToLabel b)) as [?|[HT|?]]; auto.
  destruct (Z.le_ge_cases (LabelDependency.IssueCount a) (LabelDependency.IssueCount b));
    [right | left]; right; auto.
Qed.

Lemma bottleneck_labels_sorted (labelList : list string) (matrix : list (list Z)) :
  StronglySorted string_le (bottleneck_labels labelList matrix).
Proof.
  unfold bottleneck_labels. destruct (out_counts labelList matrix) as [outCounts maxOut].
  apply Strings_StronglySorted.
Qed.

(** C8: in every cross-label flow the label list and the bottleneck list are
    in lexicographic order, and the dependency list is ordered by blocking
    label, then blocked label, then decreasing issue count. *)
Theorem cross_label_flow_sorted (issues : list model.Issue) (cfg : LabelHealthConfig.t) :
  let flow := ComputeCrossLabelFlow issues cfg in
  StronglySorted string_le (CrossLabelFlow.Labels flow)
  /\ StronglySorted string_le (CrossLabelFlow.BottleneckLabels flow)
  /\ StronglySorted dependency_le (CrossLabelFlow.Dependencies flow).
Proof.
  simpl. split; [apply Strings_StronglySorted|].
  split; [apply bottleneck_labels_sorted|].
  apply Slice_StronglySorted; [apply dependency_less_le | apply _ ..].
Qed.

(** ** Label extraction *)

Lemma extract_label_no_empty (issue : model.Issue) (s : extract_state) (label : string) :
  no_empty_label s -> no_empty_label (extract_label issue s label).
Proof.
  intros [Hs Hl]. unfold extract_label.
  destruct (String.eqb_spec label "") as [-> |Hne]; [done|].
  split; simpl.
  - by rewrite lookup_insert_ne.
  - rewrite elem_of_union, elem_of_singleton. intros [?|?]; [congruence | done].
Qed.

Lemma extract_issue_no_empty (s : extract_state) (issue : model.Issue) :
  no_empty_label s -> no_empty_label (extract_issue s issue).
Proof.
  intros Hs. unfold extract_issue.
  set (s1 := if (length (model.Labels issue) =? 0)%nat then _ else s).
  assert (Hs1 : no_empty_label s1) by (subst s1; by destruct (_ =? _)%nat).
  clearbody s1. revert s1 Hs1.
  induction (model.Labels issue) as [|l ls IH]; intros s1 Hs1; simpl; [done|].
  apply IH. by apply extract_label_no_empty.
Qed.

Lemma extract_loop_no_empty (issues : list model.Issue) (s : extract_state) :
  no_empty_label s -> no_empty_label (fold_left extract_issue issues s).
Proof.
  revert s. induction issues as [|i rest IH]; intros s Hs; simpl; [done|].
  apply IH. by apply extract_issue_no_empty.
Qed.

Lemma sortLabelsByCount_elem_of (stats : gmap string LabelStats.t) (l : string) :
  l ∈ sortLabelsByCount stats -> is_Some (stats !! l).
Proof.
  unfold sortLabelsByCount. intros H.
  apply list_elem_of_fmap in H as [[l' c] [-> H]].
  apply Slice_elem_of in H.
  apply list_elem_of_fmap in H as [[l'' st] [Heq H]].
  simpl in Heq. inversion Heq; subst.
  apply elem_of_map_to_list in H. eauto.
Qed.

(** The empty label is absent from every output of [ExtractLabels]. *)
Lemma ExtractLabels_no_empty (issues : list model.Issue) :
  ("" ∉ LabelExtractionResult.Labels (ExtractLabels issues))
  /\ LabelExtractionResult.Stats (ExtractLabels issues) !! "" = None
  /\ ("" ∉ LabelExtractionResult.TopLabels (ExtractLabels issues)).
Proof.
  unfold ExtractLabels. destruct (length issues =? 0)%nat; simpl.
  { split; [apply not_elem_of_nil|]. split; [apply lookup_empty | apply not_elem_of_nil]. }
  destruct (extract_loop_no_empty issues
              {| es_stats := ∅; es_labelSet := ∅; es_unlabeled := 0 |})
    as [Hs Hl].
  { split; simpl; [apply lookup_empty | apply not_elem_of_empty]. }
  split; [|split].
  - rewrite Strings_elem_of, elem_of_elements. exact Hl.
  - exact Hs.
  - intros H. apply sortLabelsByCount_elem_of in H as [? H]. congruence.
Qed.

(** ** Label co-occurrence *)

Lemma distinct_pair_elem_of (labels : list string) (a b : string) :
  distinct_pair labels a b -> a ∈ labels /\ b ∈ labels.
Proof.
  induction labels as [|l rest IH]; simpl; [done|].
  rewrite !elem_of_cons.
  intros [[-> ?]|[[-> ?]|H]]; [auto..|].
  destruct (IH H). auto.
Qed.


Lemma cooc_init_outer cooc l k :
  is_Some (cooc_init cooc l !! k) -> is_Some (cooc !! k) \/ k = l.
Proof.
  unfold cooc_init. destruct (cooc !! l) eqn:E; [auto|].
  rewrite lookup_insert. case_decide; auto.
Qed.

Lemma cooc_init_has cooc l a b : cooc_has (cooc_init cooc l) a b -> cooc_has cooc a b.
Proof.
  unfold cooc_init, cooc_has. destruct (cooc !! l) eqn:E; [auto|].
  intros [inner [H Hb]]. rewrite lookup_insert in H. case_decide.
  - inversion H; subst. rewrite lookup_empty in Hb. by destruct Hb.
  - eauto.
Qed.

Lemma cooc_incr_outer cooc l1 l2 k :
  is_Some (cooc_incr cooc l1 l2 !! k) -> is_Some (cooc !! k) \/ k = l1.
Proof.
  unfold cooc_incr. rewrite lookup_insert. case_decide; auto.
Qed.

Lemma cooc_incr_has cooc l1 l2 a b :
  cooc_has (cooc_incr cooc l1 l2) a b -> cooc_has cooc a b \/ (a = l1 /\ b = l2).
Proof.
  unfold cooc_incr, cooc_has. intros [inner [H Hb]].
  rewrite lookup_insert in H. case_decide; [|eauto].
  inversion H; subst. unfold map_incr in Hb. rewrite lookup_insert in Hb.
  case_decide; [auto|]. left.
  destruct (cooc !! a) as [m|]; simpl in Hb; [eauto|].
  rewrite lookup_empty in Hb. by destruct Hb.
Qed.

Lemma cooc_pair_outer cooc x y k :
  is_Some (cooc_pair cooc x y !! k) -> is_Some (cooc !! k) \/ k = x \/ k = y.
Proof.
  unfold cooc_pair. destruct (string_lt y x); intros H;
    apply cooc_incr_outer in H as [H|?]; auto;
    apply cooc_incr_outer in H as [H|?]; auto;
    apply cooc_init_outer in H as [H|?]; auto;
    apply cooc_init_outer in H as [H|?]; auto.
Qed.

Lemma cooc_pair_has cooc x y a b :
  cooc_has (cooc_pair cooc x y) a b ->
  cooc_has cooc a b \/ (a = x /\ b = y) \/ (a = y /\ b = x).
Proof.
  unfold cooc_pair. destruct (string_lt y x); intros H;
    apply cooc_incr_has in H as [H|?]; auto;
    apply cooc_incr_has in H as [H|?]; auto;
    do 2 apply cooc_init_has in H; auto.
Qed.

Lemma cooc_row_outer cooc l rest k :
  is_Some (fold_left (fun c l' => cooc_pair c l l') rest cooc !! k) ->
  is_Some (cooc !! k) \/ k = l \/ k ∈ rest.
Proof.
  revert cooc. induction rest as [|r rest IH]; intros cooc; simpl; [auto|].
  rewrite elem_of_cons.
  intros H. apply IH in H as [H|[-> |H]]; auto.
  apply cooc_pair_outer in H as [H|[-> | ->]]; auto.
Qed.

Lemma cooc_row_has cooc l rest a b :
  cooc_has (fold_left (fun c l' => cooc_pair c l l') rest cooc) a b ->
  cooc_has cooc a b \/ (a = l /\ b ∈ rest) \/ (b = l /\ a ∈ rest).
Proof.
  revert cooc. induction rest as [|r rest IH]; intros cooc; simpl; [auto|].
  rewrite !elem_of_cons.
  intros H. apply IH in H as [H|[[-> H]|[-> H]]]; auto.
  apply cooc_pair_has in H as [H|[[-> ->]|[-> ->]]]; auto.
Qed.

Lemma cooc_labels_outer cooc labels k :
  is_Some (cooc_labels cooc labels !! k) -> is_Some (cooc !! k) \/ k ∈ labels.
Proof.
  revert cooc. induction labels as [|l rest IH]; intros cooc; simpl; [auto|].
  rewrite elem_of_cons.
  intros H. apply IH in H as [H|H]; [|auto].
  apply cooc_row_outer in H as [H|[-> |H]]; auto.
Qed.

Lemma cooc_labels_has cooc labels a b :
  cooc_has (cooc_labels cooc labels) a b ->
  cooc_has cooc a b \/ distinct_pair labels a b.
Proof.
  revert cooc. induction labels as [|l rest IH]; intros cooc; simpl; [auto|].
  intros H. apply IH in H as [H|H]; [|auto].
  apply cooc_row_has in H as [H|[H|H]]; auto.
Qed.

(** Every outer key of the co-occurrence map is a label of some issue. *)
Lemma GetLabelCooccurrence_outer (issues : list model.Issue) (k : string) :
  is_Some (GetLabelCooccurrence issues !! k) ->
  exists iss, iss ∈ issues /\ k ∈ model.Labels iss.
Proof.
  unfold GetLabelCooccurrence.
  assert (Hgen : forall cooc,
    is_Some (fold_left (fun cooc issue => cooc_labels cooc (model.Labels issue))
               issues cooc !! k) ->
    is_Some (cooc !! k) \/ exists iss, iss ∈ issues /\ k ∈ model.Labels iss).
  { induction issues as [|i rest IH]; intros cooc; simpl; [auto|].
    intros H. apply IH in H as [H|[iss [? ?]]].
    - apply cooc_labels_outer in H as [H|H]; [auto|].
      right. exists i. split; [left|done].
    - right. exists iss. split; [by right|done]. }
  intros H. apply Hgen in H as [H|H]; [|done].
  rewrite lookup_empty in H. by destruct H.
Qed.

(** Every entry of the co-occurrence map comes from two positions of the
    label list of some issue. *)
Lemma GetLabelCooccurrence_has (issues : list model.Issue) (a b : string) :
  cooc_has (GetLabelCooccurrence issues) a b ->
  exists iss, iss ∈ issues /\ distinct_pair (model.Labels iss) a b.
Proof.
  unfold GetLabelCooccurrence.
  assert (Hgen : forall cooc,
    cooc_has (fold_left (fun cooc issue => cooc_labels cooc (model.Labels issue))
                issues cooc) a b ->
    cooc_has cooc a b \/ exists iss, iss ∈ issues /\ distinct_pair (model.Labels iss) a b).
  { induction issues as [|i rest IH]; intros cooc; simpl; [auto|].
    intros H. apply IH in H as [H|[iss [? ?]]].
    - apply cooc_labels_has in H as [H|H]; [auto|].
      right. exists i. split; [left|done].
    - right. exists iss. split; [by right|done]. }
  intros H. apply Hgen in H as [[inner [H _]]|H]; [|done].
  by rewrite lookup_empty in H.
Qed.

Lemma cooc_get_absent cooc a b : ~ cooc_has cooc a b -> cooc_get cooc a b = 0.
Proof.
  unfold cooc_has, cooc_get. intros H.
  destruct (cooc !! a) as [inner|]; simpl; [|done].
  destruct (inner !! b) eqn:E; simpl; [|done].
  exfalso. apply H. eauto.
Qed.

Lemma distinct_pair_count (labels : list string) (l : string) :
  distinct_pair labels l l -> (2 <= count_occ string_dec labels l)%nat.
Proof.
  induction labels as [|x rest IH]; simpl; [tauto|].
  intros H. destruct (string_dec x l) as [-> |Hne].
  - destruct H as [[_ H]|[[_ H]|H]].
    + apply list_elem_of_In, (count_occ_In string_dec) in H. lia.
    + apply list_elem_of_In, (count_occ_In string_dec) in H. lia.
    + apply IH in H. lia.
  - destruct H as [[? _]|[[? _]|H]]; [congruence..|]. by apply IH.
Qed.

Lemma cooc_init_keeps cooc l a b : cooc_has cooc a b -> cooc_has (cooc_init cooc l) a b.
Proof.
  unfold cooc_init, cooc_has. destruct (cooc !! l) eqn:E; [auto|].
  intros [inner [H Hb]]. exists inner. split; [|exact Hb].
  rewrite lookup_insert_ne; [exact H | congruence].
Qed.

Lemma cooc_incr_keeps cooc l1 l2 a b :
  cooc_has cooc a b -> cooc_has (cooc_incr cooc l1 l2) a b.
Proof.
  unfold cooc_incr, cooc_has. intros [inner [H Hb]].
  destruct (decide (l1 = a)) as [-> |Hne].
  - rewrite lookup_insert_eq, H. simpl. eexists. split; [reflexivity|].
    unfold map_incr. rewrite lookup_insert. case_decide; [eauto | exact Hb].
  - rewrite lookup_insert_ne by exact Hne. eauto.
Qed.

Lemma cooc_incr_adds cooc l1 l2 : cooc_has (cooc_incr cooc l1 l2) l1 l2.
Proof.
  unfold cooc_incr, cooc_has. rewrite lookup_insert_eq.
  eexists. split; [reflexivity|]. unfold map_incr. rewrite lookup_insert_eq. eauto.
Qed.

Lemma cooc_pair_keeps cooc x y a b :
  cooc_has cooc a b -> cooc_has (cooc_pair cooc x y) a b.
Proof.
  intros H. unfold cooc_pair.
  destruct (string_lt y x); do 2 apply cooc_incr_keeps; by do 2 apply cooc_init_keeps.
Qed.

Lemma cooc_pair_adds cooc x y :
  cooc_has (cooc_pair cooc x y) x y /\ cooc_has (cooc_pair cooc x y) y x.
Proof.
  unfold cooc_pair.
  destruct (string_lt y x); split;
    first [apply cooc_incr_adds | apply cooc_incr_keeps, cooc_incr_adds].
Qed.

Lemma cooc_row_keeps cooc l rest a b :
  cooc_has cooc a b -> cooc_has (fold_left (fun c l' => cooc_pair c l l') rest cooc) a b.
Proof.
  revert cooc. induction rest as [|r rest IH]; intros cooc H; simpl; [exact H|].
  by apply IH, cooc_pair_keeps.
Qed.

Lemma cooc_row_adds cooc l rest l' :
  l' ∈ rest ->
  cooc_has (fold_left (fun c l' => cooc_pair c l l') rest cooc) l l'
  /\ cooc_has (fold_left (fun c l' => cooc_pair c l l') rest cooc) l' l.
Proof.
  revert cooc. induction rest as [|r rest IH]; intros cooc; simpl.
  - intros H. by apply elem_of_nil in H.
  - rewrite elem_of_cons. intros [-> |H]; [|by apply IH].
    destruct (cooc_pair_adds cooc l r). split; by apply cooc_row_keeps.
Qed.

Lemma cooc_labels_keeps cooc labels a b :
  cooc_has cooc a b -> cooc_has (cooc_labels cooc labels) a b.
Proof.
  revert cooc. induction labels as [|l rest IH]; intros cooc H; simpl; [exact H|].
  by apply IH, cooc_row_keeps.
Qed.

Lemma cooc_labels_adds cooc labels a b :
  distinct_pair labels a b -> cooc_has (cooc_labels cooc labels) a b.
Proof.
  revert cooc. induction labels as [|l rest IH]; intros cooc; simpl; [tauto|].
  intros [[-> H]|[[-> H]|H]]; [| |by apply IH].
  - apply cooc_labels_keeps. by apply cooc_row_adds.
  - apply cooc_labels_keeps. by apply cooc_row_adds.
Qed.

(** The entries of the co-occurrence map are exactly the pairs of labels
    found at two different positions of the label list of some issue. *)
Lemma GetLabelCooccurrence_has_iff (issues : list model.Issue) (a b : string) :
  cooc_has (GetLabelCooccurrence issues) a b
  <-> exists iss, iss ∈ issues /\ distinct_pair (model.Labels iss) a b.
Proof.
  split; [apply GetLabelCooccurrence_has|].
  unfold GetLabelCooccurrence. generalize (∅ : gmap string (gmap string Z)).
  intros cooc (iss & Hin & Hp). revert cooc.
  induction issues as [|i rest IH]; intros cooc; simpl.
  - by apply elem_of_nil in Hin.
  - apply elem_of_cons in Hin as [-> |Hin]; [|by apply IH].
    assert (Hkeep : forall c,
      cooc_has c a b ->
      cooc_has (fold_left (fun cooc issue => cooc_labels cooc (model.Labels issue))
                  rest c) a b).
    { clear. induction rest as [|j rest IHr]; intros c Hc; simpl; [exact Hc|].
      by apply IHr, cooc_labels_keeps. }
    by apply Hkeep, cooc_labels_adds.
Qed.

Lemma distinct_pair_count_iff (labels : list string) (l : string) :
  distinct_pair labels l l <-> (2 <= count_occ string_dec labels l)%nat.
Proof.
  split; [apply distinct_pair_count|].
  induction labels as [|x rest IH]; simpl; [lia|].
  destruct (string_dec x l) as [-> |Hne]; intros H; [|auto].
  left. split; [reflexivity|].
  apply list_elem_of_In, (count_occ_In string_dec). lia.
Qed.

(** C2 (amended): the empty label is absent from the labels, the statistics
    and the top labels of [ExtractLabels], whatever the issues carry.
    [GetLabelCooccurrence] takes the label lists as they are: the empty
    label is neither an outer nor an inner key of its map when no issue
    carries an empty label. *)
Theorem empty_label_excluded (issues : list model.Issue) :
  ("" ∉ LabelExtractionResult.Labels (ExtractLabels issues))
  /\ LabelExtractionResult.Stats (ExtractLabels issues) !! "" = None
  /\ ("" ∉ LabelExtractionResult.TopLabels (ExtractLabels issues))
  /\ (Forall (fun iss => "" ∉ model.Labels iss) issues ->
      GetLabelCooccurrence issues !! "" = None
      /\ forall k, ~ cooc_has (GetLabelCooccurrence issues) k "").
Proof.
  destruct (ExtractLabels_no_empty issues) as (HL & HS & HT).
  do 3 (split; [assumption|]).
  intros Hall. rewrite Forall_forall in Hall. split.
  - apply eq_None_not_Some. intros H.
    apply GetLabelCooccurrence_outer in H as (iss & Hin & Hl).
    exact (Hall iss Hin Hl).
  - intros k H. apply GetLabelCooccurrence_has in H as (iss & Hin & Hp).
    apply distinct_pair_elem_of in Hp as [_ Hl].
    exact (Hall iss Hin Hl).
Qed.

Lemma empty_label_excluded_witness :
  Forall (fun iss => "" ∉ model.Labels iss) [labels_issue "bv-1" ["api"; "bug"]]
  /\ GetLabelCooccurrence [labels_issue "bv-1" ["api"; "bug"]] !! "" = None.
Proof.
  assert (H : Forall (fun iss => "" ∉ model.Labels iss)
                [labels_issue "bv-1" ["api"; "bug"]]).
  { repeat constructor. simpl. rewrite !elem_of_cons, elem_of_nil.
    intros [?|[?|[]]]; discriminate. }
  split; [exact H|].
  exact (proj1 (proj2 (proj2 (proj2
           (empty_label_excluded [labels_issue "bv-1" ["api"; "bug"]]))) H)).
Defined.

(** C2, as stated, fails: an issue labelled [""; "api"] puts the empty
    label among the outer keys of the co-occurrence map and among the inner
    keys of "api". *)
Lemma cooccurrence_keeps_empty_label :
  let cooc := GetLabelCooccurrence [labels_issue "bv-1" [""; "api"]] in
  is_Some (cooc !! "") /\ cooc_has cooc "api" "" /\ cooc_get cooc "api" "" = 1.
Proof.
  assert (Ho : GetLabelCooccurrence [labels_issue "bv-1" [""; "api"]] !! ""
               = Some {["api" := 1]}) by (vm_compute; reflexivity).
  assert (Hi : GetLabelCooccurrence [labels_issue "bv-1" [""; "api"]] !! "api"
               = Some {["" := 1]}) by (vm_compute; reflexivity).
  cbv zeta. split; [by rewrite Ho|]. split.
  - exists {["" := 1]}. split; [exact Hi|]. by rewrite lookup_singleton_eq.
  - unfold cooc_get. rewrite Hi. simpl. by rewrite lookup_singleton_eq.
Qed.

(** C3 (amended): a label that occurs at most once in the label list of
    every issue is never paired with itself: its entry [cooc[l][l]] is
    absent and reads as zero. *)
Theorem cooccurrence_no_self_pair (issues : list model.Issue) (l : string) :
  Forall (fun iss => (count_occ string_dec (model.Labels iss) l <= 1)%nat) issues ->
  ~ cooc_has (GetLabelCooccurrence issues) l l
  /\ cooc_get (GetLabelCooccurrence issues) l l = 0.
Proof.
  intros Hall. rewrite Forall_forall in Hall.
  assert (Hno : ~ cooc_has (GetLabelCooccurrence issues) l l).
  { intros H. apply GetLabelCooccurrence_has in H as (iss & Hin & Hp).
    apply distinct_pair_count in Hp. specialize (Hall iss Hin). lia. }
  split; [exact Hno | by apply cooc_get_absent].
Qed.

Lemma cooccurrence_no_self_pair_witness :
  cooc_get (GetLabelCooccurrence [labels_issue "bv-1" ["api"; "bug"]]) "api" "api" = 0.
Proof.
  apply (cooccurrence_no_self_pair [labels_issue "bv-1" ["api"; "bug"]] "api").
  repeat constructor.
Defined.

(** A label is paired with itself exactly when some issue lists it at least
    twice. *)
Lemma cooccurrence_self_pair_exactly (issues : list model.Issue) (l : string) :
  cooc_has (GetLabelCooccurrence issues) l l
  <-> Exists (fun iss => (2 <= count_occ string_dec (model.Labels iss) l)%nat) issues.
Proof.
  rewrite GetLabelCooccurrence_has_iff, Exists_exists.
  split; intros (iss & Hin & H); exists iss; split; try exact Hin;
    by apply distinct_pair_count_iff.
Qed.

(** C3, as stated, fails: an issue labelled ["api"; "api"] pairs "api" with
    itself, and both increments land on the same entry. *)
Lemma cooccurrence_self_pair :
  let cooc := GetLabelCooccurrence [labels_issue "bv-1" ["api"; "api"]] in
  cooc_has cooc "api" "api" /\ cooc_get cooc "api" "api" = 2.
Proof.
  assert (Hi : GetLabelCooccurrence [labels_issue "bv-1" ["api"; "api"]] !! "api"
               = Some {["api" := 2]}) by (vm_compute; reflexivity).
  cbv zeta. split.
  - exists {["api" := 2]}. split; [exact Hi|]. by rewrite lookup_singleton_eq.
  - unfold cooc_get. rewrite Hi. simpl. by rewrite lookup_singleton_eq.
Qed.

(** ** Doubles

    Facts about binary64 arithmetic, derived from the specification of the
    primitive operations. *)

Lemma digits2_pos_lt (m : positive) : Z.pos m < 2 ^ Z.pos (digits2_pos m).
Proof.
  induction m as [m IH|m IH|]; simpl digits2_pos;
    rewrite ?Pos2Z.inj_succ, ?Z.pow_succ_r by lia; lia.
Qed.

(** A valid finite double has a mantissa below [2^53]. *)
Lemma bounded_mantissa (m : positive) (e : Z) :
  bounded prec emax m e = true -> Z.pos m < 2 ^ 53.
Proof.
  unfold bounded, canonical_mantissa, fexp. intros H.
  apply andb_prop in H as [H _]. apply Z.eqb_eq in H.
  assert (Hd : Z.pos (digits2_pos m) <= 53) by (unfold prec in H; lia).
  eapply Z.lt_le_trans; [apply digits2_pos_lt|].
  apply Z.pow_le_mono_r; lia.
Qed.

Lemma shr_1_nonneg mrs : 0 <= shr_m mrs -> 0 <= shr_m (shr_1 mrs).
Proof. destruct mrs as [[|[p|p|]|p] r s]; simpl; lia. Qed.

Lemma iter_shr_1_nonneg (p : positive) mrs :
  0 <= shr_m mrs -> 0 <= shr_m (SpecFloat.iter_pos shr_1 p mrs).
Proof.
  revert mrs. induction p as [p IH|p IH|]; intros mrs H; simpl.
  - apply IH, IH, shr_1_nonneg, H.
  - apply IH, IH, H.
  - apply shr_1_nonneg, H.
Qed.

Lemma shr_fexp_nonneg (m e : Z) (l : location) :
  0 <= m -> 0 <= shr_m (fst (shr_fexp prec emax m e l)).
Proof.
  intros H. unfold shr_fexp, shr.
  assert (H0 : 0 <= shr_m (shr_record_of_loc m l)) by (destruct l as [|[]]; exact H).
  destruct (fexp prec emax (Zdigits2 m + e) - e); simpl; auto using iter_shr_1_nonneg.
Qed.

Lemma round_nearest_even_nonneg (m : Z) (l : location) :
  0 <= m -> 0 <= round_nearest_even m l.
Proof.
  intros H. destruct l as [|[]]; simpl; try lia. destruct (Z.even m); lia.
Qed.

Lemma binary_round_aux_sign (s : bool) (m e : Z) (l : location) :
  0 <= m ->
  match binary_round_aux prec emax s m e l with
  | S754_zero s' | S754_infinity s' | S754_finite s' _ _ => s' = s
  | S754_nan => False
  end.
Proof.
  intros H. unfold binary_round_aux.
  pose proof (shr_fexp_nonneg m e l H) as H1.
  destruct (shr_fexp prec emax m e l) as [mrs' e']. simpl in H1.
  pose proof (shr_fexp_nonneg _ e' loc_Exact
                (round_nearest_even_nonneg _ (loc_of_shr_record mrs') H1)) as H2.
  destruct (shr_fexp prec emax _ e' loc_Exact) as [mrs'' e'']. simpl in H2.
  destruct (shr_m mrs'') as [|p|p]; [reflexivity| |lia].
  destruct (e'' <=? emax - prec); reflexivity.
Qed.

Lemma binary_normalize_nonneg (z : Z) :
  0 <= z -> sf_nonneg (binary_normalize prec emax z 0 false).
Proof.
  intros H. destruct z as [|p|p]; [reflexivity| |lia].
  unfold binary_normalize, binary_round.
  destruct (shl_align p 0 _) as [mz ez].
  pose proof (binary_round_aux_sign false (Z.pos mz) ez loc_Exact ltac:(lia)) as Hs.
  unfold sf_nonneg. destruct (binary_round_aux _ _ _ _ _ _); exact Hs.
Qed.

Lemma SFmul_nonneg (x : spec_float) (m : positive) (e : Z) :
  sf_nonneg x -> sf_nonneg (SFmul prec emax x (S754_finite false m e)).
Proof.
  destruct x as [s|s| |s mx ex]; simpl; try (intros ->; reflexivity); [tauto|].
  intros ->. simpl.
  pose proof (binary_round_aux_sign false (Z.pos (mx * m)) (ex + e) loc_Exact ltac:(lia)) as Hs.
  destruct (binary_round_aux _ _ _ _ _ _); exact Hs.
Qed.

Lemma Prim2SF_10 : Prim2SF 10 = S754_finite false 5629499534213120 (-49).
Proof. vm_compute. reflexivity. Qed.

Lemma Prim2SF_100 : Prim2SF 100 = S754_finite false 7036874417766400 (-46).
Proof. vm_compute. reflexivity. Qed.

Lemma of_int_times_10_nonneg (n : Z) :
  0 <= n -> sf_nonneg (Prim2SF (float64.of_int n * 10)%float).
Proof.
  intros Hn. unfold float64.of_int.
  destruct (Z.ltb_spec n 0) as [?|_]; [lia|].
  rewrite FloatAxioms.mul_spec, FloatAxioms.of_uint63_spec, Prim2SF_10.
  apply SFmul_nonneg, binary_normalize_nonneg.
  apply Uint63.to_Z_bounded.
Qed.

Lemma to_int_small (indefinite : float -> Z) (f : float) (z : Z) :
  float64.trunc f = Some z -> 0 <= z <= 100 -> float64.to_int indefinite f = z.
Proof.
  intros Ht Hz. unfold float64.to_int. rewrite Ht.
  destruct (Z.leb_spec (- 2 ^ 63) z); [|lia].
  destruct (Z.ltb_spec z (2 ^ 63)); [reflexivity|lia].
Qed.

(** A non-negative double that is not above 100 truncates into [0, 100]. *)
Lemma trunc_upto_100 (x : float) :
  sf_nonneg (Prim2SF x) -> (100 <? x)%float = false ->
  exists z, float64.trunc x = Some z /\ 0 <= z <= 100.
Proof.
  intros Hs Hlt. rewrite FloatAxioms.ltb_spec, Prim2SF_100 in Hlt.
  pose proof (Prim2SF_valid x) as Hv.
  unfold float64.trunc.
  destruct (Prim2SF x) as [s|s| |s m e]; simpl in Hs.
  - exists 0. split; [reflexivity | lia].
  - subst s. discriminate Hlt.
  - contradiction.
  - subst s. simpl in Hv. apply bounded_mantissa in Hv.
    unfold SFltb, SFcompare in Hlt.
    destruct (Z.compare_spec (-46) e) as [He|He|He]; [| discriminate |].
    + subst e. change (0 <=? -46) with false. cbv iota.
      eexists. split; [reflexivity|].
      assert (Hm : Z.pos m <= 7036874417766400).
      { change (Pos.compare_cont Eq 7036874417766400 m)
          with (7036874417766400 ?= m)%positive in Hlt.
        destruct (Pos.compare_spec 7036874417766400 m) as [Hc|Hc|Hc].
        - subst m. apply Z.le_refl.
        - discriminate Hlt.
        - apply Pos2Z.pos_lt_pos in Hc. apply Z.lt_le_incl, Hc. }
      split; [apply Z.div_pos; lia|].
      apply Z.div_le_upper_bound; lia.
    + destruct (Z.leb_spec 0 e) as [?|_]; [lia|].
      eexists. split; [reflexivity|].
      assert (Hp : 2 ^ 47 <= 2 ^ (- e)) by (apply Z.pow_le_mono_r; lia).
      split; [apply Z.div_pos; lia|].
      apply Z.div_le_upper_bound; [lia|]. nia.
Qed.

Lemma velocity_base_range (indefinite : float -> Z) (n : Z) :
  0 < n ->
  0 <= float64.to_int indefinite (minFloat 100 (float64.of_int n * 10)%float) <= 100.
Proof.
  intros Hn. unfold minFloat.
  destruct (100 <? float64.of_int n * 10)%float eqn:E.
  - rewrite (to_int_small indefinite 100 100); [lia | vm_compute; reflexivity | lia].
  - destruct (trunc_upto_100 _ (of_int_times_10_nonneg n ltac:(lia)) E) as (z & Hz & Hr).
    rewrite (to_int_small indefinite _ z Hz Hr). exact Hr.
Qed.

(** ** Scores *)

Lemma clampScore_clamp (v : Z) : clampScore v = clamp_0_100 v.
Proof.
  unfold clampScore, clamp_0_100.
  destruct (Z.ltb_spec v 0); [lia|]. destruct (Z.ltb_spec 100 v); lia.
Qed.

Lemma clampScore_is_score (v : Z) : is_score (clampScore v).
Proof. rewrite clampScore_clamp. unfold clamp_0_100, is_score. lia. Qed.

Section EngineProperties.
Variable indefinite : float -> Z.
Variable Analyze : list model.Issue -> GraphStats.t.
Variable findMax : gmap string float -> float.

Lemma VelocityScore_is_score (issues : list model.Issue) (now : time.Time) :
  is_score (VelocityMetrics.VelocityScore (ComputeVelocityMetrics indefinite issues now)).
Proof.
  unfold ComputeVelocityMetrics.
  set (s := fold_left (velocity_issue now) issues velocity_init).
  destruct (velocity_trend (vs_currentWeek s) (vs_prevWeek s)) as [tp dir].
  cbv zeta. simpl VelocityMetrics.VelocityScore.
  set (base := if 0 <? vs_closed30 s then _ else 0).
  assert (Hbase : is_score base).
  { subst base. destruct (Z.ltb_spec 0 (vs_closed30 s)) as [Hpos|_].
    - apply velocity_base_range, Hpos.
    - unfold is_score. lia. }
  clearbody base.
  destruct (String.eqb dir "improving" && (base <? 100));
    [apply clampScore_is_score | exact Hbase].
Qed.

Lemma FreshnessScore_is_score (issues : list model.Issue) (now : time.Time)
    (staleDays : Z) :
  is_score (FreshnessMetrics.FreshnessScore
              (ComputeFreshnessMetrics indefinite issues now staleDays)).
Proof. apply clampScore_is_score. Qed.

Lemma ComputeCompositeHealth_is_score (velocity freshness flow criticality : Z)
    (cfg : LabelHealthConfig.t) :
  is_score (ComputeCompositeHealth indefinite velocity freshness flow criticality cfg).
Proof. apply clampScore_is_score. Qed.

(** The component scores and the health of a label, whether the label
    has member issues or not. *)
Lemma LabelHealth_is_score (label : string) (issues : list model.Issue)
    (cfg : LabelHealthConfig.t) (now : time.Time) (stats : option GraphStats.t) :
  let h := ComputeLabelHealthForLabel indefinite Analyze findMax label issues cfg now stats in
  is_score (VelocityMetrics.VelocityScore (LabelHealth.Velocity h))
  /\ is_score (FreshnessMetrics.FreshnessScore (LabelHealth.Freshness h))
  /\ is_score (FlowMetrics.FlowScore (LabelHealth.Flow h))
  /\ is_score (CriticalityMetrics.CriticalityScore (LabelHealth.Criticality h))
  /\ is_score (LabelHealth.Health h).
Proof.
  unfold ComputeLabelHealthForLabel.
  destruct (Z.of_nat (length (labeled_issues label issues)) =? 0).
  - simpl. unfold is_score. repeat split; lia.
  - destruct (fold_left count_status _ _) as [[closed open] blocked]. simpl.
    split; [apply VelocityScore_is_score|].
    split; [apply FreshnessScore_is_score|].
    split; [apply clampScore_is_score|].
    split; [apply clampScore_is_score|].
    apply ComputeCompositeHealth_is_score.
Qed.

(** C4: every score of the engine lies between 0 and 100: the velocity
    and freshness scores, the flow and criticality scores set by
    [ComputeLabelHealthForLabel], and the composite health, for all
    issues, instants, thresholds and configurations, weights included. *)
Theorem scores_in_range (issues : list model.Issue) (now : time.Time)
    (staleDays : Z) (label : string) (cfg : LabelHealthConfig.t)
    (stats : option GraphStats.t) (velocity freshness flow criticality : Z) :
  let h := ComputeLabelHealthForLabel indefinite Analyze findMax label issues cfg now stats in
  is_score (VelocityMetrics.VelocityScore (ComputeVelocityMetrics indefinite issues now))
  /\ is_score (FreshnessMetrics.FreshnessScore
                 (ComputeFreshnessMetrics indefinite issues now staleDays))
  /\ is_score (FlowMetrics.FlowScore (LabelHealth.Flow h))
  /\ is_score (CriticalityMetrics.CriticalityScore (LabelHealth.Criticality h))
  /\ is_score (ComputeCompositeHealth indefinite velocity freshness flow criticality cfg)
  /\ is_score (LabelHealth.Health h).
Proof.
  intros h.
  destruct (LabelHealth_is_score label issues cfg now stats) as (_ & _ & Hf & Hc & Hh).
  split; [apply VelocityScore_is_score|].
  split; [apply FreshnessScore_is_score|].
  split; [exact Hf|]. split; [exact Hc|].
  split; [apply ComputeCompositeHealth_is_score | exact Hh].
Qed.

(** *** Composite health *)

(** C5: with the default weights, equal components [v] give [v] for
    0, 50 and 100, and (100, 0, 100, 0) gives 50; for every configuration
    the composite is the rounded weighted sum clamped to [0, 100], the
    weights being used as given. *)
Theorem composite_health_spec_correct :
  (LabelHealthConfig.VelocityWeight DefaultLabelHealthConfig = 0.25%float
   /\ LabelHealthConfig.FreshnessWeight DefaultLabelHealthConfig = 0.25%float
   /\ LabelHealthConfig.FlowWeight DefaultLabelHealthConfig = 0.25%float
   /\ LabelHealthConfig.CriticalityWeight DefaultLabelHealthConfig = 0.25%float)
  /\ ComputeCompositeHealth indefinite 0 0 0 0 DefaultLabelHealthConfig = 0
  /\ ComputeCompositeHealth indefinite 50 50 50 50 DefaultLabelHealthConfig = 50
  /\ ComputeCompositeHealth indefinite 100 100 100 100 DefaultLabelHealthConfig = 100
  /\ ComputeCompositeHealth indefinite 100 0 100 0 DefaultLabelHealthConfig = 50
  /\ forall velocity freshness flow criticality cfg,
       ComputeCompositeHealth indefinite velocity freshness flow criticality cfg
       = composite_health_spec indefinite velocity freshness flow criticality cfg.
Proof.
  split; [repeat split|].
  split; [vm_compute; reflexivity|].
  split; [vm_compute; reflexivity|].
  split; [vm_compute; reflexivity|].
  split; [vm_compute; reflexivity|].
  intros. unfold ComputeCompositeHealth, composite_health_spec, round_half_up.
  apply clampScore_clamp.
Qed.

(** With the default weights, equal components give back their value, for
    every score. *)
Lemma composite_health_equal_components (v : Z) :
  is_score v -> ComputeCompositeHealth indefinite v v v v DefaultLabelHealthConfig = v.
Proof.
  intros [Hlo Hhi].
  assert (Hall : forallb
            (fun n => ComputeCompositeHealth indefinite (Z.of_nat n) (Z.of_nat n)
                        (Z.of_nat n) (Z.of_nat n) DefaultLabelHealthConfig
                      =? Z.of_nat n)
            (seq 0 101) = true) by (vm_compute; reflexivity).
  rewrite forallb_forall in Hall.
  specialize (Hall (Z.to_nat v)). rewrite Z2Nat.id in Hall by exact Hlo.
  apply Z.eqb_eq, Hall, in_seq. lia.
Qed.

(** *** Velocity trend *)

Lemma closed_when_cons (p : time.Time -> bool) (iss : model.Issue)
    (rest : list model.Issue) :
  closed_when p (iss :: rest)
  = (if match model.ClosedAt iss with Some t => p t | None => false end
     then 1 else 0) + closed_when p rest.
Proof.
  unfold closed_when. simpl.
  destruct (match model.ClosedAt iss with Some t => p t | None => false end);
    simpl length; lia.
Qed.

(** The loop counts the closures of the two weeks. *)
Lemma velocity_loop_weeks (now : time.Time) (issues : list model.Issue)
    (s : velocity_state) :
  vs_currentWeek (fold_left (velocity_issue now) issues s)
    = vs_currentWeek s + current_week now issues
  /\ vs_prevWeek (fold_left (velocity_issue now) issues s)
    = vs_prevWeek s + previous_week now issues.
Proof.
  revert s. induction issues as [|iss rest IH]; intros s.
  - unfold current_week, previous_week, closed_when. simpl. lia.
  - simpl fold_left. destruct (IH (velocity_issue now s iss)) as [IHc IHp].
    rewrite IHc, IHp. unfold current_week, previous_week.
    rewrite !closed_when_cons. unfold velocity_issue.
    destruct (model.ClosedAt iss) as [closedAt|]; simpl; [|lia].
    unfold time.After, time.Before.
    destruct (Z.ltb_spec (time.Add now (- 14 * day)) closedAt);
      destruct (Z.ltb_spec closedAt (time.Add now (- 7 * day)));
      destruct (Z.ltb_spec (time.Add now (- 7 * day)) closedAt);
      simpl; lia.
Qed.

Lemma velocity_trend_fields (issues : list model.Issue) (now : time.Time) :
  (VelocityMetrics.TrendPercent (ComputeVelocityMetrics indefinite issues now),
   VelocityMetrics.TrendDirection (ComputeVelocityMetrics indefinite issues now))
  = velocity_trend (current_week now issues) (previous_week now issues).
Proof.
  unfold ComputeVelocityMetrics.
  destruct (velocity_loop_weeks now issues velocity_init) as [Hc Hp].
  simpl in Hc, Hp. rewrite Hc, Hp.
  destruct (velocity_trend _ _) as [tp dir]. reflexivity.
Qed.

(** A double above 10 is not below -10. *)
Lemma float_above_10_not_below (x : float) :
  (10 <? x)%float = true -> (x <? -10)%float = false.
Proof.
  rewrite !FloatAxioms.ltb_spec, Prim2SF_10.
  replace (Prim2SF (-10)) with (S754_finite true 5629499534213120 (-49))
    by (vm_compute; reflexivity).
  destruct (Prim2SF x) as [s|s| |s m e].
  - destruct s; simpl; discriminate.
  - destruct s; simpl; [discriminate | reflexivity].
  - simpl. discriminate.
  - destruct s; unfold SFltb, SFcompare; [discriminate | reflexivity].
Qed.

Lemma velocity_trend_direction (currentWeek prevWeek : Z) :
  (snd (velocity_trend currentWeek prevWeek) = "improving"
   <-> (10 <? fst (velocity_trend currentWeek prevWeek))%float = true)
  /\ (snd (velocity_trend currentWeek prevWeek) = "declining"
      <-> (fst (velocity_trend currentWeek prevWeek) <? -10)%float = true)
  /\ (snd (velocity_trend currentWeek prevWeek) = "stable"
      <-> (10 <? fst (velocity_trend currentWeek prevWeek))%float = false
          /\ (fst (velocity_trend currentWeek prevWeek) <? -10)%float = false).
Proof.
  unfold velocity_trend.
  destruct (0 <? prevWeek); [|destruct (0 <? currentWeek)].
  - simpl fst. simpl snd.
    set (tp := (float64.of_int (currentWeek - prevWeek) / float64.of_int prevWeek * 100)%float).
    clearbody tp.
    destruct (10 <? tp)%float eqn:Hup.
    + rewrite (float_above_10_not_below tp Hup).
      repeat split; intros; try done; try (destruct_and?; done).
    + destruct (tp <? -10)%float eqn:Hdown;
        repeat split; intros; try done; try (destruct_and?; done).
  - simpl fst. simpl snd.
    replace (10 <? 100)%float with true by (vm_compute; reflexivity).
    replace (100 <? -10)%float with false by (vm_compute; reflexivity).
    repeat split; intros; try done; try (destruct_and?; done).
  - simpl fst. simpl snd.
    replace (10 <? 0)%float with false by (vm_compute; reflexivity).
    replace (0 <? -10)%float with false by (vm_compute; reflexivity).
    repeat split; intros; try done; try (destruct_and?; done).
Qed.

(** C6: with [current] the closures later than seven days before [now]
    and [previous] those strictly between fourteen and seven days before
    [now], the trend percentage is [(current - previous) / previous * 100]
    when [previous > 0]; without previous closures the trend is
    "improving" at 100 when [current > 0] and "stable" at 0 otherwise; the
    direction is "improving" exactly above 10, "declining" exactly below
    -10 and "stable" otherwise.  Five closures against two are
    "improving" with a positive percentage, one against five "declining"
    with a negative one. *)
Theorem velocity_trend_spec (issues : list model.Issue) (now : time.Time) :
  let v := ComputeVelocityMetrics indefinite issues now in
  let current := current_week now issues in
  let previous := previous_week now issues in
  let percent := VelocityMetrics.TrendPercent v in
  let direction := VelocityMetrics.TrendDirection v in
  (0 < previous ->
     percent = (float64.of_int (current - previous) / float64.of_int previous * 100)%float)
  /\ (previous = 0 -> 0 < current -> direction = "improving" /\ percent = 100%float)
  /\ (previous = 0 -> current = 0 -> direction = "stable" /\ percent = 0%float)
  /\ (direction = "improving" <-> (10 <? percent)%float = true)
  /\ (direction = "declining" <-> (percent <? -10)%float = true)
  /\ (direction = "stable"
      <-> (10 <? percent)%float = false /\ (percent <? -10)%float = false)
  /\ (current = 5 -> previous = 2 ->
        direction = "improving" /\ (0 <? percent)%float = true)
  /\ (current = 1 -> previous = 5 ->
        direction = "declining" /\ (percent <? 0)%float = true).
Proof.
  intros v current previous percent direction.
  pose proof (velocity_trend_fields issues now) as Hf.
  fold v current previous in Hf. fold percent direction in Hf.
  assert (Hp : percent = fst (velocity_trend current previous)) by (by rewrite <- Hf).
  assert (Hd : direction = snd (velocity_trend current previous)) by (by rewrite <- Hf).
  clearbody percent direction current previous. clear Hf v. subst percent direction.
  split; [|split; [|split]].
  - intros Hpos. unfold velocity_trend.
    destruct (Z.ltb_spec 0 previous); [reflexivity | lia].
  - intros -> Hpos. unfold velocity_trend. simpl.
    destruct (Z.ltb_spec 0 current); [done | lia].
  - intros -> ->. done.
  - destruct (velocity_trend_direction current previous) as (Hi & Hd & Hs).
    split; [exact Hi|]. split; [exact Hd|]. split; [exact Hs|].
    split; intros -> ->; vm_compute; done.
Qed.

(** *** Freshness *)

(** The freshness score of a single issue, by cases on whether the issue
    has an update time. *)
Lemma freshness_single (iss : model.Issue) (now : time.Time) :
  FreshnessMetrics.FreshnessScore (ComputeFreshnessMetrics indefinite [iss] now 14)
  = if time.IsZero (model.UpdatedAt iss)
    then clampScore (float64.to_int indefinite
           (maxFloat 0 (100 - 0 / (float64.of_int 14 * 2) * 100)%float))
    else clampScore (float64.to_int indefinite
           (maxFloat 0
              (100 - (0 + days_since now (model.UpdatedAt iss)) / float64.of_int 1
                     / (float64.of_int 14 * 2) * 100)%float)).
Proof.
  unfold ComputeFreshnessMetrics. simpl fold_left.
  unfold freshness_issue.
  destruct (time.IsZero (model.UpdatedAt iss)); reflexivity.
Qed.

Lemma Sub_Add_neg (now : time.Time) (d : time.Duration) :
  0 <= d <= time.maxDuration -> time.Sub now (time.Add now (- d)) = d.
Proof. unfold time.Sub, time.Add, time.minDuration, time.maxDuration. lia. Qed.

(** C7: the freshness score is [100 - avg / (2 * t) * 100] cut at zero,
    truncated to an integer and clamped to [0, 100], where [avg] is the
    reported mean number of days since the last update and [t] the stale
    threshold, 14 when the argument is not positive.  With [t = 14] a
    single issue updated one hour before [now] scores at least 90, and
    one updated sixty days before [now] scores 0. *)
Theorem freshness_score_spec (issues : list model.Issue) (now : time.Time)
    (staleDays : Z) :
  let f := ComputeFreshnessMetrics indefinite issues now staleDays in
  let t := if staleDays <=? 0 then 14 else staleDays in
  FreshnessMetrics.StaleThresholdDays f = t
  /\ FreshnessMetrics.FreshnessScore f
     = clamp_0_100
         (float64.to_int indefinite
            (maxFloat 0
               (100 - FreshnessMetrics.AvgDaysSinceUpdate f
                      / (float64.of_int t * 2) * 100)%float))
  /\ (forall iss,
        model.UpdatedAt iss = time.Add now (- time.Hour) ->
        90 <= FreshnessMetrics.FreshnessScore
                (ComputeFreshnessMetrics indefinite [iss] now 14))
  /\ (forall iss,
        model.UpdatedAt iss = time.Add now (- (60 * day)) ->
        time.IsZero (model.UpdatedAt iss) = false ->
        FreshnessMetrics.FreshnessScore
          (ComputeFreshnessMetrics indefinite [iss] now 14) = 0).
Proof.
  split; [reflexivity|]. split; [apply clampScore_clamp|]. split.
  - intros iss Hu. rewrite freshness_single.
    destruct (time.IsZero (model.UpdatedAt iss)).
    + vm_compute. discriminate.
    + unfold days_since. rewrite Hu, Sub_Add_neg by (vm_compute; split; discriminate).
      vm_compute. discriminate.
  - intros iss Hu Hz. rewrite freshness_single, Hz.
    unfold days_since. rewrite Hu, Sub_Add_neg by (vm_compute; split; discriminate).
    vm_compute. reflexivity.
Qed.

(** The score decays linearly with the age of the last update and reaches
    zero at twice the threshold. *)
Lemma freshness_linear_decay :
  let score days :=
    FreshnessMetrics.FreshnessScore
      (ComputeFreshnessMetrics indefinite
         [updated_issue "1" (time.Add test_now (- (days * day)))] test_now 14) in
  score 0 = 100 /\ score 7 = 75 /\ score 14 = 50 /\ score 21 = 25 /\ score 28 = 0.
Proof. cbv zeta. repeat split; vm_compute; reflexivity. Qed.

(** *** Status counters of a label *)

Lemma status_count_cons (p : string -> bool) (iss : model.Issue)
    (rest : list model.Issue) :
  status_count p (iss :: rest)
  = (if p (model.Status iss) then 1 else 0) + status_count p rest.
Proof.
  unfold status_count. simpl.
  destruct (p (model.Status iss)); simpl length; lia.
Qed.

(** The status switch adds an issue to exactly one counter. *)
Lemma count_status_step (iss : model.Issue) (closed open blocked : Z) :
  count_status (closed, open, blocked) iss
  = (closed + (if is_closed (model.Status iss) then 1 else 0),
     open + (if is_open_like (model.Status iss) then 1 else 0),
     blocked + (if is_blocked (model.Status iss) then 1 else 0)).
Proof.
  unfold count_status, is_open_like, is_closed, is_blocked.
  destruct (String.eqb_spec (model.Status iss) model.StatusClosed) as [Hc|Hc].
  { rewrite Hc. simpl. f_equal; [f_equal|]; lia. }
  destruct (String.eqb_spec (model.Status iss) model.StatusInProgress) as [Hp|Hp].
  { rewrite Hp. simpl. f_equal; [f_equal|]; lia. }
  destruct (String.eqb_spec (model.Status iss) model.StatusBlocked) as [Hb|Hb];
    simpl; f_equal; try f_equal; lia.
Qed.

Lemma count_status_loop (labeled : list model.Issue) (closed open blocked : Z) :
  fold_left count_status labeled (closed, open, blocked)
  = (closed + status_count is_closed labeled,
     open + status_count is_open_like labeled,
     blocked + status_count is_blocked labeled).
Proof.
  revert closed open blocked.
  induction labeled as [|iss rest IH]; intros closed open blocked.
  - unfold status_count. simpl. f_equal; [f_equal|]; lia.
  - change (fold_left count_status (iss :: rest) (closed, open, blocked))
      with (fold_left count_status rest (count_status (closed, open, blocked) iss)).
    rewrite count_status_step, IH, !status_count_cons.
    f_equal; [f_equal|]; lia.
Qed.

Lemma status_exclusive (st : string) :
  (if is_open_like st then 1 else 0) + (if is_closed st then 1 else 0)
  + (if is_blocked st then 1 else 0) = 1.
Proof.
  unfold is_open_like.
  destruct (is_closed st) eqn:Hc; destruct (is_blocked st) eqn:Hb; simpl; try lia.
  unfold is_closed, is_blocked in Hc, Hb.
  apply String.eqb_eq in Hc, Hb. rewrite Hc in Hb. discriminate.
Qed.

Lemma status_count_partition (issues : list model.Issue) :
  status_count is_open_like issues + status_count is_closed issues
  + status_count is_blocked issues = Z.of_nat (length issues).
Proof.
  induction issues as [|iss rest IH]; [reflexivity|].
  rewrite !status_count_cons.
  replace (Z.of_nat (length (iss :: rest))) with (1 + Z.of_nat (length rest))
    by (simpl length; lia).
  pose proof (status_exclusive (model.Status iss)). lia.
Qed.

(** C10: in the health of a label the issue count is the number of member
    issues, the closed counter counts the closed members, the blocked
    counter the blocked ones and the open counter all others (open, in
    progress or of any other status); the three counters add up to the
    issue count. *)
Theorem label_health_counts (label : string) (issues : list model.Issue)
    (cfg : LabelHealthConfig.t) (now : time.Time) (stats : option GraphStats.t) :
  let h := ComputeLabelHealthForLabel indefinite Analyze findMax label issues cfg now stats in
  let members := labeled_issues label issues in
  LabelHealth.IssueCount h = Z.of_nat (length members)
  /\ LabelHealth.ClosedCount h = status_count is_closed members
  /\ LabelHealth.Blocked h = status_count is_blocked members
  /\ LabelHealth.OpenCount h = status_count is_open_like members
  /\ LabelHealth.OpenCount h + LabelHealth.ClosedCount h + LabelHealth.Blocked h
     = LabelHealth.IssueCount h.
Proof.
  intros h members.
  assert (H : LabelHealth.IssueCount h = Z.of_nat (length members)
              /\ LabelHealth.ClosedCount h = status_count is_closed members
              /\ LabelHealth.Blocked h = status_count is_blocked members
              /\ LabelHealth.OpenCount h = status_count is_open_like members).
  { subst h. unfold ComputeLabelHealthForLabel. fold members.
    destruct (Z.eqb_spec (Z.of_nat (length members)) 0) as [Hz|Hz].
    - assert (members = []) as -> by (destruct members; [done | simpl in Hz; lia]).
      repeat split.
    - rewrite count_status_loop. simpl. repeat split. }
  destruct H as (Hi & Hc & Hb & Ho). repeat split; try assumption.
  rewrite Hi, Hc, Hb, Ho. apply status_count_partition.
Qed.

(** *** Health of all labels *)

Lemma needs_attention_levelb_spec (level : string) :
  needs_attention_levelb level = true <-> needs_attention_level level.
Proof.
  unfold needs_attention_levelb, needs_attention_level.
  rewrite orb_true_iff, !String.eqb_eq. reflexivity.
Qed.

Lemma HealthLevelFromScore_cases (score : Z) :
  HealthLevelFromScore score = HealthLevelHealthy
  \/ HealthLevelFromScore score = HealthLevelWarning
  \/ HealthLevelFromScore score = HealthLevelCritical.
Proof.
  unfold HealthLevelFromScore.
  destruct (HealthyThreshold <=? score); [auto|].
  destruct (WarningThreshold <=? score); auto.
Qed.

Lemma label_health_level_cases (label : string) (issues : list model.Issue)
    (cfg : LabelHealthConfig.t) (now : time.Time) (stats : option GraphStats.t) :
  let h := ComputeLabelHealthForLabel indefinite Analyze findMax label issues cfg now stats in
  LabelHealth.Label h = label
  /\ (LabelHealth.HealthLevel h = HealthLevelHealthy
      \/ LabelHealth.HealthLevel h = HealthLevelWarning
      \/ LabelHealth.HealthLevel h = HealthLevelCritical).
Proof.
  unfold ComputeLabelHealthForLabel.
  destruct (Z.of_nat (length (labeled_issues label issues)) =? 0).
  - simpl. auto.
  - destruct (fold_left count_status _ _) as [[closed open] blocked]. simpl.
    split; [reflexivity | apply HealthLevelFromScore_cases].
Qed.

(** What the loop over the sorted labels has built after [labels]. *)
Lemma all_health_loop (issues : list model.Issue) (cfg : LabelHealthConfig.t)
    (now : time.Time) (fullStats : GraphStats.t) (labels : list string)
    (r0 : LabelAnalysisResult.t) :
  let health l :=
    ComputeLabelHealthForLabel indefinite Analyze findMax l issues cfg now (Some fullStats) in
  let r := fold_left (all_health_label indefinite Analyze findMax issues cfg now fullStats)
             labels r0 in
  LabelAnalysisResult.Labels r
    = (LabelAnalysisResult.Labels r0 ++ (health <$> labels))%list
  /\ LabelAnalysisResult.AttentionNeeded r
     = (LabelAnalysisResult.AttentionNeeded r0
        ++ List.filter
             (fun l => needs_attention_levelb (LabelHealth.HealthLevel (health l)))
             labels)%list
  /\ LabelAnalysisResult.HealthyCount r + LabelAnalysisResult.WarningCount r
     + LabelAnalysisResult.CriticalCount r
     = LabelAnalysisResult.HealthyCount r0 + LabelAnalysisResult.WarningCount r0
       + LabelAnalysisResult.CriticalCount r0 + Z.of_nat (length labels)
  /\ LabelAnalysisResult.TotalLabels r = LabelAnalysisResult.TotalLabels r0.
Proof.
  intros health. revert r0.
  induction labels as [|l rest IH]; intros r0.
  - simpl. rewrite !app_nil_r. repeat split; lia.
  - simpl fold_left.
    destruct (IH (all_health_label indefinite Analyze findMax issues cfg now fullStats r0 l))
      as (HL & HA & HC & HT).
    cbv zeta. rewrite HL, HA, HC, HT. clear IH HL HA HC HT.
    unfold all_health_label. fold (health l).
    destruct (label_health_level_cases l issues cfg now (Some fullStats)) as [_ Hlevel].
    fold (health l) in Hlevel.
    simpl. rewrite <- !app_assoc. unfold needs_attention_levelb.
    replace (Z.of_nat (S (length rest))) with (1 + Z.of_nat (length rest)) by lia.
    destruct Hlevel as [-> |[-> | ->]]; simpl; repeat split; try lia.
    all: by rewrite <- app_assoc.
Qed.

Lemma ExtractLabels_LabelCount (issues : list model.Issue) :
  LabelExtractionResult.LabelCount (ExtractLabels issues)
  = Z.of_nat (length (LabelExtractionResult.Labels (ExtractLabels issues))).
Proof. unfold ExtractLabels. destruct (length issues =? 0)%nat; reflexivity. Qed.

Lemma StronglySorted_filter {A} (R : relation A) (p : A -> bool) (l : list A) :
  StronglySorted R l -> StronglySorted R (List.filter p l).
Proof.
  induction 1 as [|x l _ IH Hall]; simpl; [constructor|].
  destruct (p x); [|exact IH].
  constructor; [exact IH|].
  rewrite List.Forall_forall in *. intros y Hy.
  apply filter_In in Hy as [Hy _]. auto.
Qed.

(** C9: in the result of [ComputeAllLabelHealth] the healthy, warning and
    critical counts add up to the number of labels, and the attention
    list holds exactly the labels whose health level is warning or
    critical, in lexicographic order. *)
Theorem all_label_health_counts (issues : list model.Issue)
    (cfg : LabelHealthConfig.t) (now : time.Time) :
  let r := ComputeAllLabelHealth indefinite Analyze findMax issues cfg now in
  LabelAnalysisResult.HealthyCount r + LabelAnalysisResult.WarningCount r
  + LabelAnalysisResult.CriticalCount r = LabelAnalysisResult.TotalLabels r
  /\ (forall l,
        l ∈ LabelAnalysisResult.AttentionNeeded r
        <-> exists h, h ∈ LabelAnalysisResult.Labels r
                      /\ LabelHealth.Label h = l
                      /\ needs_attention_level (LabelHealth.HealthLevel h))
  /\ StronglySorted string_le (LabelAnalysisResult.AttentionNeeded r).
Proof.
  unfold ComputeAllLabelHealth. cbv zeta.
  set (sorted := sort.Strings (LabelExtractionResult.Labels (ExtractLabels issues))).
  set (r0 := {| LabelAnalysisResult.GeneratedAt := now |}).
  destruct (all_health_loop issues cfg now (Analyze issues) sorted r0)
    as (HL & HA & HC & HT).
  simpl. rewrite HL, HA, HC, HT. clear HL HA HC HT. simpl.
  set (health l := ComputeLabelHealthForLabel indefinite Analyze findMax l issues cfg
                     now (Some (Analyze issues))).
  split; [|split].
  - rewrite ExtractLabels_LabelCount. subst sorted.
    rewrite (Permutation_length (Slice_Permutation string_lt _)). lia.
  - intros l. rewrite list_elem_of_In, filter_In, <- list_elem_of_In.
    rewrite needs_attention_levelb_spec. split.
    + intros [Hin Hlevel]. exists (health l). split; [|split].
      * apply list_elem_of_fmap. eauto.
      * apply label_health_level_cases.
      * exact Hlevel.
    + intros (h & Hin & Hlabel & Hlevel).
      apply list_elem_of_fmap in Hin as (l' & -> & Hin).
      assert (l' = l) as ->.
      { rewrite <- Hlabel. symmetry. apply label_health_level_cases. }
      auto.
  - apply StronglySorted_filter, Strings_StronglySorted.
Qed.
End EngineProperties.

(** ** The properties at concrete inputs

    The platform returns the smallest [int] for a double without an [int]
    value; the examples never reach that case. *)

Lemma velocity_trend_spec_witness :
  (VelocityMetrics.TrendDirection
     (ComputeVelocityMetrics (fun _ => - 2 ^ 63) (improving_test_issues test_now) test_now)
   = "improving")
  /\ (VelocityMetrics.TrendDirection
        (ComputeVelocityMetrics (fun _ => - 2 ^ 63) (declining_test_issues test_now) test_now)
      = "declining")
  /\ (VelocityMetrics.TrendPercent
        (ComputeVelocityMetrics (fun _ => - 2 ^ 63) [closed_days_ago test_now "cur-1" 1]
           test_now)
      = 100%float)
  /\ (VelocityMetrics.TrendPercent
        (ComputeVelocityMetrics (fun _ => - 2 ^ 63) [] test_now)
      = 0%float).
Proof.
  split; [|split; [|split]].
  - assert (Hc : current_week test_now (improving_test_issues test_now) = 5)
      by (vm_compute; reflexivity).
    assert (Hp : previous_week test_now (improving_test_issues test_now) = 2)
      by (vm_compute; reflexivity).
    exact (proj1 (proj1 (proj2 (proj2 (proj2 (proj2 (proj2 (proj2
             (velocity_trend_spec (fun _ => - 2 ^ 63)
                (improving_test_issues test_now) test_now))))))) Hc Hp)).
  - assert (Hc : current_week test_now (declining_test_issues test_now) = 1)
      by (vm_compute; reflexivity).
    assert (Hp : previous_week test_now (declining_test_issues test_now) = 5)
      by (vm_compute; reflexivity).
    exact (proj1 (proj2 (proj2 (proj2 (proj2 (proj2 (proj2 (proj2
             (velocity_trend_spec (fun _ => - 2 ^ 63)
                (declining_test_issues test_now) test_now))))))) Hc Hp)).
  - assert (Hc : 0 < current_week test_now [closed_days_ago test_now "cur-1" 1])
      by (vm_compute; reflexivity).
    assert (Hp : previous_week test_now [closed_days_ago test_now "cur-1" 1] = 0)
      by (vm_compute; reflexivity).
    exact (proj2 (proj1 (proj2
             (velocity_trend_spec (fun _ => - 2 ^ 63)
                [closed_days_ago test_now "cur-1" 1] test_now)) Hp Hc)).
  - exact (proj2 (proj1 (proj2 (proj2
             (velocity_trend_spec (fun _ => - 2 ^ 63) [] test_now)))
             eq_refl eq_refl)).
Defined.

Lemma freshness_score_spec_witness :
  90 <= FreshnessMetrics.FreshnessScore
          (ComputeFreshnessMetrics (fun _ => - 2 ^ 63)
             [updated_issue "1" (time.Add test_now (- time.Hour))] test_now 14)
  /\ FreshnessMetrics.FreshnessScore
       (ComputeFreshnessMetrics (fun _ => - 2 ^ 63)
          [updated_issue "1" (time.Add test_now (- (60 * day)))] test_now 14) = 0.
Proof.
  split.
  - exact (proj1 (proj2 (proj2
             (freshness_score_spec (fun _ => - 2 ^ 63) [] test_now 14)))
             (updated_issue "1" (time.Add test_now (- time.Hour))) eq_refl).
  - exact (proj2 (proj2 (proj2
             (freshness_score_spec (fun _ => - 2 ^ 63) [] test_now 14)))
             (updated_issue "1" (time.Add test_now (- (60 * day)))) eq_refl eq_refl).
Defined.

(** * Further properties *)

(** ** The label catalog *)

Lemma extract_label_set (issue : model.Issue) (s : extract_state) (label l : string) :
  l ∈ es_labelSet (extract_label issue s label)
  <-> l ∈ es_labelSet s \/ (l = label /\ label <> "").
Proof.
  unfold extract_label. destruct (String.eqb_spec label "") as [-> | Hne]; simpl.
  - tauto.
  - rewrite elem_of_union, elem_of_singleton. tauto.
Qed.

Lemma extract_labels_set (issue : model.Issue) (labels : list string)
    (s : extract_state) (l : string) :
  l ∈ es_labelSet (fold_left (extract_label issue) labels s)
  <-> l ∈ es_labelSet s \/ (l ∈ labels /\ l <> "").
Proof.
  revert s. induction labels as [|x rest IH]; intros s; simpl.
  - rewrite elem_of_nil. tauto.
  - rewrite IH, extract_label_set, elem_of_cons. split.
    + intros [[H|[-> H]]|H]; tauto.
    + intros [H|[[-> |H] Hne]]; tauto.
Qed.

Lemma extract_issue_set (s : extract_state) (issue : model.Issue) (l : string) :
  l ∈ es_labelSet (extract_issue s issue)
  <-> l ∈ es_labelSet s \/ (l ∈ model.Labels issue /\ l <> "").
Proof.
  unfold extract_issue. rewrite extract_labels_set.
  by destruct (length (model.Labels issue) =? 0)%nat.
Qed.

Lemma extract_loop_set (issues : list model.Issue) (s : extract_state) (l : string) :
  l ∈ es_labelSet (fold_left extract_issue issues s)
  <-> l ∈ es_labelSet s
      \/ (l <> "" /\ exists iss, iss ∈ issues /\ l ∈ model.Labels iss).
Proof.
  revert s. induction issues as [|i rest IH]; intros s; simpl.
  - split; [auto|]. intros [H|[_ (iss & Hin & _)]]; [done|]. by apply elem_of_nil in Hin.
  - rewrite IH, extract_issue_set. split.
    + intros [[H|[H Hne]]|[Hne (iss & Hin & H)]]; [auto| |].
      * right. split; [done|]. exists i. split; [left|done].
      * right. split; [done|]. exists iss. split; [by right|done].
    + intros [H|[Hne (iss & Hin & H)]]; [auto|].
      apply elem_of_cons in Hin as [-> |Hin]; [auto|].
      right. split; [done|]. eauto.
Qed.

Lemma extract_label_keys (issue : model.Issue) (s : extract_state) (label : string) :
  stats_keys_ok s -> stats_keys_ok (extract_label issue s label).
Proof.
  intros Hs l. unfold extract_label. unfold stats_keys_ok in Hs.
  destruct (String.eqb_spec label "") as [-> | Hne]; simpl; [apply Hs|].
  rewrite lookup_insert, elem_of_union, elem_of_singleton, <- Hs.
  case_decide as Heq; [subst|].
  - split; [auto | eauto].
  - split; [auto|]. intros [?|?]; [congruence|done].
Qed.

Lemma extract_loop_keys (issues : list model.Issue) (s : extract_state) :
  stats_keys_ok s -> stats_keys_ok (fold_left extract_issue issues s).
Proof.
  revert s. induction issues as [|i rest IH]; intros s Hs; simpl; [done|].
  apply IH. unfold extract_issue.
  set (s1 := if (length (model.Labels i) =? 0)%nat then _ else s).
  assert (Hs1 : stats_keys_ok s1) by (subst s1; by destruct (_ =? _)%nat).
  clearbody s1. revert s1 Hs1.
  induction (model.Labels i) as [|x xs IHx]; intros s1 Hs1; simpl; [done|].
  by apply IHx, extract_label_keys.
Qed.

Lemma stats_record_new (l : string) : stats_record_ok l (LabelStats.new l).
Proof. unfold stats_record_ok. simpl. repeat split; lia. Qed.

Lemma count_label_ok (issue : model.Issue) (label l : string) (st : LabelStats.t) :
  stats_record_ok l st -> stats_record_ok l (count_label issue label st).
Proof.
  intros (HL & HB & HI & HO & HC & HP & HT). unfold stats_record_ok, count_label. simpl.
  rewrite length_app. simpl length.
  destruct (String.eqb (model.Status issue) model.StatusOpen);
    [|destruct (String.eqb (model.Status issue) model.StatusClosed);
      [|destruct (String.eqb (model.Status issue) model.StatusInProgress)]];
    repeat split; try assumption; lia.
Qed.

Lemma extract_label_records (issue : model.Issue) (s : extract_state) (label : string) :
  stats_records_ok s -> stats_records_ok (extract_label issue s label).
Proof.
  intros Hs l. unfold extract_label.
  destruct (String.eqb_spec label "") as [-> | Hne]; simpl; [apply Hs|].
  unfold stats_of. rewrite lookup_insert. case_decide as Heq; [subst; simpl|apply Hs].
  apply count_label_ok, Hs.
Qed.

Lemma extract_loop_records (issues : list model.Issue) (s : extract_state) :
  stats_records_ok s -> stats_records_ok (fold_left extract_issue issues s).
Proof.
  revert s. induction issues as [|i rest IH]; intros s Hs; simpl; [done|].
  apply IH. unfold extract_issue.
  set (s1 := if (length (model.Labels i) =? 0)%nat then _ else s).
  assert (Hs1 : stats_records_ok s1) by (subst s1; by destruct (_ =? _)%nat).
  clearbody s1. revert s1 Hs1.
  induction (model.Labels i) as [|x xs IHx]; intros s1 Hs1; simpl; [done|].
  by apply IHx, extract_label_records.
Qed.

Lemma label_count_single (l x : string) :
  label_count l [x] = if String.eqb x l then 1 else 0.
Proof.
  unfold label_count. cbn [count_occ].
  destruct (string_dec x l) as [-> | Hne].
  - by rewrite String.eqb_refl.
  - apply String.eqb_neq in Hne. by rewrite Hne.
Qed.

Lemma extract_label_total (issue : model.Issue) (s : extract_state) (label l : string) :
  total_of (extract_label issue s label) l
  = total_of s l + (if String.eqb l "" then 0 else label_count l [label]).
Proof.
  rewrite label_count_single. unfold extract_label, total_of, stats_of.
  destruct (String.eqb_spec label "") as [-> | Hne].
  - destruct (String.eqb_spec l "") as [-> | Hl]; [lia|].
    apply not_eq_sym, String.eqb_neq in Hl. rewrite Hl. lia.
  - cbn [es_stats]. rewrite lookup_insert. case_decide as Heq.
    + subst l. apply String.eqb_neq in Hne. rewrite Hne, String.eqb_refl.
      reflexivity.
    + apply String.eqb_neq in Heq. rewrite Heq. destruct (String.eqb l ""); lia.
Qed.

Lemma label_count_cons (l x : string) (rest : list string) :
  label_count l (x :: rest) = label_count l [x] + label_count l rest.
Proof.
  unfold label_count. cbn [count_occ]. destruct (string_dec x l); lia.
Qed.

Lemma extract_labels_total (issue : model.Issue) (labels : list string)
    (s : extract_state) (l : string) :
  total_of (fold_left (extract_label issue) labels s) l
  = total_of s l + (if String.eqb l "" then 0 else label_count l labels).
Proof.
  revert s. induction labels as [|x rest IH]; intros s; simpl fold_left.
  - unfold label_count. simpl. destruct (String.eqb l ""); lia.
  - rewrite IH, extract_label_total, (label_count_cons l x rest).
    destruct (String.eqb l ""); lia.
Qed.

Lemma extract_loop_total (issues : list model.Issue) (s : extract_state) (l : string) :
  total_of (fold_left extract_issue issues s) l
  = total_of s l + (if String.eqb l "" then 0 else occurrences l issues).
Proof.
  revert s. induction issues as [|i rest IH]; intros s; simpl fold_left.
  - unfold occurrences. simpl. destruct (String.eqb l ""); lia.
  - rewrite IH. unfold extract_issue. rewrite extract_labels_total.
    unfold occurrences. simpl sum_issues.
    assert (Hs1 : total_of (if (length (model.Labels i) =? 0)%nat
                            then {| es_stats := es_stats s; es_labelSet := es_labelSet s;
                                    es_unlabeled := es_unlabeled s + 1 |}
                            else s) l = total_of s l)
      by (by destruct (_ =? _)%nat).
    rewrite Hs1. destruct (String.eqb l ""); lia.
Qed.

Lemma extract_loop_unlabeled (issues : list model.Issue) (s : extract_state) :
  es_unlabeled (fold_left extract_issue issues s)
  = es_unlabeled s
    + Z.of_nat (length (List.filter
                          (fun iss => (length (model.Labels iss) =? 0)%nat) issues)).
Proof.
  revert s. induction issues as [|i rest IH]; intros s; simpl fold_left; [simpl; lia|].
  rewrite IH. unfold extract_issue. simpl List.filter.
  assert (Hfold : forall labels s1,
            es_unlabeled (fold_left (extract_label i) labels s1) = es_unlabeled s1).
  { induction labels as [|x xs IHx]; intros s1; simpl; [done|].
    rewrite IHx. unfold extract_label. by destruct (String.eqb x ""). }
  rewrite Hfold. destruct (length (model.Labels i) =? 0)%nat; simpl; lia.
Qed.

Lemma occurrences_pos (l : string) (issues : list model.Issue) :
  0 < occurrences l issues <-> exists iss, iss ∈ issues /\ l ∈ model.Labels iss.
Proof.
  unfold occurrences. induction issues as [|i rest IH]; simpl.
  - split; [lia|]. intros (iss & Hin & _). by apply elem_of_nil in Hin.
  - assert (Hi : 0 < label_count l (model.Labels i) <-> l ∈ model.Labels i).
    { unfold label_count. rewrite list_elem_of_In, (count_occ_In string_dec). lia. }
    assert (0 <= label_count l (model.Labels i)) by (unfold label_count; lia).
    assert (0 <= sum_issues (fun iss => label_count l (model.Labels iss)) rest).
    { clear. induction rest as [|j rest IHr]; simpl; [lia|]. unfold label_count at 1. lia. }
    split.
    + intros Hpos. destruct (decide (0 < label_count l (model.Labels i))) as [Hp|Hp].
      * exists i. split; [left | by apply Hi].
      * destruct IH as [IH _]. destruct IH as (iss & Hin & Hl); [lia|].
        exists iss. split; [by right | done].
    + intros (iss & Hin & Hl). apply elem_of_cons in Hin as [-> |Hin].
      * apply Hi in Hl. lia.
      * destruct IH as [_ IH]. specialize (IH (ex_intro _ iss (conj Hin Hl))). lia.
Qed.

Lemma ExtractLabels_loop_start :
  stats_keys_ok {| es_stats := ∅; es_labelSet := ∅; es_unlabeled := 0 |}
  /\ stats_records_ok {| es_stats := ∅; es_labelSet := ∅; es_unlabeled := 0 |}.
Proof.
  split.
  - intros l. simpl. rewrite lookup_empty, elem_of_empty. split; [by intros []|done].
  - intros l. unfold stats_of. simpl. rewrite lookup_empty. apply stats_record_new.
Qed.

(** X1: the labels of the catalog are exactly the non-empty labels written
    on some issue, each once and in increasing order; the label count is
    their number, the issue count the number of issues and the unlabeled
    count the number of issues with an empty label list. *)
Theorem ExtractLabels_labels (issues : list model.Issue) :
  let r := ExtractLabels issues in
  (forall l, l ∈ LabelExtractionResult.Labels r
             <-> l <> "" /\ exists iss, iss ∈ issues /\ l ∈ model.Labels iss)
  /\ NoDup (LabelExtractionResult.Labels r)
  /\ StronglySorted string_le (LabelExtractionResult.Labels r)
  /\ LabelExtractionResult.LabelCount r
     = Z.of_nat (length (LabelExtractionResult.Labels r))
  /\ LabelExtractionResult.IssueCount r = Z.of_nat (length issues)
  /\ LabelExtractionResult.UnlabeledCount r
     = Z.of_nat (length (List.filter
                           (fun iss => (length (model.Labels iss) =? 0)%nat) issues)).
Proof.
  unfold ExtractLabels. destruct issues as [|i rest].
  { simpl. split; [|repeat split; constructor].
    intros l. rewrite elem_of_nil. split; [done|].
    intros [_ (iss & Hin & _)]. by apply elem_of_nil in Hin. }
  set (issues := i :: rest). change (length issues =? 0)%nat with false. cbv iota zeta.
  cbn [LabelExtractionResult.Labels LabelExtractionResult.LabelCount
       LabelExtractionResult.IssueCount LabelExtractionResult.UnlabeledCount].
  split; [|split; [|split; [|split; [|split]]]].
  - intros l. rewrite Strings_elem_of, elem_of_elements, extract_loop_set.
    simpl. rewrite elem_of_empty. tauto.
  - unfold sort.Strings. rewrite Slice_Permutation. apply NoDup_elements.
  - apply Strings_StronglySorted.
  - reflexivity.
  - reflexivity.
  - rewrite extract_loop_unlabeled. simpl es_unlabeled. lia.
Qed.

(** X2: the statistics have one record per label of the catalog.  The
    record of a label carries that label, its total is the number of times
    the label is written on the issues (repetitions on one issue included),
    it lists one issue ID per count, its open, closed and in-progress
    counters stay within the total, and its blocked counter is always 0. *)
Theorem ExtractLabels_stats (issues : list model.Issue) (l : string) :
  let r := ExtractLabels issues in
  let st := stats_of (LabelExtractionResult.Stats r) l in
  (is_Some (LabelExtractionResult.Stats r !! l) <-> l ∈ LabelExtractionResult.Labels r)
  /\ (l ∈ LabelExtractionResult.Labels r <-> 0 < LabelStats.TotalCount st)
  /\ LabelStats.TotalCount st = (if String.eqb l "" then 0 else occurrences l issues)
  /\ LabelStats.Label st = l
  /\ Z.of_nat (length (LabelStats.IssueIDs st)) = LabelStats.TotalCount st
  /\ LabelStats.OpenCount st + LabelStats.ClosedCount st + LabelStats.InProgress st
     <= LabelStats.TotalCount st
  /\ LabelStats.Blocked st = 0.
Proof.
  intros r st.
  destruct (ExtractLabels_labels issues) as (Hmem & _). fold r in Hmem.
  assert (Hkeys : is_Some (LabelExtractionResult.Stats r !! l)
                  <-> l ∈ LabelExtractionResult.Labels r).
  { subst r. unfold ExtractLabels. destruct (length issues =? 0)%nat; simpl.
    - rewrite lookup_empty, elem_of_nil. split; [by intros []|done].
    - rewrite Strings_elem_of, elem_of_elements.
      apply extract_loop_keys, ExtractLabels_loop_start. }
  assert (Htotal : LabelStats.TotalCount st
                   = (if String.eqb l "" then 0 else occurrences l issues)).
  { subst st r. unfold ExtractLabels. destruct issues as [|i rest].
    - simpl. unfold stats_of. rewrite lookup_empty. simpl.
      unfold occurrences. simpl. by destruct (String.eqb l "").
    - change (length (i :: rest) =? 0)%nat with false. cbv iota zeta.
      cbn [LabelExtractionResult.Stats].
      pose proof (extract_loop_total (i :: rest)
                    {| es_stats := ∅; es_labelSet := ∅; es_unlabeled := 0 |} l) as Ht.
      unfold total_of in Ht. rewrite Ht. unfold stats_of. simpl es_stats.
      rewrite lookup_empty. simpl. lia. }
  assert (Hrec : stats_record_ok l st).
  { subst st r. unfold ExtractLabels. destruct (length issues =? 0)%nat; simpl.
    - unfold stats_of. rewrite lookup_empty. apply stats_record_new.
    - apply extract_loop_records, ExtractLabels_loop_start. }
  destruct Hrec as (HL & HB & HI & _ & _ & _ & HT).
  split; [exact Hkeys|]. split; [|repeat split; assumption].
  rewrite Htotal, Hmem. destruct (String.eqb_spec l "") as [-> | Hne].
  - split; [tauto | lia].
  - rewrite occurrences_pos. tauto.
Qed.

Lemma StronglySorted_impl_elem {A} (R R' : relation A) (l : list A) :
  (forall x y, x ∈ l -> y ∈ l -> R x y -> R' x y) ->
  StronglySorted R l -> StronglySorted R' l.
Proof.
  intros Himpl Hs. induction Hs as [|x l Hs IH Hall]; constructor.
  - apply IH. intros a b Ha Hb. apply Himpl; by right.
  - rewrite List.Forall_forall in *. intros y Hy.
    apply Himpl; [left | right; by apply list_elem_of_In | by apply Hall].
Qed.

Lemma labelCount_less_le (x y : string * Z) :
  labelCount_less y x = false <-> labelCount_le x y.
Proof.
  unfold labelCount_less, labelCount_le, string_le.
  destruct (Z.eqb_spec y.2 x.2) as [Heq|Hne]; simpl.
  - rewrite Heq. split; [auto|]. intros [?|[_ ?]]; [lia|done].
  - rewrite Z.ltb_ge. split; [intros; left; lia|]. intros [?|[? _]]; lia.
Qed.

#[local] Instance labelCount_le_trans : Transitive labelCount_le.
Proof.
  intros a b c. unfold labelCount_le.
  intros [Hab|[Hab Hab']] [Hbc|[Hbc Hbc']]; [left; lia..|].
  right. split; [lia|]. by transitivity b.1.
Qed.

#[local] Instance labelCount_le_total : Total labelCount_le.
Proof.
  intros a b. unfold labelCount_le.
  destruct (Z.lt_trichotomy a.2 b.2) as [?|[?|?]]; [auto| |auto].
  destruct (total string_le a.1 b.1); auto.
Qed.

(** X3: the top labels are the labels of the catalog in another order:
    larger totals first, labels with equal totals in increasing order. *)
Theorem ExtractLabels_top_labels (issues : list model.Issue) :
  let r := ExtractLabels issues in
  let count l := LabelStats.TotalCount (stats_of (LabelExtractionResult.Stats r) l) in
  LabelExtractionResult.TopLabels r ≡ₚ LabelExtractionResult.Labels r
  /\ StronglySorted (top_label_le count) (LabelExtractionResult.TopLabels r).
Proof.
  intros r count.
  assert (Hshape : LabelExtractionResult.TopLabels r
                   = sortLabelsByCount (LabelExtractionResult.Stats r)).
  { subst r. unfold ExtractLabels. by destruct (length issues =? 0)%nat. }
  destruct (ExtractLabels_labels issues) as (_ & Hnd & _). fold r in Hnd.
  rewrite Hshape. unfold sortLabelsByCount.
  set (stats := LabelExtractionResult.Stats r) in *.
  set (lc := (fun e : string * LabelStats.t => (e.1, LabelStats.TotalCount e.2))
               <$> map_to_list stats).
  split.
  - rewrite Slice_Permutation. subst lc. rewrite <- list_fmap_compose.
    apply NoDup_Permutation; [apply NoDup_fst_map_to_list | exact Hnd |].
    intros l. destruct (ExtractLabels_stats issues l) as (Hkeys & _).
    fold r in Hkeys. rewrite <- Hkeys. fold stats.
    rewrite list_elem_of_fmap. split.
    + intros ([k st] & -> & Hin). apply elem_of_map_to_list in Hin. simpl. eauto.
    + intros [st Hst]. exists (l, st). split; [done | by apply elem_of_map_to_list].
  - apply (StronglySorted_fmap fst (fun x y => top_label_le count x.1 y.1)); [auto|].
    eapply StronglySorted_impl_elem;
      [|apply (Slice_StronglySorted labelCount_less labelCount_le);
        [apply labelCount_less_le | apply _ ..]].
    intros x y Hx Hy Hle.
    assert (Hcount : forall p, p ∈ sort.Slice labelCount_less lc -> p.2 = count p.1).
    { intros p Hp. apply Slice_elem_of in Hp. subst lc.
      apply list_elem_of_fmap in Hp as ([k st] & -> & Hin).
      apply elem_of_map_to_list in Hin. simpl. subst count. simpl.
      unfold stats_of. by rewrite Hin. }
    unfold top_label_le. rewrite <- (Hcount x Hx), <- (Hcount y Hy). exact Hle.
Qed.

(** ** Issues of a label *)

Lemma has_label_spec (label : string) (labels : list string) :
  existsb (fun l => String.eqb l label) labels = true <-> label ∈ labels.
Proof.
  rewrite existsb_exists, list_elem_of_In. split.
  - intros (x & Hin & Heq). apply String.eqb_eq in Heq. by subst.
  - intros Hin. exists label. split; [done | apply String.eqb_refl].
Qed.

Lemma label_count_bound (label : string) (labels : list string) :
  (if existsb (fun l => String.eqb l label) labels then 1 else 0)
  <= label_count label labels.
Proof.
  destruct (existsb _ labels) eqn:E; [|unfold label_count; lia].
  apply has_label_spec, list_elem_of_In, (count_occ_In string_dec) in E.
  unfold label_count. lia.
Qed.

(** X4: [GetLabelIssues] returns exactly the issues whose label list holds
    the label, in input order and each once, so never more issues than the
    label has occurrences; for a non-empty label the result is non-empty
    exactly when the label is in the catalog. *)
Theorem GetLabelIssues_spec (issues : list model.Issue) (label : string) :
  (forall iss, iss ∈ GetLabelIssues issues label
               <-> iss ∈ issues /\ label ∈ model.Labels iss)
  /\ sublist (GetLabelIssues issues label) issues
  /\ Z.of_nat (length (GetLabelIssues issues label)) <= occurrences label issues
  /\ (label ∈ LabelExtractionResult.Labels (ExtractLabels issues)
      <-> label <> "" /\ GetLabelIssues issues label <> []).
Proof.
  assert (Hmem : forall iss, iss ∈ GetLabelIssues issues label
                             <-> iss ∈ issues /\ label ∈ model.Labels iss).
  { intros iss. unfold GetLabelIssues.
    by rewrite list_elem_of_In, filter_In, <- list_elem_of_In, has_label_spec. }
  split; [exact Hmem|]. split; [|split].
  - unfold GetLabelIssues. clear Hmem.
    induction issues as [|i rest IH]; simpl; [constructor|].
    destruct (existsb _ (model.Labels i)); [by apply sublist_skip | by apply sublist_cons].
  - unfold GetLabelIssues, occurrences. clear Hmem.
    induction issues as [|i rest IH]; simpl; [lia|].
    pose proof (label_count_bound label (model.Labels i)).
    destruct (existsb _ (model.Labels i)); simpl length; lia.
  - destruct (ExtractLabels_labels issues) as (HL & _). rewrite HL.
    split; intros [Hne H]; (split; [exact Hne|]).
    + destruct H as (iss & Hin & Hl). intros Hnil.
      assert (Hiss : iss ∈ GetLabelIssues issues label) by (by apply Hmem).
      rewrite Hnil in Hiss. by apply elem_of_nil in Hiss.
    + assert (Hex : exists iss, iss ∈ GetLabelIssues issues label).
      { destruct (GetLabelIssues issues label) as [|iss rest]; [done|].
        exists iss. left. }
      destruct Hex as [iss Hiss]. exists iss. by apply Hmem.
Qed.

(** ** Co-occurrence counts *)

Lemma cooc_get_init cooc l a b : cooc_get (cooc_init cooc l) a b = cooc_get cooc a b.
Proof.
  unfold cooc_init, cooc_get. destruct (cooc !! l) eqn:E; [done|].
  rewrite lookup_insert. case_decide as Heq; [subst|done].
  rewrite E. simpl. by rewrite lookup_empty.
Qed.

Lemma cooc_get_incr cooc l1 l2 a b :
  cooc_get (cooc_incr cooc l1 l2) a b
  = cooc_get cooc a b + (if String.eqb a l1 && String.eqb b l2 then 1 else 0).
Proof.
  unfold cooc_incr, cooc_get. rewrite lookup_insert.
  destruct (String.eqb_spec a l1) as [-> | Hne]; simpl.
  - rewrite decide_True by done. simpl. unfold map_incr. rewrite lookup_insert.
    destruct (String.eqb_spec b l2) as [-> | Hne2].
    + rewrite decide_True by done. simpl.
      destruct (cooc !! l1) as [inner|]; simpl; [done|]. by rewrite lookup_empty.
    + rewrite decide_False by congruence.
      destruct (cooc !! l1) as [inner|]; simpl; [lia|]. rewrite lookup_empty. simpl. lia.
  - rewrite decide_False by congruence. lia.
Qed.

Lemma cooc_get_pair cooc x y a b :
  cooc_get (cooc_pair cooc x y) a b
  = cooc_get cooc a b
    + (if String.eqb a x && String.eqb b y then 1 else 0)
    + (if String.eqb a y && String.eqb b x then 1 else 0).
Proof.
  unfold cooc_pair. destruct (string_lt y x);
    rewrite !cooc_get_incr, !cooc_get_init; lia.
Qed.

Lemma cooc_get_row cooc l rest a b :
  cooc_get (fold_left (fun c l' => cooc_pair c l l') rest cooc) a b
  = cooc_get cooc a b
    + (if String.eqb a l then label_count b rest else 0)
    + (if String.eqb b l then label_count a rest else 0).
Proof.
  revert cooc. induction rest as [|r rest IH]; intros cooc; simpl fold_left.
  - unfold label_count. simpl. destruct (String.eqb a l), (String.eqb b l); lia.
  - rewrite IH, cooc_get_pair, (label_count_cons b r rest), (label_count_cons a r rest),
      !label_count_single.
    rewrite (String.eqb_sym r b), (String.eqb_sym r a).
    destruct (String.eqb a l), (String.eqb b l), (String.eqb a r), (String.eqb b r);
      simpl; lia.
Qed.

Lemma cooc_get_labels cooc labels a b :
  cooc_get (cooc_labels cooc labels) a b = cooc_get cooc a b + pairings a b labels.
Proof.
  revert cooc. induction labels as [|l rest IH]; intros cooc; simpl cooc_labels.
  - unfold pairings, label_count. simpl. destruct (String.eqb a b); lia.
  - rewrite IH, cooc_get_row. unfold pairings.
    rewrite (label_count_cons a l rest), (label_count_cons b l rest), !label_count_single.
    rewrite (String.eqb_sym l a), (String.eqb_sym l b).
    destruct (String.eqb_spec a b) as [-> | Hne].
    + destruct (String.eqb b l); lia.
    + destruct (String.eqb_spec a l) as [-> | Ha], (String.eqb_spec b l) as [-> | Hb];
        try congruence; lia.
Qed.

Lemma pairings_sym (a b : string) (labels : list string) :
  pairings a b labels = pairings b a labels.
Proof.
  unfold pairings. rewrite (String.eqb_sym b a).
  destruct (String.eqb_spec a b) as [-> | Hne]; lia.
Qed.

(** X5: the co-occurrence count of two different labels is the sum, over the
    issues, of the product of how often each is written on the issue; the
    count of a label with itself is the sum of [k * (k - 1)] for a label
    written [k] times on an issue.  The counts are symmetric. *)
Theorem GetLabelCooccurrence_counts (issues : list model.Issue) (a b : string) :
  cooc_get (GetLabelCooccurrence issues) a b
  = sum_issues (fun iss => pairings a b (model.Labels iss)) issues
  /\ cooc_get (GetLabelCooccurrence issues) a b
     = cooc_get (GetLabelCooccurrence issues) b a.
Proof.
  assert (Hgen : forall x y cooc,
    cooc_get (fold_left (fun cooc issue => cooc_labels cooc (model.Labels issue))
                issues cooc) x y
    = cooc_get cooc x y + sum_issues (fun iss => pairings x y (model.Labels iss)) issues).
  { intros x y. induction issues as [|i rest IH]; intros cooc; simpl; [lia|].
    rewrite IH, cooc_get_labels. lia. }
  assert (Hempty : forall x y, cooc_get (∅ : gmap string (gmap string Z)) x y = 0).
  { intros x y. unfold cooc_get. by rewrite lookup_empty. }
  unfold GetLabelCooccurrence. rewrite !Hgen, !Hempty. split; [lia|].
  f_equal. clear Hgen. induction issues as [|i rest IH]; simpl; [done|].
  by rewrite IH, pairings_sym.
Qed.

(** ** Common labels *)

Lemma map_get_incr `{Countable K} (m : gmap K Z) (k k' : K) :
  map_get (map_incr k m) k' = map_get m k' + (if decide (k' = k) then 1 else 0).
Proof.
  unfold map_get, map_incr. rewrite lookup_insert.
  destruct (decide (k' = k)) as [-> | Hne].
  - rewrite decide_True by done. simpl. lia.
  - rewrite decide_False by congruence. lia.
Qed.

Lemma common_labels_set_spec (labels : list string) (counts : gmap string Z)
    (seen : gset string) (l : string) :
  map_get
    (fold_left
       (fun (acc : gmap string Z * gset string) label =>
          if decide (label ∈ acc.2) then acc
          else (map_incr label acc.1, {[label]} ∪ acc.2))
       labels (counts, seen)).1 l
  = map_get counts l + (if decide (l ∈ labels /\ l ∉ seen) then 1 else 0).
Proof.
  revert counts seen. induction labels as [|x rest IH]; intros counts seen;
    cbn [fold_left fst snd].
  - rewrite decide_False; [lia|]. rewrite elem_of_nil. tauto.
  - destruct (decide (x ∈ seen)) as [Hx|Hx]; rewrite IH; cbn [fst snd].
    + destruct (decide (l ∈ rest /\ l ∉ seen)) as [[H1 H2]|Hn].
      * rewrite decide_True; [done|]. split; [by right|done].
      * rewrite decide_False; [done|]. rewrite elem_of_cons.
        intros [[-> |H1] H2]; tauto.
    + rewrite map_get_incr.
      destruct (decide (l = x)) as [-> |Hne].
      * rewrite decide_False.
        2:{ rewrite elem_of_union, elem_of_singleton. tauto. }
        rewrite decide_True; [lia|]. split; [left|done].
      * destruct (decide (l ∈ rest /\ l ∉ seen)) as [[H1 H2]|Hn].
        -- rewrite decide_True.
           2:{ rewrite elem_of_union, elem_of_singleton. tauto. }
           rewrite decide_True; [lia|]. split; [by right|done].
        -- rewrite decide_False.
           2:{ rewrite elem_of_union, elem_of_singleton. tauto. }
           rewrite decide_False; [lia|]. rewrite elem_of_cons. tauto.
Qed.

Lemma common_labels_counts (labelSets : list (list string)) (counts : gmap string Z)
    (l : string) :
  map_get (fold_left (fun counts labels => (common_labels_set counts labels).1)
             labelSets counts) l
  = map_get counts l + containing l labelSets.
Proof.
  revert counts. induction labelSets as [|labels rest IH]; intros counts; simpl.
  - unfold containing. simpl. lia.
  - rewrite IH. unfold common_labels_set. rewrite common_labels_set_spec.
    unfold containing. rewrite filter_cons.
    destruct (decide (l ∈ labels)) as [Hl|Hl].
    + rewrite decide_True; [simpl length; lia|]. split; [done | apply not_elem_of_empty].
    + rewrite decide_False; [lia | tauto].
Qed.

Lemma containing_all (l : string) (labelSets : list (list string)) :
  containing l labelSets <= Z.of_nat (length labelSets)
  /\ (containing l labelSets = Z.of_nat (length labelSets)
      <-> forall labels, labels ∈ labelSets -> l ∈ labels).
Proof.
  unfold containing. induction labelSets as [|labels rest [IHle IH]].
  - simpl. split; [lia|]. split; [|done]. intros _ labels H. by apply elem_of_nil in H.
  - rewrite filter_cons. destruct (decide (l ∈ labels)) as [Hl|Hl]; simpl length.
    + split; [lia|]. split.
      * intros Heq labels' Hin. apply elem_of_cons in Hin as [-> |Hin]; [done|].
        apply IH; [lia | done].
      * intros Hall. assert (Hrest : forall labels', labels' ∈ rest -> l ∈ labels').
        { intros labels' Hin. apply Hall. by right. }
        apply IH in Hrest. lia.
    + split; [lia|]. split; [lia|]. intros Hall. destruct Hl. apply Hall. left.
Qed.

(** X6: [GetCommonLabels] returns, sorted and without repetition, exactly
    the labels that every given label set holds; it returns nothing when no
    label set is given. *)
Theorem GetCommonLabels_spec (labelSets : list (list string)) :
  (forall l, l ∈ GetCommonLabels labelSets
             <-> labelSets <> [] /\ forall labels, labels ∈ labelSets -> l ∈ labels)
  /\ NoDup (GetCommonLabels labelSets)
  /\ StronglySorted string_le (GetCommonLabels labelSets).
Proof.
  unfold GetCommonLabels. destruct labelSets as [|first rest].
  { simpl. split; [|split; constructor].
    intros l. rewrite elem_of_nil. split; [done | by intros [? _]]. }
  set (labelSets := first :: rest).
  change (length labelSets =? 0)%nat with false. cbv iota zeta.
  set (counts := fold_left _ labelSets ∅).
  assert (Hcount : forall l, map_get counts l = containing l labelSets).
  { intros l. subst counts. rewrite common_labels_counts.
    unfold map_get. rewrite lookup_empty. simpl. lia. }
  split; [|split].
  - intros l. rewrite Strings_elem_of, list_elem_of_fmap.
    destruct (containing_all l labelSets) as [_ Hall]. rewrite <- Hall, <- Hcount.
    split.
    + intros ([k c] & -> & Hin). apply list_elem_of_filter in Hin as [Hc Hin].
      apply elem_of_map_to_list in Hin. simpl in *. split; [done|].
      unfold map_get. by rewrite Hin.
    + intros [_ Hc]. exists (l, Z.of_nat (length labelSets)). split; [done|].
      apply list_elem_of_filter. split; [done|]. apply elem_of_map_to_list.
      unfold map_get in Hc. destruct (counts !! l) as [c|]; simpl in Hc.
      * by rewrite Hc.
      * subst labelSets. simpl length in Hc. lia.
  - unfold sort.Strings. rewrite Slice_Permutation.
    eapply sublist_NoDup; [apply (NoDup_fst_map_to_list counts)|].
    apply fmap_sublist, sublist_filter.
  - apply Strings_StronglySorted.
Qed.

(** ** Looking up an issue by ID *)

Lemma issue_map_other (issues : list model.Issue) (m : gmap string model.Issue)
    (id : string) :
  id ∉ model.ID <$> issues ->
  fold_left (fun m iss => <[model.ID iss := iss]> m) issues m !! id = m !! id.
Proof.
  revert m. induction issues as [|i rest IH]; intros m Hid; simpl; [done|].
  apply not_elem_of_cons in Hid as [Hne Hid].
  rewrite IH by done. by rewrite lookup_insert_ne.
Qed.

Lemma GetLabelsForIssue_missing (issues : list model.Issue) (id : string) :
  id ∉ model.ID <$> issues -> GetLabelsForIssue issues id = [].
Proof.
  induction issues as [|i rest IH]; simpl; [done|].
  intros Hid. apply not_elem_of_cons in Hid as [Hne Hid].
  destruct (String.eqb_spec (model.ID i) id); [congruence | by apply IH].
Qed.

(** X7: when the issue IDs are pairwise different, the issue map built by
    the cross-label flow and the scan of [GetLabelsForIssue] resolve an ID
    to the same issue: an ID of the collection maps to its issue and to the
    labels of that issue; any other ID is absent from the map and has no
    labels. *)
Theorem issue_lookups_agree (issues : list model.Issue) (id : string) :
  NoDup (model.ID <$> issues) ->
  match issue_map issues !! id with
  | Some iss =>
      iss ∈ issues /\ model.ID iss = id
      /\ GetLabelsForIssue issues id = model.Labels iss
  | None =>
      (forall iss, iss ∈ issues -> model.ID iss <> id)
      /\ GetLabelsForIssue issues id = []
  end.
Proof.
  unfold issue_map. intros Hnd.
  assert (Hgen : forall m : gmap string model.Issue,
    match fold_left (fun m iss => <[model.ID iss := iss]> m) issues m !! id with
    | Some iss =>
        (iss ∈ issues /\ model.ID iss = id
         /\ GetLabelsForIssue issues id = model.Labels iss)
        \/ (m !! id = Some iss /\ id ∉ model.ID <$> issues)
    | None => m !! id = None /\ id ∉ model.ID <$> issues
    end).
  { induction issues as [|i rest IH]; intros m; simpl.
    - destruct (m !! id); [right|]; split; try done; apply not_elem_of_nil.
    - apply NoDup_cons in Hnd as [Hi Hnd].
      specialize (IH Hnd (<[model.ID i := i]> m)).
      destruct (String.eqb_spec (model.ID i) id) as [Heq|Hne].
      + subst id. rewrite issue_map_other in IH |- * by done.
        rewrite lookup_insert_eq in IH |- *. left. split; [left|done].
      + destruct (fold_left _ rest _ !! id) as [iss|].
        * destruct IH as [(Hin & Hid & Hl)|[Hm Hid]].
          -- left. split; [by right|done].
          -- rewrite lookup_insert_ne in Hm by done. right. split; [done|].
             apply not_elem_of_cons. split; [congruence|done].
        * destruct IH as [Hm Hid]. rewrite lookup_insert_ne in Hm by done.
          split; [done|]. apply not_elem_of_cons. split; [congruence|done]. }
  specialize (Hgen ∅).
  destruct (fold_left _ issues ∅ !! id) as [iss|].
  - destruct Hgen as [H|[H _]]; [exact H|]. by rewrite lookup_empty in H.
  - destruct Hgen as [_ Hid]. split; [|by apply GetLabelsForIssue_missing].
    intros iss Hin Heq. apply Hid. rewrite <- Heq.
    apply list_elem_of_fmap. by exists iss.
Qed.

Lemma issue_lookups_agree_witness :
  GetLabelsForIssue flow_test_issues "C" = ["api"; "core"].
Proof.
  assert (Hnd : NoDup (model.ID <$> flow_test_issues)).
  { apply (bool_decide_eq_true_1 (NoDup (model.ID <$> flow_test_issues))).
    vm_compute. reflexivity. }
  pose proof (issue_lookups_agree flow_test_issues "C" Hnd) as H.
  assert (Hm : issue_map flow_test_issues !! "C"
               = Some (flow_test_issue "C" ["api"; "core"] model.StatusOpen []))
    by (vm_compute; reflexivity).
  rewrite Hm in H. exact (proj2 (proj2 H)).
Defined.

(** ** Blocked issues by label *)

(** X8: the blocked count of a label is the number of times the label is
    written on issues that are not closed and have open blockers; labels
    (the empty one included) are counted as written, and a label is a key of
    the result only when that count is positive. *)
Theorem ComputeBlockedByLabel_counts (GetOpenBlockers : string -> list string)
    (issues : list model.Issue) (l : string) :
  map_get (ComputeBlockedByLabel GetOpenBlockers issues) l
  = sum_issues (blocked_occurrences GetOpenBlockers l) issues
  /\ (is_Some (ComputeBlockedByLabel GetOpenBlockers issues !! l)
      <-> 0 < sum_issues (blocked_occurrences GetOpenBlockers l) issues).
Proof.
  unfold ComputeBlockedByLabel.
  assert (Hlabels : forall labels (m : gmap string Z),
    map_get (fold_left (fun blocked label => map_incr label blocked) labels m) l
    = map_get m l + label_count l labels
    /\ ((forall k v, m !! k = Some v -> 0 < v) ->
        forall k v, fold_left (fun blocked label => map_incr label blocked) labels m !! k
                    = Some v -> 0 < v)).
  { induction labels as [|x rest IH]; intros m; simpl.
    - unfold label_count. simpl. split; [lia | auto].
    - destruct (IH (map_incr x m)) as [IHg IHp]. split.
      + rewrite IHg, map_get_incr, (label_count_cons l x rest), label_count_single.
        destruct (decide (l = x)) as [-> |Hne].
        * rewrite String.eqb_refl. lia.
        * apply not_eq_sym, String.eqb_neq in Hne. rewrite Hne. lia.
      + intros Hpos. apply IHp. intros k v. unfold map_incr. rewrite lookup_insert.
        case_decide as Heq; [|apply Hpos]. intros [= <-].
        destruct (m !! x) as [v0|] eqn:E; simpl; [|lia].
        specialize (Hpos x v0 E). lia. }
  assert (Hgen : forall (m : gmap string Z),
    let r := fold_left
      (fun blocked issue =>
         if String.eqb (model.Status issue) model.StatusClosed then blocked
         else if (0 <? length (GetOpenBlockers (model.ID issue)))%nat
         then fold_left (fun blocked label => map_incr label blocked)
                (model.Labels issue) blocked
         else blocked) issues m in
    map_get r l = map_get m l + sum_issues (blocked_occurrences GetOpenBlockers l) issues
    /\ ((forall k v, m !! k = Some v -> 0 < v) -> forall k v, r !! k = Some v -> 0 < v)).
  { induction issues as [|i rest IH]; intros m; simpl.
    - split; [lia | auto].
    - unfold blocked_occurrences at 1.
      destruct (String.eqb (model.Status i) model.StatusClosed).
      + destruct (IH m) as [IHg IHp]. split; [rewrite IHg; lia | exact IHp].
      + destruct (0 <? length (GetOpenBlockers (model.ID i)))%nat.
        * destruct (Hlabels (model.Labels i) m) as [Hg Hp].
          destruct (IH (fold_left (fun blocked label => map_incr label blocked)
                          (model.Labels i) m)) as [IHg IHp].
          split; [rewrite IHg, Hg; lia|].
          intros Hpos. apply IHp, Hp, Hpos.
        * destruct (IH m) as [IHg IHp]. split; [rewrite IHg; lia | exact IHp]. }
  destruct (Hgen ∅) as [Hg Hp]. cbv zeta in Hg, Hp.
  unfold map_get at 2 in Hg. rewrite lookup_empty in Hg. simpl in Hg.
  rewrite Z.add_0_l in Hg.
  split; [exact Hg|]. rewrite <- Hg. unfold map_get. split.
  - intros [v Hv]. rewrite Hv. simpl. eapply Hp; [|exact Hv].
    intros k v'. by rewrite lookup_empty.
  - intros Hpos. destruct (fold_left _ issues ∅ !! l); [eauto | simpl in Hpos; lia].
Qed.

(** ** Cross-label flow: what the aggregation keeps *)

Lemma fold_left_inv {A B} (P : A -> Prop) (f : A -> B -> A) (l : list B) (s0 : A) :
  P s0 -> (forall s x, x ∈ l -> P s -> P (f s x)) -> P (fold_left f l s0).
Proof.
  revert s0. induction l as [|x l IH]; intros s0 H0 Hstep; simpl; [done|].
  apply IH.
  - apply Hstep; [left | done].
  - intros s y Hy. apply Hstep. by right.
Qed.

Lemma issue_map_elem (issues : list model.Issue) (id : string) (iss : model.Issue) :
  issue_map issues !! id = Some iss -> iss ∈ issues /\ model.ID iss = id.
Proof.
  unfold issue_map.
  apply (fold_left_inv
           (fun m : gmap string model.Issue =>
              m !! id = Some iss -> iss ∈ issues /\ model.ID iss = id)).
  - by rewrite lookup_empty.
  - intros m x Hx IH. rewrite lookup_insert. case_decide as Heq; [|exact IH].
    intros [= <-]. done.
Qed.

(** An invariant of the flow state that every counted label pair keeps is
    kept by the whole aggregation loop.  The pair is counted for a blocked
    issue of the collection and the blocker of one of its blocks
    dependencies, neither dropped by the closed-issue filter. *)
Lemma flow_loop_inv (P : flow_state -> Prop) (issues : list model.Issue)
    (cfg : LabelHealthConfig.t) (index : gmap string nat) (s0 : flow_state) :
  (forall blocker blocked d from to s,
     blocker ∈ issues -> blocked ∈ issues ->
     skip_closed cfg blocker = false -> skip_closed cfg blocked = false ->
     Some d ∈ model.Dependencies blocked ->
     model.Type_ d = model.DepBlocks ->
     model.DependsOnID d = model.ID blocker ->
     from ∈ model.Labels blocker -> to ∈ model.Labels blocked ->
     P s -> P (flow_pair index blocker blocked from s to)) ->
  P s0 ->
  P (fold_left (flow_issue cfg index (issue_map issues)) issues s0).
Proof.
  intros Hpair H0. apply fold_left_inv; [exact H0|].
  intros s blocked Hblocked Hs. unfold flow_issue.
  destruct (skip_closed cfg blocked) eqn:Hskip; [exact Hs|].
  apply fold_left_inv; [exact Hs|].
  intros s1 dep Hdep Hs1. unfold flow_dep. destruct dep as [d|]; [|exact Hs1].
  destruct (String.eqb_spec (model.Type_ d) model.DepBlocks) as [Hty|Hty];
    simpl; [|exact Hs1].
  destruct (issue_map issues !! model.DependsOnID d) as [blocker|] eqn:Hmap;
    [|exact Hs1].
  apply issue_map_elem in Hmap as [Hblocker Hid].
  destruct (skip_closed cfg blocker) eqn:Hskip'; [exact Hs1|].
  apply fold_left_inv; [exact Hs1|].
  intros s2 from Hfrom Hs2.
  apply fold_left_inv; [exact Hs2|].
  intros s3 to Hto Hs3. by apply (Hpair blocker blocked d).
Qed.

Lemma label_index_fold_dom (labelList : list string) (m : gmap string nat) (k : nat)
    (l : string) :
  is_Some ((fold_left (fun (acc : gmap string nat * nat) l => (<[l := acc.2]> acc.1, S acc.2))
              labelList (m, k)).1 !! l)
  <-> l ∈ labelList \/ is_Some (m !! l).
Proof.
  revert m k. induction labelList as [|x xs IH]; intros m k; simpl.
  - rewrite elem_of_nil. tauto.
  - rewrite IH, elem_of_cons, lookup_insert. case_decide as Heq.
    + subst x. split; [intros _; by left; left|intros _; right; eauto].
    + split; [intros [H|H]; [left; by right|by right]|].
      intros [[H|H]|H]; [congruence|by left|by right].
Qed.

Lemma label_index_dom (labelList : list string) (l : string) :
  is_Some (label_index labelList !! l) <-> l ∈ labelList.
Proof.
  unfold label_index. rewrite label_index_fold_dom, lookup_empty.
  split; [intros [H|[? H]]; [done|discriminate]|by left].
Qed.

Lemma flow_pair_deps_inv (issues : list model.Issue) (cfg : LabelHealthConfig.t)
    (index : gmap string nat) (blocker blocked : model.Issue)
    (d0 : model.Dependency) (from to : string) (s : flow_state) :
  blocker ∈ issues -> blocked ∈ issues ->
  skip_closed cfg blocker = false -> skip_closed cfg blocked = false ->
  Some d0 ∈ model.Dependencies blocked ->
  model.Type_ d0 = model.DepBlocks ->
  model.DependsOnID d0 = model.ID blocker ->
  from ∈ model.Labels blocker -> to ∈ model.Labels blocked ->
  deps_inv issues cfg index s ->
  deps_inv issues cfg index (flow_pair index blocker blocked from s to).
Proof.
  intros Hb1 Hb2 Hs1 Hs2 Hd0 Hty Hid Hfrom Hto Hs. unfold flow_pair.
  destruct (String.eqb_spec from "") as [|Hf]; simpl; [done|].
  destruct (String.eqb_spec to "") as [|Ht]; simpl; [done|].
  destruct (String.eqb_spec from to) as [|Hft]; simpl; [done|].
  destruct (index !! from) as [iFrom|] eqn:HiF; [|done].
  destruct (index !! to) as [iTo|] eqn:HiT; [|done].
  assert (Hpair : pair_justified issues cfg
            {| BlockingPair.BlockerID := model.ID blocker;
               BlockingPair.BlockedID := model.ID blocked;
               BlockingPair.BlockerLabel := from;
               BlockingPair.BlockedLabel := to |}).
  { exists blocker, blocked, d0. simpl. repeat split; assumption. }
  intros f t d. simpl. rewrite lookup_insert. case_decide as Heq.
  - injection Heq as <- <-. intros [= <-].
    split; [|rewrite HiF, HiT; eauto].
    destruct (fs_depMap s !! (from, to)) as [e|] eqn:He; simpl.
    + destruct (Hs _ _ _ He) as [(H1 & H2 & H3 & H4 & H5 & H6 & H7 & H8 & H9) _].
      unfold dependency_ok; simpl.
      split; [done|]. split; [done|]. split; [done|]. split; [done|].
      split; [done|]. split; [lia|].
      split; [rewrite length_app; simpl; lia|].
      split; [rewrite length_app; simpl; lia|].
      apply Forall_app. split; [done|]. constructor; [|constructor]. done.
    + unfold dependency_ok; simpl.
      split; [done|]. split; [done|]. split; [done|]. split; [done|].
      split; [done|]. split; [lia|]. split; [done|]. split; [done|].
      constructor; [|constructor]. done.
  - intros Hd. by apply Hs in Hd.
Qed.

Lemma flow_loop_deps_inv (issues : list model.Issue) (cfg : LabelHealthConfig.t)
    (index : gmap string nat) (matrix : list (list Z)) :
  deps_inv issues cfg index
    (fold_left (flow_issue cfg index (issue_map issues)) issues
       {| fs_matrix := matrix; fs_totalDeps := 0; fs_depMap := ∅ |}).
Proof.
  apply flow_loop_inv.
  - intros blocker blocked d from to s. apply flow_pair_deps_inv.
  - intros from to d. simpl. by rewrite lookup_empty.
Qed.

(** X9: every label dependency that [ComputeCrossLabelFlow] reports goes
    between two different, non-empty labels of the label list; its count is
    positive and equals the number of its issue IDs and of its blocking
    pairs; each blocking pair records the two labels and stands for a blocks
    dependency between two issues of the collection that the closed-issue
    filter keeps and that carry these labels.  No two reported dependencies
    have the same pair of labels. *)
Theorem cross_label_dependencies_ok (issues : list model.Issue)
    (cfg : LabelHealthConfig.t) :
  let flow := ComputeCrossLabelFlow issues cfg in
  Forall (fun d =>
            dependency_ok issues cfg
              (LabelDependency.FromLabel d) (LabelDependency.ToLabel d) d
            /\ LabelDependency.FromLabel d ∈ CrossLabelFlow.Labels flow
            /\ LabelDependency.ToLabel d ∈ CrossLabelFlow.Labels flow)
    (CrossLabelFlow.Dependencies flow)
  /\ NoDup (dependency_key <$> CrossLabelFlow.Dependencies flow).
Proof.
  intros flow. unfold flow, ComputeCrossLabelFlow. simpl.
  set (labelList := sort.Strings (LabelExtractionResult.Labels (ExtractLabels issues))).
  set (s := fold_left _ issues _).
  assert (Hinv : deps_inv issues cfg (label_index labelList) s)
    by apply flow_loop_deps_inv.
  assert (Hkeys : forall e, e ∈ map_to_list (fs_depMap s) ->
                            dependency_key e.2 = e.1).
  { intros [[from to] d] He. apply elem_of_map_to_list in He.
    destruct (Hinv _ _ _ He) as [(H1 & H2 & _) _]. simpl.
    unfold dependency_key. by rewrite H1, H2. }
  split.
  - apply Forall_forall. intros d Hd.
    apply Slice_elem_of in Hd. apply list_elem_of_fmap in Hd as [[[from to] d'] [-> He]].
    apply elem_of_map_to_list in He. simpl.
    destruct (Hinv _ _ _ He) as [Hok [HiF HiT]].
    pose proof Hok as (H1 & H2 & _). rewrite H1, H2.
    split; [exact Hok|]. split; by apply label_index_dom.
  - rewrite (Slice_Permutation dependency_less).
    rewrite <- list_fmap_compose.
    rewrite (list_fmap_ext _ fst (map_to_list (fs_depMap s))).
    + apply NoDup_fst_map_to_list.
    + intros i e He. simpl. apply Hkeys. by eapply list_elem_of_lookup_2.
Qed.

Lemma row_sum_acc (row : list Z) (a : Z) :
  fold_left Z.add row a = a + row_sum row.
Proof.
  unfold row_sum. revert a. induction row as [|x row IH]; intros a; simpl; [lia|].
  rewrite (IH (a + x)). change (fold_left Z.add row (0 + x)) with (fold_left Z.add row x).
  rewrite (IH x). lia.
Qed.

Lemma row_sum_cons (x : Z) (row : list Z) : row_sum (x :: row) = x + row_sum row.
Proof. unfold row_sum at 1. simpl. apply row_sum_acc. Qed.

Lemma row_sum_alter (row : list Z) (j : nat) :
  (j < length row)%nat -> row_sum (alter Z.succ j row) = row_sum row + 1.
Proof.
  revert j. induction row as [|x row IH]; intros j Hj; simpl in Hj; [lia|].
  destruct j as [|j].
  - change (alter Z.succ 0%nat (x :: row)) with (Z.succ x :: row).
    rewrite !row_sum_cons. lia.
  - change (alter Z.succ (S j) (x :: row)) with (x :: alter Z.succ j row).
    rewrite !row_sum_cons, IH by lia. lia.
Qed.

Lemma row_sum_nonneg (row : list Z) :
  Forall (fun v => 0 <= v) row -> 0 <= row_sum row.
Proof.
  induction 1 as [|x row Hx _ IH]; [done|]. rewrite row_sum_cons. lia.
Qed.

Lemma matrix_sum_alter (matrix : list (list Z)) (i j : nat) (row : list Z) :
  matrix !! i = Some row -> (j < length row)%nat ->
  matrix_sum (alter (alter Z.succ j) i matrix) = matrix_sum matrix + 1.
Proof.
  revert i. induction matrix as [|r matrix IH]; intros i Hi Hj; [done|].
  destruct i as [|i].
  - injection Hi as ->.
    change (alter (alter Z.succ j) 0%nat (row :: matrix))
      with (alter Z.succ j row :: matrix).
    simpl. rewrite row_sum_alter by done. lia.
  - change (alter (alter Z.succ j) (S i) (r :: matrix))
      with (r :: alter (alter Z.succ j) i matrix).
    simpl. rewrite (IH i) by done. lia.
Qed.

Lemma matrix_ok_alter (n : nat) (matrix : list (list Z)) (i j : nat) :
  matrix_ok n matrix -> matrix_ok n (alter (alter Z.succ j) i matrix).
Proof.
  intros [Hlen Hrows]. split; [by rewrite length_alter|].
  apply Forall_alter; [exact Hrows|].
  intros row _ [Hl Hnn]. split; [by rewrite length_alter|].
  apply Forall_alter; [exact Hnn|]. intros. lia.
Qed.

Lemma matrix_at_alter (matrix : list (list Z)) (i j i' j' : nat) :
  matrix_at (alter (alter Z.succ j) i matrix) i' j'
  = if decide (i = i' /\ j = j') then Z.succ <$> matrix_at matrix i' j'
    else matrix_at matrix i' j'.
Proof.
  unfold matrix_at. rewrite list_lookup_alter.
  destruct (decide (i = i')) as [->|Hi].
  - destruct (matrix !! i') as [row|]; simpl; [|by case_decide].
    rewrite list_lookup_alter.
    destruct (decide (j = j')) as [->|Hj].
    + by rewrite decide_True.
    + rewrite decide_False; [done|]. intros [_ ?]. done.
  - rewrite decide_False; [done|]. intros [? _]. done.
Qed.

Lemma matrix_ok_replicate (n : nat) : matrix_ok n (replicate n (replicate n 0)).
Proof.
  split; [by rewrite length_replicate|].
  apply Forall_replicate. split; [by rewrite length_replicate|].
  by apply Forall_replicate.
Qed.

Lemma row_sum_replicate (n : nat) : row_sum (replicate n 0) = 0.
Proof.
  induction n as [|n IH]; [done|]. simpl. rewrite row_sum_cons. lia.
Qed.

Lemma matrix_sum_replicate (k n : nat) : matrix_sum (replicate k (replicate n 0)) = 0.
Proof.
  induction k as [|k IH]; [done|]. simpl. rewrite row_sum_replicate. lia.
Qed.

Lemma matrix_at_replicate (n i j : nat) :
  (i < n)%nat -> (j < n)%nat -> matrix_at (replicate n (replicate n 0)) i j = Some 0.
Proof.
  intros Hi Hj. unfold matrix_at. rewrite lookup_replicate_2 by done. simpl.
  by rewrite lookup_replicate_2.
Qed.

Lemma matrix_at_is_Some (n : nat) (matrix : list (list Z)) (i j : nat) :
  matrix_ok n matrix -> (i < n)%nat -> (j < n)%nat ->
  exists row v, matrix !! i = Some row /\ row !! j = Some v
                /\ matrix_at matrix i j = Some v /\ length row = n.
Proof.
  intros [Hlen Hrows] Hi Hj.
  destruct (lookup_lt_is_Some_2 matrix i) as [row Hrow]; [lia|].
  rewrite Forall_forall in Hrows.
  destruct (Hrows row) as [Hl _]; [by eapply list_elem_of_lookup_2|].
  destruct (lookup_lt_is_Some_2 row j) as [v Hv]; [lia|].
  exists row, v. unfold matrix_at. rewrite Hrow. simpl. by rewrite Hv.
Qed.

Lemma deps_total_perm (l1 l2 : list LabelDependency.t) :
  l1 ≡ₚ l2 -> deps_total l1 = deps_total l2.
Proof.
  induction 1 as [|x l1 l2 _ IH|x y l|l1 l2 l3 _ IH1 _ IH2];
    unfold deps_total in *; simpl; lia.
Qed.

Lemma deps_total_cons (d : LabelDependency.t) (l : list LabelDependency.t) :
  deps_total (d :: l) = LabelDependency.IssueCount d + deps_total l.
Proof. reflexivity. Qed.

Lemma deps_total_insert (depMap : gmap (string * string) LabelDependency.t)
    (k : string * string) (v : LabelDependency.t) :
  deps_total (snd <$> map_to_list (<[k := v]> depMap))
  = deps_total (snd <$> map_to_list depMap)
    - default 0 (LabelDependency.IssueCount <$> depMap !! k)
    + LabelDependency.IssueCount v.
Proof.
  destruct (depMap !! k) as [e|] eqn:He; simpl.
  - rewrite <- (insert_delete_eq depMap).
    rewrite (deps_total_perm _ _
               (fmap_Permutation snd _ _
                  (map_to_list_insert (delete k depMap) k v (lookup_delete_eq _ _)))).
    rewrite <- (insert_delete_id depMap k e He) at 2.
    rewrite (deps_total_perm _ _
               (fmap_Permutation snd _ _
                  (map_to_list_insert (delete k depMap) k e (lookup_delete_eq _ _)))).
    rewrite !fmap_cons, !deps_total_cons. simpl. lia.
  - rewrite (deps_total_perm _ _
               (fmap_Permutation snd _ _ (map_to_list_insert depMap k v He))).
    rewrite fmap_cons, deps_total_cons. simpl. lia.
Qed.

Lemma flow_pair_matrix_inv (n : nat) (index : gmap string nat)
    (blocker blocked : model.Issue) (from to : string) (s : flow_state) :
  (forall l i, index !! l = Some i -> (i < n)%nat) ->
  (forall l1 l2 i, index !! l1 = Some i -> index !! l2 = Some i -> l1 = l2) ->
  matrix_inv n index s ->
  matrix_inv n index (flow_pair index blocker blocked from s to).
Proof.
  intros Hrange Hinj Hs. pose proof Hs as (Hok & Hsum & Htot & Hat).
  unfold flow_pair.
  destruct (String.eqb from "" || String.eqb to "" || String.eqb from to);
    [exact Hs|].
  destruct (index !! from) as [iFrom|] eqn:HiF; [|exact Hs].
  destruct (index !! to) as [iTo|] eqn:HiT; [|exact Hs].
  destruct (matrix_at_is_Some n (fs_matrix s) iFrom iTo Hok)
    as (row & v & Hrow & Hv & Hrv & Hlen); [by eapply Hrange..|].
  assert (Hcount : LabelDependency.IssueCount
            (default {| LabelDependency.FromLabel := from;
                        LabelDependency.ToLabel := to;
                        LabelDependency.IssueCount := 0;
                        LabelDependency.IssueIDs := [];
                        LabelDependency.BlockingPairs := [] |}
               (fs_depMap s !! (from, to)))
          = map_count (fs_depMap s) from to).
  { unfold map_count. by destruct (fs_depMap s !! (from, to)). }
  split; [|split; [|split]]; simpl.
  - by apply matrix_ok_alter.
  - rewrite (matrix_sum_alter _ _ _ row); [lia|done|].
    apply lookup_lt_is_Some. eauto.
  - rewrite deps_total_insert. simpl. rewrite Hcount. unfold map_count. lia.
  - intros f t iF iT HF HT. rewrite matrix_at_alter.
    unfold map_count at 1. rewrite lookup_insert.
    destruct (decide (iFrom = iF /\ iTo = iT)) as [[-> ->]|Hne].
    + rewrite (Hinj _ _ _ HF HiF), (Hinj _ _ _ HT HiT).
      rewrite decide_True by done. simpl.
      rewrite (Hat from to iF iT HiF HiT), Hcount. simpl. f_equal.
    + rewrite decide_False.
      * by apply Hat.
      * intros [= <- <-]. apply Hne. split; congruence.
Qed.

Lemma label_index_fold_spec (labelList : list string) (m : gmap string nat) (k : nat)
    (l : string) (i : nat) :
  NoDup labelList ->
  (fold_left (fun (acc : gmap string nat * nat) l => (<[l := acc.2]> acc.1, S acc.2))
     labelList (m, k)).1 !! l = Some i
  <-> (exists j, labelList !! j = Some l /\ i = (k + j)%nat)
      \/ ((l ∉ labelList) /\ m !! l = Some i).
Proof.
  intros Hnd. revert m k. induction Hnd as [|x xs Hx Hnd IH]; intros m k; simpl.
  - split; [intros H; right; split; [apply not_elem_of_nil|done]|].
    intros [(j & Hj & _)|[_ H]]; [done|done].
  - rewrite IH. split.
    + intros [(j & Hj & ->)|[Hl Hm]].
      * left. exists (S j). split; [done|lia].
      * rewrite lookup_insert in Hm. case_decide as Heq.
        -- subst x. injection Hm as <-. left. exists 0%nat. split; [done|lia].
        -- right. split; [|done]. rewrite not_elem_of_cons. split; [congruence|done].
    + intros [(j & Hj & ->)|[Hl Hm]].
      * destruct j as [|j]; simpl in Hj.
        -- injection Hj as ->. right. split; [done|].
           rewrite lookup_insert_eq. f_equal. lia.
        -- left. exists j. split; [done|lia].
      * apply not_elem_of_cons in Hl as [Hne Hl]. right. split; [done|].
        rewrite lookup_insert_ne by done. done.
Qed.

Lemma label_index_spec (labelList : list string) (l : string) (i : nat) :
  NoDup labelList ->
  label_index labelList !! l = Some i <-> labelList !! i = Some l.
Proof.
  intros Hnd. unfold label_index. rewrite label_index_fold_spec by done.
  rewrite lookup_empty. split.
  - intros [(j & Hj & ->)|[_ H]]; [done|done].
  - intros H. left. by exists i.
Qed.

Lemma ExtractLabels_Labels_NoDup (issues : list model.Issue) :
  NoDup (LabelExtractionResult.Labels (ExtractLabels issues)).
Proof.
  unfold ExtractLabels. destruct (length issues =? 0)%nat; simpl; [constructor|].
  unfold sort.Strings. rewrite Slice_Permutation. apply NoDup_elements.
Qed.

Lemma flow_labelList_NoDup (issues : list model.Issue) :
  NoDup (sort.Strings (LabelExtractionResult.Labels (ExtractLabels issues))).
Proof.
  unfold sort.Strings. rewrite Slice_Permutation. apply ExtractLabels_Labels_NoDup.
Qed.

Lemma flow_loop_matrix_inv (issues : list model.Issue) (cfg : LabelHealthConfig.t)
    (labelList : list string) :
  NoDup labelList ->
  let n := length labelList in
  matrix_inv n (label_index labelList)
    (fold_left (flow_issue cfg (label_index labelList) (issue_map issues)) issues
       {| fs_matrix := replicate n (replicate n 0);
          fs_totalDeps := 0; fs_depMap := ∅ |}).
Proof.
  intros Hnd n.
  assert (Hrange : forall l i, label_index labelList !! l = Some i -> (i < n)%nat).
  { intros l i H. apply label_index_spec in H; [|done]. by eapply lookup_lt_Some. }
  assert (Hinj : forall l1 l2 i, label_index labelList !! l1 = Some i ->
                                 label_index labelList !! l2 = Some i -> l1 = l2).
  { intros l1 l2 i H1 H2. apply label_index_spec in H1, H2; [|done..]. congruence. }
  apply flow_loop_inv.
  - intros blocker blocked d from to s _ _ _ _ _ _ _ _ _.
    by apply flow_pair_matrix_inv.
  - split; [|split; [|split]]; simpl.
    + apply matrix_ok_replicate.
    + by rewrite matrix_sum_replicate.
    + by rewrite map_to_list_empty.
    + intros from to iFrom iTo HF HT. unfold map_count. rewrite lookup_empty. simpl.
      apply matrix_at_replicate; by eapply Hrange.
Qed.

(** X10: the flow matrix of [ComputeCrossLabelFlow] is square, one row and
    one column per label of the label list, and has no negative entry; its
    diagonal is zero; and the total of cross-label dependencies is both the
    sum of all matrix entries and the sum of the counts of the reported
    dependencies. *)
Theorem cross_label_matrix_total (issues : list model.Issue)
    (cfg : LabelHealthConfig.t) :
  let flow := ComputeCrossLabelFlow issues cfg in
  let n := length (CrossLabelFlow.Labels flow) in
  matrix_ok n (CrossLabelFlow.FlowMatrix flow)
  /\ (forall i, (i < n)%nat -> matrix_at (CrossLabelFlow.FlowMatrix flow) i i = Some 0)
  /\ CrossLabelFlow.TotalCrossLabelDeps flow
     = matrix_sum (CrossLabelFlow.FlowMatrix flow)
  /\ CrossLabelFlow.TotalCrossLabelDeps flow
     = deps_total (CrossLabelFlow.Dependencies flow).
Proof.
  intros flow n. unfold n, flow, ComputeCrossLabelFlow. simpl.
  set (labelList := sort.Strings (LabelExtractionResult.Labels (ExtractLabels issues))).
  pose proof (flow_labelList_NoDup issues) as Hnd. fold labelList in Hnd.
  pose proof (flow_loop_matrix_inv issues cfg labelList Hnd) as (Hok & Hsum & Htot & Hat).
  pose proof (flow_loop_deps_inv issues cfg (label_index labelList)
                (replicate (length labelList) (replicate (length labelList) 0)))
    as Hdeps.
  simpl in Hok, Hsum, Htot, Hat.
  set (s := fold_left _ issues _) in *.
  split; [exact Hok|]. split; [|split; [exact Hsum|]].
  - intros i Hi. destruct (lookup_lt_is_Some_2 labelList i Hi) as [l Hl].
    apply label_index_spec in Hl; [|done].
    rewrite (Hat l l i i Hl Hl). unfold map_count.
    destruct (fs_depMap s !! (l, l)) as [d|] eqn:Hd; [|done].
    destruct (Hdeps _ _ _ Hd) as [(_ & _ & _ & _ & Hne & _) _]. done.
  - rewrite Htot. apply deps_total_perm. symmetry. apply Slice_Permutation.
Qed.

Lemma list_find_key (deps : list LabelDependency.t) (k : string * string) :
  NoDup (dependency_key <$> deps) ->
  forall d, d ∈ deps -> dependency_key d = k ->
  exists i, list_find (fun d => dependency_key d = k) deps = Some (i, d).
Proof.
  intros Hnd d Hd Hk.
  destruct (list_find (fun d => dependency_key d = k) deps) as [[i d']|] eqn:Hf.
  - apply list_find_Some in Hf as (Hi & Hk' & _). exists i. do 2 f_equal.
    apply list_elem_of_lookup in Hd as [j Hj].
    assert (i = j); [|congruence].
    eapply (NoDup_lookup _ i j (dependency_key d')); [exact Hnd|..].
    + by rewrite list_lookup_fmap, Hi.
    + rewrite list_lookup_fmap, Hj. simpl. congruence.
  - apply list_find_None in Hf. rewrite Forall_forall in Hf. by destruct (Hf d Hd).
Qed.

(** X11: the matrix entry at the positions of two labels of the label list
    is the count of the reported dependency between them, and [0] when no
    dependency between them is reported. *)
Theorem cross_label_matrix_entry (issues : list model.Issue)
    (cfg : LabelHealthConfig.t) (i j : nat) (from to : string) :
  let flow := ComputeCrossLabelFlow issues cfg in
  CrossLabelFlow.Labels flow !! i = Some from ->
  CrossLabelFlow.Labels flow !! j = Some to ->
  matrix_at (CrossLabelFlow.FlowMatrix flow) i j
  = Some (dependency_count (CrossLabelFlow.Dependencies flow) from to).
Proof.
  intros flow. unfold flow, ComputeCrossLabelFlow. simpl.
  set (labelList := sort.Strings (LabelExtractionResult.Labels (ExtractLabels issues))).
  pose proof (flow_labelList_NoDup issues) as Hnd. fold labelList in Hnd.
  pose proof (flow_loop_matrix_inv issues cfg labelList Hnd) as (_ & _ & _ & Hat).
  pose proof (flow_loop_deps_inv issues cfg (label_index labelList)
                (replicate (length labelList) (replicate (length labelList) 0)))
    as Hdeps.
  simpl in Hat.
  set (s := fold_left _ issues _) in *.
  intros Hi Hj. apply label_index_spec in Hi, Hj; [|done..].
  rewrite (Hat from to i j Hi Hj). f_equal.
  assert (Hkeys : forall e, e ∈ map_to_list (fs_depMap s) ->
                            dependency_key e.2 = e.1).
  { intros [[f t] d] He. apply elem_of_map_to_list in He.
    destruct (Hdeps _ _ _ He) as [(H1 & H2 & _) _]. simpl.
    unfold dependency_key. by rewrite H1, H2. }
  assert (Hnd' : NoDup (dependency_key <$>
                          sort.Slice dependency_less (snd <$> map_to_list (fs_depMap s)))).
  { rewrite (Slice_Permutation dependency_less), <- list_fmap_compose.
    rewrite (list_fmap_ext _ fst (map_to_list (fs_depMap s))).
    - apply NoDup_fst_map_to_list.
    - intros k e He. simpl. apply Hkeys. by eapply list_elem_of_lookup_2. }
  unfold map_count, dependency_count.
  destruct (fs_depMap s !! (from, to)) as [d|] eqn:Hd; simpl.
  - destruct (list_find_key _ (from, to) Hnd' d) as [k ->]; [| |done].
    + apply Slice_elem_of, list_elem_of_fmap. exists ((from, to), d).
      split; [done|]. by apply elem_of_map_to_list.
    + apply (Hkeys ((from, to), d)). by apply elem_of_map_to_list.
  - destruct (list_find _ _) as [[k d]|] eqn:Hf; [|done].
    apply list_find_Some in Hf as (Hk & Hkey & _).
    apply list_elem_of_lookup_2, Slice_elem_of, list_elem_of_fmap in Hk
      as [[[f t] d'] [-> He]].
    pose proof (Hkeys _ He) as Hke. simpl in Hke, Hkey.
    rewrite Hkey in Hke. injection Hke as <- <-.
    apply elem_of_map_to_list in He. congruence.
Qed.

Lemma cross_label_matrix_entry_witness :
  matrix_at (CrossLabelFlow.FlowMatrix
               (ComputeCrossLabelFlow flow_test_issues DefaultLabelHealthConfig)) 0 2
  = Some (dependency_count
            (CrossLabelFlow.Dependencies
               (ComputeCrossLabelFlow flow_test_issues DefaultLabelHealthConfig))
            "api" "ui").
Proof.
  apply (cross_label_matrix_entry flow_test_issues DefaultLabelHealthConfig
           0 2 "api" "ui"); vm_compute; reflexivity.
Defined.

(** ** Bottleneck labels *)

Lemma out_counts_loop (labelList : list string) (matrix : list (list Z)) :
  out_counts labelList matrix = (out_loop labelList matrix).1.
Proof. reflexivity. Qed.

Lemma out_loop_snoc (labelList : list string) (matrix : list (list Z)) (row : list Z) :
  out_loop labelList (matrix ++ [row])
  = let '(outCounts, maxOut, i) := out_loop labelList matrix in
    (match labelList !! i with
     | Some l => <[l := row_sum row]> outCounts
     | None => outCounts
     end,
     (if maxOut <? row_sum row then row_sum row else maxOut), S i).
Proof. unfold out_loop. rewrite fold_left_app. reflexivity. Qed.

Lemma out_loop_spec (labelList : list string) (matrix : list (list Z)) :
  NoDup labelList ->
  let '(outCounts, maxOut, i) := out_loop labelList matrix in
  i = length matrix
  /\ (forall l c, outCounts !! l = Some c
                  <-> exists j row, matrix !! j = Some row
                                    /\ labelList !! j = Some l /\ c = row_sum row)
  /\ 0 <= maxOut
  /\ Forall (fun r => row_sum r <= maxOut) matrix
  /\ (maxOut = 0 \/ exists r, r ∈ matrix /\ maxOut = row_sum r).
Proof.
  intros Hnd. induction matrix as [|row matrix IH] using rev_ind.
  - simpl. split; [done|]. split; [|split; [done|split; [constructor|by left]]].
    intros l c. rewrite lookup_empty. split; [done|].
    intros (j & r & Hr & _). done.
  - rewrite out_loop_snoc.
    destruct (out_loop labelList matrix) as [[oc mx] i].
    destruct IH as (-> & Hoc & Hmx0 & Hle & Hatt).
    split; [rewrite length_app; simpl; lia|]. split; [|split; [|split]].
    + intros l c. split.
      * intros Hl.
        destruct (labelList !! length matrix) as [l0|] eqn:Hl0.
        -- rewrite lookup_insert in Hl. case_decide as Heq.
           ++ subst l0. injection Hl as <-. exists (length matrix), row.
              split; [|done]. apply lookup_snoc_Some. by right.
           ++ apply Hoc in Hl as (j & r & Hr & Hj & ->). exists j, r.
              split; [|done]. apply lookup_snoc_Some. left.
              split; [by eapply lookup_lt_Some|done].
        -- apply Hoc in Hl as (j & r & Hr & Hj & ->). exists j, r.
           split; [|done]. apply lookup_snoc_Some. left.
           split; [by eapply lookup_lt_Some|done].
      * intros (j & r & Hr & Hj & ->).
        apply lookup_snoc_Some in Hr as [[Hlt Hr]|[-> ->]].
        -- assert (Hold : oc !! l = Some (row_sum r)) by (apply Hoc; eauto).
           destruct (labelList !! length matrix) as [l0|] eqn:Hl0; [|done].
           rewrite lookup_insert_ne; [done|]. intros ->.
           assert (length matrix = j) by (by eapply NoDup_lookup). lia.
        -- rewrite Hj. by rewrite lookup_insert_eq.
    + destruct (Z.ltb_spec mx (row_sum row)); lia.
    + apply Forall_app. split.
      * eapply Forall_impl; [exact Hle|]. simpl. intros r Hr.
        destruct (Z.ltb_spec mx (row_sum row)); lia.
      * constructor; [|constructor].
        destruct (Z.ltb_spec mx (row_sum row)); lia.
    + destruct (Z.ltb_spec mx (row_sum row)).
      * right. exists row. split; [|done]. apply elem_of_app. right. by left.
      * destruct Hatt as [->|(r & Hr & ->)]; [by left|].
        right. exists r. split; [|done]. apply elem_of_app. by left.
Qed.

Lemma bottleneck_labels_spec (labelList : list string) (matrix : list (list Z))
    (l : string) :
  NoDup labelList ->
  l ∈ bottleneck_labels labelList matrix
  <-> exists i row, labelList !! i = Some l /\ matrix !! i = Some row
                    /\ max_row matrix row.
Proof.
  intros Hnd. unfold bottleneck_labels. rewrite out_counts_loop.
  pose proof (out_loop_spec labelList matrix Hnd) as Hspec.
  destruct (out_loop labelList matrix) as [[oc mx] i]. simpl.
  destruct Hspec as (_ & Hoc & Hmx0 & Hle & Hatt).
  rewrite Strings_elem_of, list_elem_of_fmap. split.
  - intros ([l' c] & -> & He). apply list_elem_of_filter in He as [[Hc Hpos] He].
    simpl in *. apply elem_of_map_to_list, Hoc in He as (j & r & Hr & Hj & ->).
    exists j, r. split; [done|]. split; [done|]. split; [done|]. by rewrite Hc.
  - intros (j & r & Hj & Hr & Hpos & Hmax).
    exists (l, row_sum r). split; [done|]. apply list_elem_of_filter. simpl.
    split; [|apply elem_of_map_to_list, Hoc; eauto].
    split; [|done].
    assert (row_sum r <= mx).
    { rewrite Forall_forall in Hle. apply Hle. by eapply list_elem_of_lookup_2. }
    destruct Hatt as [->|(r' & Hr' & ->)]; [lia|].
    rewrite Forall_forall in Hmax. specialize (Hmax r' Hr'). lia.
Qed.

Lemma bottleneck_labels_NoDup (labelList : list string) (matrix : list (list Z)) :
  NoDup (bottleneck_labels labelList matrix).
Proof.
  unfold bottleneck_labels. destruct (out_counts labelList matrix) as [oc mx].
  unfold sort.Strings. rewrite Slice_Permutation.
  eapply sublist_NoDup; [apply (NoDup_fst_map_to_list oc)|].
  apply fmap_sublist, sublist_filter.
Qed.

Lemma matrix_sum_nonneg (matrix : list (list Z)) :
  Forall (fun row => 0 <= row_sum row) matrix -> 0 <= matrix_sum matrix.
Proof. induction 1 as [|x l Hx _ IHl]; simpl; lia. Qed.

Lemma matrix_sum_pos (matrix : list (list Z)) :
  Forall (fun row => 0 <= row_sum row) matrix ->
  0 < matrix_sum matrix <-> exists row, row ∈ matrix /\ 0 < row_sum row.
Proof.
  induction 1 as [|r matrix Hr Hnn IH]; simpl.
  - split; [lia|]. intros (row & Hrow & _). by apply elem_of_nil in Hrow.
  - split.
    + intros Hpos. destruct (decide (0 < row_sum r)) as [Hr'|Hr'].
      * exists r. split; [by left|done].
      * destruct IH as [IH _]. destruct IH as (row & Hrow & Hp); [lia|].
        exists row. split; [by right|done].
    + intros (row & Hrow & Hp). apply elem_of_cons in Hrow as [->|Hrow]; [|].
      * pose proof (matrix_sum_nonneg matrix Hnn). lia.
      * assert (0 < matrix_sum matrix) by (apply IH; eauto). lia.
Qed.

Lemma max_row_exists (matrix : list (list Z)) :
  (exists row, row ∈ matrix /\ 0 < row_sum row) ->
  exists row, row ∈ matrix /\ max_row matrix row.
Proof.
  induction matrix as [|r matrix IH]; intros (row & Hrow & Hpos).
  - by apply elem_of_nil in Hrow.
  - destruct (decide (Exists (fun row => 0 < row_sum row) matrix)) as [Hex|Hno];
      rewrite Exists_exists in *.
    + destruct (IH Hex) as (m & Hm & Hmp & Hmax).
      destruct (decide (row_sum m < row_sum r)) as [Hlt|Hge].
      * exists r. split; [by left|]. split; [lia|]. constructor; [lia|].
        eapply Forall_impl; [exact Hmax|]. simpl. intros. lia.
      * exists m. split; [by right|]. split; [done|]. constructor; [lia|done].
    + apply elem_of_cons in Hrow as [->|Hrow]; [|destruct Hno; eauto].
      exists r. split; [by left|]. split; [done|]. constructor; [lia|].
      apply Forall_forall. intros r' Hr'.
      destruct (decide (0 < row_sum r')); [destruct Hno; eauto|lia].
Qed.

(** X12: a label is a bottleneck label exactly when it is the label of a
    matrix row whose sum is positive and is not exceeded by the sum of any
    other row.  The bottleneck labels are listed once each in ascending
    order, and the list is empty exactly when there is no cross-label
    dependency at all. *)
Theorem cross_label_bottlenecks (issues : list model.Issue)
    (cfg : LabelHealthConfig.t) :
  let flow := ComputeCrossLabelFlow issues cfg in
  (forall l, l ∈ CrossLabelFlow.BottleneckLabels flow
             <-> exists i row,
                   CrossLabelFlow.Labels flow !! i = Some l
                   /\ CrossLabelFlow.FlowMatrix flow !! i = Some row
                   /\ max_row (CrossLabelFlow.FlowMatrix flow) row)
  /\ NoDup (CrossLabelFlow.BottleneckLabels flow)
  /\ StronglySorted string_le (CrossLabelFlow.BottleneckLabels flow)
  /\ (CrossLabelFlow.BottleneckLabels flow = []
      <-> CrossLabelFlow.TotalCrossLabelDeps flow = 0).
Proof.
  intros flow. unfold flow, ComputeCrossLabelFlow. simpl.
  set (labelList := sort.Strings (LabelExtractionResult.Labels (ExtractLabels issues))).
  pose proof (flow_labelList_NoDup issues) as Hnd. fold labelList in Hnd.
  pose proof (flow_loop_matrix_inv issues cfg labelList Hnd) as ([Hlen Hrows] & Hsum & _).
  simpl in Hlen, Hrows, Hsum.
  set (s := fold_left _ issues _) in *.
  assert (Hnn : Forall (fun row => 0 <= row_sum row) (fs_matrix s)).
  { eapply Forall_impl; [exact Hrows|]. simpl. intros row [_ H].
    by apply row_sum_nonneg. }
  split; [intros l; by apply bottleneck_labels_spec|].
  split; [apply bottleneck_labels_NoDup|].
  split.
  { unfold bottleneck_labels. destruct (out_counts labelList (fs_matrix s)).
    apply Strings_StronglySorted. }
  rewrite Hsum. split.
  - intros Hnil. destruct (decide (0 < matrix_sum (fs_matrix s))) as [Hpos|Hz].
    + apply matrix_sum_pos in Hpos; [|done].
      apply max_row_exists in Hpos as (row & Hrow & Hmax).
      apply list_elem_of_lookup in Hrow as [i Hi].
      destruct (lookup_lt_is_Some_2 labelList i) as [l Hl].
      { rewrite <- Hlen. by eapply lookup_lt_Some. }
      assert (Hin : l ∈ bottleneck_labels labelList (fs_matrix s)).
      { apply bottleneck_labels_spec; [done|]. eauto. }
      rewrite Hnil in Hin. by apply elem_of_nil in Hin.
    + pose proof (matrix_sum_nonneg _ Hnn). lia.
  - intros Hz.
    destruct (bottleneck_labels labelList (fs_matrix s)) as [|l ls] eqn:Hb; [done|].
    assert (Hin : l ∈ bottleneck_labels labelList (fs_matrix s))
      by (rewrite Hb; left).
    apply bottleneck_labels_spec in Hin as (i & row & _ & Hrow & Hpos & _); [|done].
    assert (0 < matrix_sum (fs_matrix s)); [|lia].
    apply matrix_sum_pos; [done|]. exists row.
    split; [by eapply list_elem_of_lookup_2|done].
Qed.

(** ** Health of one label, further *)

Lemma NeedsAttention_level (score : Z) :
  (score <? HealthyThreshold) = needs_attention_levelb (HealthLevelFromScore score).
Proof.
  unfold HealthLevelFromScore, HealthyThreshold, WarningThreshold.
  destruct (Z.ltb_spec score 70), (Z.leb_spec 70 score), (Z.leb_spec 40 score);
    try lia; reflexivity.
Qed.

Section EngineFurther.
Variable indefinite : float -> Z.
Variable Analyze : list model.Issue -> GraphStats.t.
Variable findMax : gmap string float -> float.

(** X13: the health of a label always carries the label it was asked for,
    the level that [HealthLevelFromScore] gives to its score, and the IDs of
    the issues that [GetLabelIssues] finds for the label, in that order, the
    issue count being their number; the label needs attention exactly when
    its level is warning or critical. *)
Theorem label_health_consistent (label : string) (issues : list model.Issue)
    (cfg : LabelHealthConfig.t) (now : time.Time) (stats : option GraphStats.t) :
  let h := ComputeLabelHealthForLabel indefinite Analyze findMax label issues cfg now stats in
  LabelHealth.Label h = label
  /\ LabelHealth.HealthLevel h = HealthLevelFromScore (LabelHealth.Health h)
  /\ (NeedsAttention h = true <-> needs_attention_level (LabelHealth.HealthLevel h))
  /\ LabelHealth.Issues h = model.ID <$> GetLabelIssues issues label
  /\ LabelHealth.IssueCount h = Z.of_nat (length (LabelHealth.Issues h)).
Proof.
  intros h.
  assert (H : LabelHealth.Label h = label
              /\ LabelHealth.HealthLevel h = HealthLevelFromScore (LabelHealth.Health h)
              /\ LabelHealth.Issues h = model.ID <$> GetLabelIssues issues label
              /\ LabelHealth.IssueCount h = Z.of_nat (length (LabelHealth.Issues h))).
  { subst h. unfold ComputeLabelHealthForLabel.
    change (labeled_issues label issues) with (GetLabelIssues issues label).
    destruct (Z.of_nat (length (GetLabelIssues issues label)) =? 0).
    - simpl. rewrite length_fmap. done.
    - destruct (fold_left count_status _ _) as [[closed open] blocked]. simpl.
      rewrite length_fmap. done. }
  destruct H as (Hl & Hlevel & Hids & Hcount).
  split; [done|]. split; [done|]. split; [|done].
  unfold NeedsAttention. rewrite Hlevel, NeedsAttention_level.
  apply needs_attention_levelb_spec.
Qed.

(** X14: a label that no issue carries gets health 0 at the critical level,
    no issue, and the default component scores 100, 100, 100 and 50, which
    the composite formula would turn into 88 under the default weights; a
    label with member issues gets the composite of its four component
    scores, the velocity and freshness being computed from the member
    issues alone. *)
Theorem label_health_members (label : string) (issues : list model.Issue)
    (cfg : LabelHealthConfig.t) (now : time.Time) (stats : option GraphStats.t) :
  let h := ComputeLabelHealthForLabel indefinite Analyze findMax label issues cfg now stats in
  let members := GetLabelIssues issues label in
  (members = [] ->
     LabelHealth.Health h = 0
     /\ LabelHealth.HealthLevel h = HealthLevelCritical
     /\ LabelHealth.IssueCount h = 0
     /\ LabelHealth.Issues h = []
     /\ VelocityMetrics.VelocityScore (LabelHealth.Velocity h) = 100
     /\ FreshnessMetrics.FreshnessScore (LabelHealth.Freshness h) = 100
     /\ FlowMetrics.FlowScore (LabelHealth.Flow h) = 100
     /\ CriticalityMetrics.CriticalityScore (LabelHealth.Criticality h) = 50
     /\ ComputeCompositeHealth indefinite 100 100 100 50 DefaultLabelHealthConfig = 88)
  /\ (members <> [] ->
        LabelHealth.Health h
        = ComputeCompositeHealth indefinite
            (VelocityMetrics.VelocityScore (LabelHealth.Velocity h))
            (FreshnessMetrics.FreshnessScore (LabelHealth.Freshness h))
            (FlowMetrics.FlowScore (LabelHealth.Flow h))
            (CriticalityMetrics.CriticalityScore (LabelHealth.Criticality h)) cfg
        /\ LabelHealth.Velocity h = ComputeVelocityMetrics indefinite members now
        /\ LabelHealth.Freshness h
           = ComputeFreshnessMetrics indefinite members now
               (LabelHealthConfig.StaleThresholdDays cfg)
        /\ 0 < LabelHealth.IssueCount h).
Proof.
  intros h members. subst h. unfold ComputeLabelHealthForLabel.
  change (labeled_issues label issues) with members.
  split.
  - intros ->. simpl. repeat split.
  - intros Hne.
    destruct (Z.eqb_spec (Z.of_nat (length members)) 0) as [Hz|Hz].
    + destruct members; [done|simpl in Hz; lia].
    + destruct (fold_left count_status _ _) as [[closed open] blocked]. simpl.
      repeat split. lia.
Qed.

End EngineFurther.

(** ** Flow of one label *)

Lemma fold_left_reach {A B} (P : A -> Prop) (f : A -> B -> A) (l : list B) (x : B)
    (s0 : A) :
  x ∈ l -> (forall s, P (f s x)) -> (forall s y, P s -> P (f s y)) ->
  P (fold_left f l s0).
Proof.
  intros Hx Hest Hkeep. revert s0. induction l as [|y l IH]; intros s0.
  - by apply elem_of_nil in Hx.
  - simpl. apply elem_of_cons in Hx as [<-|Hx].
    + apply fold_left_inv; [apply Hest|]. intros s y _. apply Hkeep.
    + by apply IH.
Qed.

Lemma size_add_le (x : string) (X : gset string) :
  (size ({[x]} ∪ X) <= S (size X))%nat.
Proof.
  destruct (decide (x ∈ X)) as [Hin|Hout].
  - rewrite (subseteq_union_1_L {[x]} X); [lia|]. by apply singleton_subseteq_l.
  - rewrite size_union by (by apply disjoint_singleton_l).
    rewrite size_singleton. lia.
Qed.

(** An invariant of the flow counters of a label that every counted blocker
    label and every counted target label keep is kept by the whole loop. *)
Lemma label_flow_loop_inv (P : label_flow_state -> Prop) (label : string)
    (issues members : list model.Issue) (s0 : label_flow_state) :
  (forall iss d bl s,
     iss ∈ members -> Some d ∈ model.Dependencies iss ->
     model.Type_ d = model.DepBlocks ->
     bl ∈ GetLabelsForIssue issues (model.DependsOnID d) -> bl <> label -> P s ->
     P {| lf_incoming := lf_incoming s + 1; lf_outgoing := lf_outgoing s;
          lf_seenIn := {[bl]} ∪ lf_seenIn s; lf_seenOut := lf_seenOut s |}) ->
  (forall iss d tl s,
     iss ∈ members -> Some d ∈ model.Dependencies iss ->
     model.Type_ d = model.DepBlocks ->
     tl ∈ model.Labels iss -> tl <> label -> P s ->
     P {| lf_incoming := lf_incoming s; lf_outgoing := lf_outgoing s + 1;
          lf_seenIn := lf_seenIn s; lf_seenOut := {[tl]} ∪ lf_seenOut s |}) ->
  P s0 ->
  P (fold_left
       (fun s iss => fold_left (label_flow_dep label issues iss) (model.Dependencies iss) s)
       members s0).
Proof.
  intros Hin Hout H0. apply fold_left_inv; [done|].
  intros s iss Hiss Hs. apply fold_left_inv; [done|].
  intros s1 dep Hdep Hs1. unfold label_flow_dep. destruct dep as [d|]; [|done].
  destruct (String.eqb_spec (model.Type_ d) model.DepBlocks) as [Hty|]; simpl; [|done].
  apply fold_left_inv.
  - apply fold_left_inv; [done|]. intros s2 bl Hbl Hs2.
    destruct (String.eqb_spec bl label); simpl; [done|]. by apply (Hin iss d).
  - intros s2 tl Htl Hs2. destruct (String.eqb_spec tl label); [done|].
    by apply (Hout iss d).
Qed.

Lemma label_flow_dep_mono (label : string) (issues : list model.Issue)
    (iss : model.Issue) (s : label_flow_state) (dep : option model.Dependency) :
  lf_seenIn s ⊆ lf_seenIn (label_flow_dep label issues iss s dep)
  /\ lf_seenOut s ⊆ lf_seenOut (label_flow_dep label issues iss s dep).
Proof.
  unfold label_flow_dep. destruct dep as [d|]; [|done].
  destruct (negb _); [done|].
  apply (fold_left_inv
           (fun s' => lf_seenIn s ⊆ lf_seenIn s' /\ lf_seenOut s ⊆ lf_seenOut s')).
  - apply (fold_left_inv
             (fun s' => lf_seenIn s ⊆ lf_seenIn s' /\ lf_seenOut s ⊆ lf_seenOut s'));
      [done|].
    intros s' bl _ [H1 H2]. destruct (negb _); simpl; [|done]. split; set_solver.
  - intros s' tl _ [H1 H2]. destruct (String.eqb tl label); simpl; [done|].
    split; set_solver.
Qed.

Lemma label_flow_loop_in (label : string) (issues members : list model.Issue)
    (s0 : label_flow_state) (l : string) :
  flow_in_source label issues members l ->
  l ∈ lf_seenIn
        (fold_left
           (fun s iss =>
              fold_left (label_flow_dep label issues iss) (model.Dependencies iss) s)
           members s0).
Proof.
  intros (Hne & iss & d & Hiss & Hd & Hty & Hl).
  apply (fold_left_reach (fun s => l ∈ lf_seenIn s) _ members iss); [done| |].
  - intros s.
    apply (fold_left_reach (fun s => l ∈ lf_seenIn s) _ _ (Some d)); [done| |].
    + intros s1. unfold label_flow_dep. rewrite Hty. simpl.
      apply fold_left_inv.
      * apply (fold_left_reach (fun s => l ∈ lf_seenIn s) _ _ l); [done| |].
        -- intros s2. destruct (String.eqb_spec l label); [done|]. simpl. set_solver.
        -- intros s2 y H. destruct (negb _); simpl; [set_solver|done].
      * intros s2 tl _ H. by destruct (String.eqb tl label).
    + intros s1 dep H. by apply label_flow_dep_mono.
  - intros s y H. apply fold_left_inv; [done|].
    intros s1 dep _ H1. by apply label_flow_dep_mono.
Qed.

Lemma label_flow_loop_out (label : string) (issues members : list model.Issue)
    (s0 : label_flow_state) (l : string) :
  flow_out_source label members l ->
  l ∈ lf_seenOut
        (fold_left
           (fun s iss =>
              fold_left (label_flow_dep label issues iss) (model.Dependencies iss) s)
           members s0).
Proof.
  intros (Hne & iss & d & Hiss & Hd & Hty & Hl).
  apply (fold_left_reach (fun s => l ∈ lf_seenOut s) _ members iss); [done| |].
  - intros s.
    apply (fold_left_reach (fun s => l ∈ lf_seenOut s) _ _ (Some d)); [done| |].
    + intros s1. unfold label_flow_dep. rewrite Hty. simpl.
      apply (fold_left_reach (fun s => l ∈ lf_seenOut s) _ _ l); [done| |].
      * intros s2. destruct (String.eqb_spec l label); [done|]. simpl. set_solver.
      * intros s2 y H. destruct (String.eqb y label); simpl; [done|set_solver].
    + intros s1 dep H. by apply label_flow_dep_mono.
  - intros s y H. apply fold_left_inv; [done|].
    intros s1 dep _ H1. by apply label_flow_dep_mono.
Qed.

Lemma Strings_nil_iff (xs : list string) : sort.Strings xs = [] <-> xs = [].
Proof.
  split; [|by intros ->].
  intros H. apply Permutation_nil_r. rewrite <- H. unfold sort.Strings.
  by rewrite Slice_Permutation.
Qed.

Lemma Strings_length (xs : list string) : length (sort.Strings xs) = length xs.
Proof. unfold sort.Strings. by rewrite Slice_Permutation. Qed.

Lemma Strings_NoDup (xs : list string) : NoDup xs -> NoDup (sort.Strings xs).
Proof. unfold sort.Strings. by rewrite Slice_Permutation. Qed.

Lemma label_flow_spec (label : string) (issues members : list model.Issue) :
  let f := label_flow label issues members in
  (forall l, l ∈ FlowMetrics.IncomingLabels f <-> flow_in_source label issues members l)
  /\ (forall l, l ∈ FlowMetrics.OutgoingLabels f <-> flow_out_source label members l)
  /\ Z.of_nat (length (FlowMetrics.IncomingLabels f)) <= FlowMetrics.IncomingDeps f
  /\ Z.of_nat (length (FlowMetrics.OutgoingLabels f)) <= FlowMetrics.OutgoingDeps f
  /\ (FlowMetrics.IncomingLabels f = [] <-> FlowMetrics.IncomingDeps f = 0)
  /\ (FlowMetrics.OutgoingLabels f = [] <-> FlowMetrics.OutgoingDeps f = 0).
Proof.
  unfold label_flow. cbv zeta. simpl.
  set (s0 := {| lf_incoming := 0; lf_outgoing := 0; lf_seenIn := ∅; lf_seenOut := ∅ |}).
  set (s := fold_left _ members s0).
  assert (Hsound : (forall l, l ∈ lf_seenIn s -> flow_in_source label issues members l)
                   /\ (forall l, l ∈ lf_seenOut s -> flow_out_source label members l)).
  { apply (label_flow_loop_inv
             (fun s => (forall l, l ∈ lf_seenIn s -> flow_in_source label issues members l)
                       /\ (forall l, l ∈ lf_seenOut s ->
                                     flow_out_source label members l))).
    - intros iss d bl s' Hiss Hd Hty Hbl Hne [H1 H2]. simpl. split; [|done].
      intros l Hl. apply elem_of_union in Hl as [Hl|Hl]; [|by apply H1].
      apply elem_of_singleton in Hl as ->. split; [done|]. by exists iss, d.
    - intros iss d tl s' Hiss Hd Hty Htl Hne [H1 H2]. simpl. split; [done|].
      intros l Hl. apply elem_of_union in Hl as [Hl|Hl]; [|by apply H2].
      apply elem_of_singleton in Hl as ->. split; [done|]. by exists iss, d.
    - simpl. split; intros l Hl; by apply elem_of_empty in Hl. }
  assert (Hcount : (Z.of_nat (size (lf_seenIn s)) <= lf_incoming s
                    /\ (lf_seenIn s = ∅ -> lf_incoming s = 0))
                   /\ (Z.of_nat (size (lf_seenOut s)) <= lf_outgoing s
                       /\ (lf_seenOut s = ∅ -> lf_outgoing s = 0))).
  { apply (label_flow_loop_inv
             (fun s => (Z.of_nat (size (lf_seenIn s)) <= lf_incoming s
                        /\ (lf_seenIn s = ∅ -> lf_incoming s = 0))
                       /\ (Z.of_nat (size (lf_seenOut s)) <= lf_outgoing s
                           /\ (lf_seenOut s = ∅ -> lf_outgoing s = 0)))).
    - intros iss d bl s' _ _ _ _ _ [[H1 H2] H3]. simpl. split; [|done]. split.
      + pose proof (size_add_le bl (lf_seenIn s')). lia.
      + intros He.
        assert (Hin : bl ∈ ({[bl]} ∪ lf_seenIn s' : gset string))
          by (by apply elem_of_union_l, elem_of_singleton).
        rewrite He in Hin. by apply elem_of_empty in Hin.
    - intros iss d tl s' _ _ _ _ _ [H3 [H1 H2]]. simpl. split; [done|]. split.
      + pose proof (size_add_le tl (lf_seenOut s')). lia.
      + intros He.
        assert (Hin : tl ∈ ({[tl]} ∪ lf_seenOut s' : gset string))
          by (by apply elem_of_union_l, elem_of_singleton).
        rewrite He in Hin. by apply elem_of_empty in Hin.
    - unfold s0. cbn [lf_seenIn lf_incoming lf_seenOut lf_outgoing].
      rewrite size_empty. repeat split; lia. }
  destruct Hsound as [Hsi Hso]. destruct Hcount as [[Hci Hzi] [Hco Hzo]].
  split; [|split; [|split; [|split; [|split]]]].
  - intros l. rewrite Strings_elem_of, elem_of_elements. split; [apply Hsi|].
    apply label_flow_loop_in.
  - intros l. rewrite Strings_elem_of, elem_of_elements. split; [apply Hso|].
    apply label_flow_loop_out.
  - rewrite Strings_length. exact Hci.
  - rewrite Strings_length. exact Hco.
  - rewrite Strings_nil_iff, elements_empty_iff. split.
    + intros He. apply Hzi. by apply leibniz_equiv.
    + intros Hz. rewrite Hz in Hci.
      assert (size (lf_seenIn s) = 0%nat) as Hs by lia.
      by apply size_empty_iff in Hs.
  - rewrite Strings_nil_iff, elements_empty_iff. split.
    + intros He. apply Hzo. by apply leibniz_equiv.
    + intros Hz. rewrite Hz in Hco.
      assert (size (lf_seenOut s) = 0%nat) as Hs by lia.
      by apply size_empty_iff in Hs.
Qed.

Section FlowOfLabel.
Variable indefinite : float -> Z.
Variable Analyze : list model.Issue -> GraphStats.t.
Variable findMax : gmap string float -> float.

Lemma label_health_flow (label : string) (issues : list model.Issue)
    (cfg : LabelHealthConfig.t) (now : time.Time) (stats : option GraphStats.t) :
  LabelHealth.Flow
    (ComputeLabelHealthForLabel indefinite Analyze findMax label issues cfg now stats)
  = label_flow label issues (GetLabelIssues issues label).
Proof.
  unfold ComputeLabelHealthForLabel.
  change (labeled_issues label issues) with (GetLabelIssues issues label).
  destruct (Z.eqb_spec (Z.of_nat (length (GetLabelIssues issues label))) 0) as [Hz|Hz].
  - destruct (GetLabelIssues issues label); [|simpl in Hz; lia]. reflexivity.
  - by destruct (fold_left count_status _ _) as [[closed open] blocked].
Qed.

(** X15: in the flow metrics of a label health, the incoming labels are
    exactly the labels other than the label itself that [GetLabelsForIssue]
    finds on the blocker of a blocks dependency of a member issue, and the
    outgoing labels are exactly the other labels carried by a member issue
    that has a blocks dependency, whether its blocker exists or not.  Both
    lists are sorted without repetition and never longer than the
    corresponding counter, a list being empty exactly when its counter is 0;
    the flow score is 100 exactly when there is no incoming dependency, and
    the two external counters are never set. *)
Theorem label_health_flow_labels (label : string) (issues : list model.Issue)
    (cfg : LabelHealthConfig.t) (now : time.Time) (stats : option GraphStats.t) :
  let h := ComputeLabelHealthForLabel indefinite Analyze findMax label issues cfg now stats in
  let f := LabelHealth.Flow h in
  let members := GetLabelIssues issues label in
  (forall l, l ∈ FlowMetrics.IncomingLabels f <-> flow_in_source label issues members l)
  /\ (forall l, l ∈ FlowMetrics.OutgoingLabels f <-> flow_out_source label members l)
  /\ NoDup (FlowMetrics.IncomingLabels f)
  /\ NoDup (FlowMetrics.OutgoingLabels f)
  /\ StronglySorted string_le (FlowMetrics.IncomingLabels f)
  /\ StronglySorted string_le (FlowMetrics.OutgoingLabels f)
  /\ Z.of_nat (length (FlowMetrics.IncomingLabels f)) <= FlowMetrics.IncomingDeps f
  /\ Z.of_nat (length (FlowMetrics.OutgoingLabels f)) <= FlowMetrics.OutgoingDeps f
  /\ (FlowMetrics.IncomingLabels f = [] <-> FlowMetrics.IncomingDeps f = 0)
  /\ (FlowMetrics.OutgoingLabels f = [] <-> FlowMetrics.OutgoingDeps f = 0)
  /\ (FlowMetrics.FlowScore f = 100 <-> FlowMetrics.IncomingDeps f = 0)
  /\ FlowMetrics.BlockedByExternal f = 0
  /\ FlowMetrics.BlockingExternal f = 0.
Proof.
  intros h f members. subst f h. rewrite label_health_flow. fold members.
  destruct (label_flow_spec label issues members) as (H1 & H2 & H3 & H4 & H5 & H6).
  split; [exact H1|]. split; [exact H2|].
  split; [apply Strings_NoDup, NoDup_elements|].
  split; [apply Strings_NoDup, NoDup_elements|].
  split; [apply Strings_StronglySorted|].
  split; [apply Strings_StronglySorted|].
  split; [exact H3|]. split; [exact H4|]. split; [exact H5|]. split; [exact H6|].
  split; [|done].
  assert (0 <= FlowMetrics.IncomingDeps (label_flow label issues members)) by lia.
  revert H. simpl. generalize (lf_incoming
    (fold_left
       (fun s iss =>
          fold_left (label_flow_dep label issues iss) (model.Dependencies iss) s)
       members
       {| lf_incoming := 0; lf_outgoing := 0; lf_seenIn := ∅; lf_seenOut := ∅ |})).
  intros z Hz. unfold clampScore.
  destruct (Z.ltb_spec (100 - z * 5) 0), (Z.ltb_spec 100 (100 - z * 5)); lia.
Qed.

End FlowOfLabel.

(** ** Health of all labels, further *)

#[local] Instance string_le_antisym : AntiSymm eq string_le.
Proof.
  intros a b Hab Hba. unfold string_le in *.
  destruct (string_lt_trichotomy a b) as [?|[?|?]]; congruence.
Qed.

Lemma Strings_sorted_id (xs : list string) :
  StronglySorted string_le xs -> sort.Strings xs = xs.
Proof.
  intros Hs. apply (StronglySorted_unique string_le); [|done|].
  - apply Strings_StronglySorted.
  - unfold sort.Strings. apply Slice_Permutation.
Qed.

Lemma ExtractLabels_Labels_sorted (issues : list model.Issue) :
  StronglySorted string_le (LabelExtractionResult.Labels (ExtractLabels issues)).
Proof.
  unfold ExtractLabels. destruct (length issues =? 0)%nat; simpl; [constructor|].
  apply Strings_StronglySorted.
Qed.

Lemma ExtractLabels_Labels_elem (issues : list model.Issue) (l : string) :
  l ∈ LabelExtractionResult.Labels (ExtractLabels issues) ->
  l <> "" /\ exists iss, iss ∈ issues /\ l ∈ model.Labels iss.
Proof.
  unfold ExtractLabels. destruct (length issues =? 0)%nat; simpl.
  - intros H. by apply elem_of_nil in H.
  - rewrite Strings_elem_of, elem_of_elements, extract_loop_set. simpl.
    rewrite elem_of_empty. tauto.
Qed.

Lemma GetLabelIssues_nonempty (issues : list model.Issue) (label : string)
    (iss : model.Issue) :
  iss ∈ issues -> label ∈ model.Labels iss -> GetLabelIssues issues label <> [].
Proof.
  intros Hiss Hl Hnil.
  assert (Hin : In iss (GetLabelIssues issues label)).
  { apply filter_In. split; [by apply list_elem_of_In|]. by apply has_label_spec. }
  rewrite Hnil in Hin. done.
Qed.

Lemma summary_less_le (x y : LabelSummary.t) :
  summary_less y x = false <-> summary_le x y.
Proof.
  unfold summary_less, summary_le, string_le.
  destruct (Z.eqb_spec (LabelSummary.Health y) (LabelSummary.Health x)) as [He|Hne];
    simpl.
  - split; [intros H; right; split; [done|done]|]. intros [H|[_ H]]; [lia|done].
  - rewrite Z.ltb_ge. split; [intros H; left; lia|]. intros [H|[H _]]; lia.
Qed.

#[local] Instance summary_le_trans : Transitive summary_le.
Proof.
  intros a b c. unfold summary_le.
  intros [Hab|[Hab Hab']] [Hbc|[Hbc Hbc']].
  - left. lia.
  - left. lia.
  - left. lia.
  - right. split; [lia|]. by transitivity (LabelSummary.Label b).
Qed.

#[local] Instance summary_le_total : Total summary_le.
Proof.
  intros a b. unfold summary_le.
  destruct (Z.lt_trichotomy (LabelSummary.Health a) (LabelSummary.Health b))
    as [H|[H|H]]; [right; left; lia| |left; left; lia].
  destruct (total string_le (LabelSummary.Label a) (LabelSummary.Label b));
    [left|right]; right; split; done.
Qed.

Section AllLabelHealth.
Variable indefinite : float -> Z.
Variable Analyze : list model.Issue -> GraphStats.t.
Variable findMax : gmap string float -> float.

Lemma label_health_issues (label : string) (issues : list model.Issue)
    (cfg : LabelHealthConfig.t) (now : time.Time) (stats : option GraphStats.t) :
  let h := ComputeLabelHealthForLabel indefinite Analyze findMax label issues cfg now stats in
  LabelHealth.Label h = label
  /\ LabelHealth.IssueCount h = Z.of_nat (length (GetLabelIssues issues label))
  /\ LabelHealth.Issues h = model.ID <$> GetLabelIssues issues label
  /\ NeedsAttention h = needs_attention_levelb (LabelHealth.HealthLevel h).
Proof.
  unfold ComputeLabelHealthForLabel.
  change (labeled_issues label issues) with (GetLabelIssues issues label).
  destruct (Z.of_nat (length (GetLabelIssues issues label)) =? 0) eqn:E.
  - simpl. apply Z.eqb_eq in E. rewrite E. done.
  - destruct (fold_left count_status _ _) as [[closed open] blocked]. simpl.
    repeat split. unfold NeedsAttention. simpl. apply NeedsAttention_level.
Qed.

(** What the loop over the sorted labels has written to the summaries and
    to the fields it does not touch. *)
Lemma all_health_loop_summaries (issues : list model.Issue)
    (cfg : LabelHealthConfig.t) (now : time.Time) (fullStats : GraphStats.t)
    (labels : list string) (r0 : LabelAnalysisResult.t) :
  let health l :=
    ComputeLabelHealthForLabel indefinite Analyze findMax l issues cfg now (Some fullStats) in
  let r := fold_left (all_health_label indefinite Analyze findMax issues cfg now fullStats)
             labels r0 in
  LabelAnalysisResult.Summaries r
    = (LabelAnalysisResult.Summaries r0
       ++ ((fun l => summary_of (health l)) <$> labels))%list
  /\ LabelAnalysisResult.GeneratedAt r = LabelAnalysisResult.GeneratedAt r0
  /\ LabelAnalysisResult.CrossLabelFlow r = LabelAnalysisResult.CrossLabelFlow r0.
Proof.
  intros health. revert r0.
  induction labels as [|l rest IH]; intros r0.
  - simpl. by rewrite app_nil_r.
  - simpl fold_left.
    destruct (IH (all_health_label indefinite Analyze findMax issues cfg now fullStats r0 l))
      as (HS & HG & HC).
    cbv zeta. rewrite HS, HG, HC. clear IH HS HG HC.
    unfold all_health_label. fold (health l). simpl.
    rewrite <- app_assoc. simpl. repeat split.
    do 2 f_equal. unfold summary_of. f_equal.
    destruct (label_health_issues l issues cfg now (Some fullStats)) as [Hl _].
    fold (health l) in Hl. by rewrite Hl.
Qed.

(** X16: the label healths of [ComputeAllLabelHealth] are those of the
    labels of the catalog, one per label and in the order of the catalog;
    each is the health that [ComputeLabelHealthForLabel] computes for its
    label with the graph statistics of all issues, and each has at least one
    member issue; the total is their number, the timestamp is [now] and the
    cross-label flow is left unset. *)
Theorem all_label_health_labels (issues : list model.Issue)
    (cfg : LabelHealthConfig.t) (now : time.Time) :
  let r := ComputeAllLabelHealth indefinite Analyze findMax issues cfg now in
  LabelHealth.Label <$> LabelAnalysisResult.Labels r
    = LabelExtractionResult.Labels (ExtractLabels issues)
  /\ Forall (fun h =>
               h = ComputeLabelHealthForLabel indefinite Analyze findMax
                     (LabelHealth.Label h) issues cfg now (Some (Analyze issues))
               /\ 0 < LabelHealth.IssueCount h)
       (LabelAnalysisResult.Labels r)
  /\ LabelAnalysisResult.TotalLabels r
     = Z.of_nat (length (LabelAnalysisResult.Labels r))
  /\ LabelAnalysisResult.GeneratedAt r = now
  /\ LabelAnalysisResult.CrossLabelFlow r = None.
Proof.
  unfold ComputeAllLabelHealth. cbv zeta.
  rewrite (Strings_sorted_id _ (ExtractLabels_Labels_sorted issues)).
  set (labels := LabelExtractionResult.Labels (ExtractLabels issues)).
  set (r0 := {| LabelAnalysisResult.GeneratedAt := now |}).
  destruct (all_health_loop indefinite Analyze findMax issues cfg now (Analyze issues)
              labels r0) as (HL & _ & _ & HT).
  destruct (all_health_loop_summaries issues cfg now (Analyze issues) labels r0)
    as (_ & HG & HC).
  simpl. rewrite HL, HT, HG, HC. clear HL HT HG HC. simpl.
  set (health l := ComputeLabelHealthForLabel indefinite Analyze findMax l issues cfg
                     now (Some (Analyze issues))).
  assert (Hlabel : forall l, LabelHealth.Label (health l) = l).
  { intros l. apply (label_health_issues l issues cfg now (Some (Analyze issues))). }
  split; [|split; [|split; [|done]]].
  - rewrite <- list_fmap_compose. rewrite <- (list_fmap_id labels) at 2.
    apply list_fmap_ext. intros i l _. apply Hlabel.
  - apply Forall_fmap, Forall_forall. intros l Hl. simpl.
    rewrite Hlabel. split; [done|].
    destruct (label_health_issues l issues cfg now (Some (Analyze issues)))
      as (_ & Hcount & _).
    fold (health l) in Hcount. rewrite Hcount.
    apply ExtractLabels_Labels_elem in Hl as [_ (iss & Hiss & Hin)].
    pose proof (GetLabelIssues_nonempty issues l iss Hiss Hin).
    destruct (GetLabelIssues issues l); [done|simpl; lia].
  - rewrite length_fmap. apply ExtractLabels_LabelCount.
Qed.

(** X17: the summaries of [ComputeAllLabelHealth] are the summary lines of
    its label healths, reordered by decreasing health and then by label.
    A summary is flagged as needing attention exactly when its label is on
    the attention list, and its top issue is the ID of the first issue of
    the input that carries the label. *)
Theorem all_label_health_summaries (issues : list model.Issue)
    (cfg : LabelHealthConfig.t) (now : time.Time) :
  let r := ComputeAllLabelHealth indefinite Analyze findMax issues cfg now in
  LabelAnalysisResult.Summaries r ≡ₚ summary_of <$> LabelAnalysisResult.Labels r
  /\ StronglySorted summary_le (LabelAnalysisResult.Summaries r)
  /\ Forall (fun s =>
               (LabelSummary.NeedsAttention s = true
                <-> LabelSummary.Label s ∈ LabelAnalysisResult.AttentionNeeded r)
               /\ exists iss rest,
                    GetLabelIssues issues (LabelSummary.Label s) = iss :: rest
                    /\ LabelSummary.TopIssue s = model.ID iss)
       (LabelAnalysisResult.Summaries r).
Proof.
  unfold ComputeAllLabelHealth. cbv zeta.
  rewrite (Strings_sorted_id _ (ExtractLabels_Labels_sorted issues)).
  set (labels := LabelExtractionResult.Labels (ExtractLabels issues)).
  set (r0 := {| LabelAnalysisResult.GeneratedAt := now |}).
  destruct (all_health_loop indefinite Analyze findMax issues cfg now (Analyze issues)
              labels r0) as (HL & HA & _ & _).
  destruct (all_health_loop_summaries issues cfg now (Analyze issues) labels r0)
    as (HS & _ & _).
  simpl. rewrite HL, HA, HS. clear HL HA HS. simpl.
  set (health l := ComputeLabelHealthForLabel indefinite Analyze findMax l issues cfg
                     now (Some (Analyze issues))).
  split; [|split].
  - rewrite (Slice_Permutation summary_less). by rewrite <- list_fmap_compose.
  - apply (Slice_StronglySorted summary_less summary_le);
      [apply summary_less_le|apply _..].
  - apply Forall_forall. intros s Hs.
    apply Slice_elem_of, list_elem_of_fmap in Hs as (l & -> & Hl).
    destruct (label_health_issues l issues cfg now (Some (Analyze issues)))
      as (Hlabel & _ & Hids & Hna).
    simpl in *. rewrite Hlabel, Hna, Hids. split.
    + rewrite list_elem_of_In, filter_In, <- list_elem_of_In. tauto.
    + apply ExtractLabels_Labels_elem in Hl as [_ (iss & Hiss & Hin)].
      pose proof (GetLabelIssues_nonempty issues l iss Hiss Hin).
      destruct (GetLabelIssues issues l) as [|i rest]; [done|]. by exists i, rest.
Qed.

End AllLabelHealth.

(** ** Velocity and freshness, further *)

Lemma closed_when_nonneg (p : time.Time -> bool) (issues : list model.Issue) :
  0 <= closed_when p issues <= Z.of_nat (length issues).
Proof.
  unfold closed_when. split; [lia|].
  apply inj_le, filter_length_le.
Qed.

Lemma closed_when_sum (p q r : time.Time -> bool) (issues : list model.Issue) :
  (forall t, (if p t then 1 else 0) + (if q t then 1 else 0) <= (if r t then 1 else 0)) ->
  closed_when p issues + closed_when q issues <= closed_when r issues.
Proof.
  intros H. induction issues as [|iss rest IH].
  - unfold closed_when. simpl. lia.
  - rewrite !closed_when_cons. destruct (model.ClosedAt iss) as [t|]; [|lia].
    specialize (H t). lia.
Qed.

Lemma velocity_loop_closed (now : time.Time) (issues : list model.Issue)
    (s : velocity_state) :
  vs_closed7 (fold_left (velocity_issue now) issues s)
    = vs_closed7 s + current_week now issues
  /\ vs_closed30 (fold_left (velocity_issue now) issues s)
     = vs_closed30 s + last_month now issues.
Proof.
  revert s. induction issues as [|iss rest IH]; intros s.
  - unfold current_week, last_month, closed_when. simpl. lia.
  - simpl fold_left. destruct (IH (velocity_issue now s iss)) as [IH7 IH30].
    rewrite IH7, IH30. unfold current_week, last_month.
    rewrite !closed_when_cons. unfold velocity_issue.
    destruct (model.ClosedAt iss) as [closedAt|]; simpl; [|lia].
    destruct (time.After closedAt (time.Add now (- 7 * day)));
      destruct (time.After closedAt (time.Add now (- 30 * day))); lia.
Qed.

Lemma velocity_loop_samples (now : time.Time) (issues : list model.Issue)
    (s : velocity_state) :
  Forall (fun iss => model.ClosedAt iss = None) issues ->
  vs_closeSamples (fold_left (velocity_issue now) issues s) = vs_closeSamples s.
Proof.
  intros H. revert s. induction H as [|iss rest Hiss _ IH]; intros s; [done|].
  simpl. rewrite IH. unfold velocity_issue. by rewrite Hiss.
Qed.

Lemma weeks_within_month (now : time.Time) (issues : list model.Issue) :
  current_week now issues + previous_week now issues <= last_month now issues.
Proof.
  apply closed_when_sum. intros t. unfold time.After, time.Before, time.Add, day, time.Hour.
  destruct (Z.ltb_spec (now + - 7 * (24 * 3600000000000)) t);
    destruct (Z.ltb_spec (now + - 14 * (24 * 3600000000000)) t);
    destruct (Z.ltb_spec t (now + - 7 * (24 * 3600000000000)));
    destruct (Z.ltb_spec (now + - 30 * (24 * 3600000000000)) t); simpl; lia.
Qed.

Section VelocityFurther.
Variable indefinite : float -> Z.

Lemma velocity_closed_fields (issues : list model.Issue) (now : time.Time) :
  let v := ComputeVelocityMetrics indefinite issues now in
  VelocityMetrics.ClosedLast7Days v = current_week now issues
  /\ VelocityMetrics.ClosedLast30Days v = last_month now issues.
Proof.
  unfold ComputeVelocityMetrics.
  destruct (velocity_loop_closed now issues velocity_init) as [H7 H30].
  simpl in H7, H30.
  destruct (velocity_trend _ _) as [tp dir]. simpl. by rewrite H7, H30.
Qed.

Lemma velocity_score_formula (issues : list model.Issue) (now : time.Time) :
  let v := ComputeVelocityMetrics indefinite issues now in
  let base :=
    if 0 <? last_month now issues
    then float64.to_int indefinite
           (minFloat 100 (float64.of_int (last_month now issues) * 10)%float)
    else 0 in
  VelocityMetrics.VelocityScore v
  = if String.eqb (VelocityMetrics.TrendDirection v) "improving" && (base <? 100)
    then clampScore (base + 10) else base.
Proof.
  unfold ComputeVelocityMetrics.
  destruct (velocity_loop_closed now issues velocity_init) as [_ H30].
  simpl in H30. rewrite H30.
  destruct (velocity_trend _ _) as [tp dir]. reflexivity.
Qed.

(** X18: the velocity metrics count as closed in the last 7 days the issues
    closed later than seven days before [now], and as closed in the last 30
    days those closed later than thirty days before [now]; the first count
    never exceeds the second, which never exceeds the number of issues, and
    the closures of the current and of the previous week together stay
    within the 30-day count.  Without any closure in the last 30 days the
    score is 0 and the trend is stable at 0 percent; without any closed
    issue the average time to close is 0. *)
Theorem velocity_counters (issues : list model.Issue) (now : time.Time) :
  let v := ComputeVelocityMetrics indefinite issues now in
  VelocityMetrics.ClosedLast7Days v = current_week now issues
  /\ VelocityMetrics.ClosedLast30Days v = last_month now issues
  /\ 0 <= VelocityMetrics.ClosedLast7Days v <= VelocityMetrics.ClosedLast30Days v
  /\ VelocityMetrics.ClosedLast30Days v <= Z.of_nat (length issues)
  /\ current_week now issues + previous_week now issues
     <= VelocityMetrics.ClosedLast30Days v
  /\ (VelocityMetrics.ClosedLast30Days v = 0 ->
        VelocityMetrics.VelocityScore v = 0
        /\ VelocityMetrics.TrendDirection v = "stable"
        /\ VelocityMetrics.TrendPercent v = 0%float)
  /\ (Forall (fun iss => model.ClosedAt iss = None) issues ->
        VelocityMetrics.AvgDaysToClose v = 0%float).
Proof.
  intros v.
  destruct (velocity_closed_fields issues now) as [H7 H30]. fold v in H7, H30.
  pose proof (weeks_within_month now issues) as Hw.
  pose proof (closed_when_nonneg (fun t => time.After t (time.Add now (- 7 * day))) issues)
    as Hc. fold (current_week now issues) in Hc.
  pose proof (closed_when_nonneg
                (fun t => time.After t (time.Add now (- 14 * day))
                          && time.Before t (time.Add now (- 7 * day))) issues)
    as Hp. fold (previous_week now issues) in Hp.
  pose proof (closed_when_nonneg (fun t => time.After t (time.Add now (- 30 * day))) issues)
    as Hm. fold (last_month now issues) in Hm.
  rewrite H7, H30.
  split; [done|]. split; [done|]. split; [lia|]. split; [lia|]. split; [lia|].
  split.
  - intros Hz.
    assert (Hcur : current_week now issues = 0) by lia.
    assert (Hprev : previous_week now issues = 0) by lia.
    pose proof (velocity_trend_fields indefinite issues now) as Ht.
    fold v in Ht. rewrite Hcur, Hprev in Ht. simpl in Ht.
    injection Ht as Htp Htd.
    pose proof (velocity_score_formula issues now) as Hs. fold v in Hs.
    cbv zeta in Hs. rewrite Hz, Htd in Hs. simpl in Hs. done.
  - intros Hnone. subst v. unfold ComputeVelocityMetrics.
    rewrite (velocity_loop_samples now issues velocity_init Hnone).
    simpl. by destruct (velocity_trend _ _).
Qed.

Lemma velocity_base_upto_ten (n : Z) :
  0 < n <= 10 ->
  float64.to_int indefinite (minFloat 100 (float64.of_int n * 10)%float) = 10 * n.
Proof.
  intros Hn.
  assert (H : n = 1 \/ n = 2 \/ n = 3 \/ n = 4 \/ n = 5 \/ n = 6 \/ n = 7 \/ n = 8
              \/ n = 9 \/ n = 10) by lia.
  destruct H as [-> |[-> |[-> |[-> |[-> |[-> |[-> |[-> |[-> | ->]]]]]]]]];
    vm_compute; reflexivity.
Qed.

(** X19: with at most ten closures in the last 30 days, the velocity score
    is ten points per closure plus ten points when the trend is improving,
    capped at 100. *)
Theorem velocity_score_upto_ten (issues : list model.Issue) (now : time.Time) :
  let v := ComputeVelocityMetrics indefinite issues now in
  VelocityMetrics.ClosedLast30Days v <= 10 ->
  VelocityMetrics.VelocityScore v
  = Z.min 100
      (10 * VelocityMetrics.ClosedLast30Days v
       + (if String.eqb (VelocityMetrics.TrendDirection v) "improving" then 10 else 0)).
Proof.
  intros v Hle.
  destruct (velocity_closed_fields issues now) as [_ H30]. fold v in H30.
  pose proof (velocity_score_formula issues now) as Hs. fold v in Hs. cbv zeta in Hs.
  pose proof (closed_when_nonneg (fun t => time.After t (time.Add now (- 30 * day))) issues)
    as Hm. fold (last_month now issues) in Hm.
  rewrite H30 in *. rewrite Hs. clear Hs.
  destruct (Z.ltb_spec 0 (last_month now issues)) as [Hpos|Hz].
  - rewrite velocity_base_upto_ten by lia.
    destruct (String.eqb (VelocityMetrics.TrendDirection v) "improving"); simpl.
    + destruct (Z.ltb_spec (10 * last_month now issues) 100); [|lia].
      unfold clampScore.
      destruct (Z.ltb_spec (10 * last_month now issues + 10) 0); [lia|].
      destruct (Z.ltb_spec 100 (10 * last_month now issues + 10)); lia.
    + lia.
  - assert (Hz0 : last_month now issues = 0) by lia.
    pose proof (weeks_within_month now issues) as Hw.
    pose proof (closed_when_nonneg
                  (fun t => time.After t (time.Add now (- 7 * day))) issues) as Hc.
    fold (current_week now issues) in Hc.
    pose proof (closed_when_nonneg
                  (fun t => time.After t (time.Add now (- 14 * day))
                            && time.Before t (time.Add now (- 7 * day))) issues) as Hp.
    fold (previous_week now issues) in Hp.
    assert (Hcur : current_week now issues = 0) by lia.
    assert (Hprev : previous_week now issues = 0) by lia.
    pose proof (velocity_trend_fields indefinite issues now) as Ht.
    fold v in Ht. rewrite Hcur, Hprev in Ht. simpl in Ht.
    injection Ht as _ Htd. rewrite Htd, Hz0. reflexivity.
Qed.

End VelocityFurther.

Lemma velocity_score_upto_ten_witness :
  VelocityMetrics.ClosedLast30Days
    (ComputeVelocityMetrics (fun _ => 0) (improving_test_issues test_now) test_now) <= 10
  /\ VelocityMetrics.VelocityScore
       (ComputeVelocityMetrics (fun _ => 0) (improving_test_issues test_now) test_now)
     = Z.min 100
         (10 * VelocityMetrics.ClosedLast30Days
                 (ComputeVelocityMetrics (fun _ => 0) (improving_test_issues test_now)
                    test_now)
          + (if String.eqb
                  (VelocityMetrics.TrendDirection
                     (ComputeVelocityMetrics (fun _ => 0)
                        (improving_test_issues test_now) test_now))
                  "improving"
             then 10 else 0)).
Proof.
  assert (H : VelocityMetrics.ClosedLast30Days
                (ComputeVelocityMetrics (fun _ => 0) (improving_test_issues test_now)
                   test_now) <= 10)
    by (vm_compute; discriminate).
  split; [exact H|].
  exact (velocity_score_upto_ten (fun _ => 0) (improving_test_issues test_now) test_now H).
Defined.

Lemma freshness_loop_snoc (now : time.Time) (threshold : float)
    (issues : list model.Issue) (iss : model.Issue) :
  fold_left (freshness_issue now threshold) (issues ++ [iss]) freshness_init
  = freshness_issue now threshold
      (fold_left (freshness_issue now threshold) issues freshness_init) iss.
Proof. by rewrite fold_left_app. Qed.

Lemma updated_count_snoc (issues : list model.Issue) (iss : model.Issue) :
  updated_count (issues ++ [iss])
  = updated_count issues + (if time.IsZero (model.UpdatedAt iss) then 0 else 1).
Proof.
  unfold updated_count. rewrite List.filter_app, length_app. simpl.
  destruct (time.IsZero (model.UpdatedAt iss)); simpl; lia.
Qed.

(** What the freshness loop keeps true, whatever the issues. *)
Lemma freshness_loop_spec (now : time.Time) (threshold : float)
    (issues : list model.Issue) :
  let s := fold_left (freshness_issue now threshold) issues freshness_init in
  Forall (fun iss => time.After (model.UpdatedAt iss) (fr_mostRecent s) = false) issues
  /\ (fr_mostRecent s = time.zero
      \/ exists iss, iss ∈ issues /\ model.UpdatedAt iss = fr_mostRecent s)
  /\ 0 <= fr_staleCount s <= fr_count s
  /\ fr_count s = updated_count issues
  /\ (fr_oldestOpen s = time.zero
      \/ exists iss, iss ∈ issues /\ not_closed iss
                     /\ model.CreatedAt iss = fr_oldestOpen s)
  /\ (Forall (fun iss => ~ not_closed iss) issues -> fr_oldestOpen s = time.zero).
Proof.
  induction issues as [|iss issues IH] using rev_ind.
  - simpl. split; [constructor|]. split; [by left|]. split; [lia|].
    split; [done|]. split; [by left|done].
  - cbv zeta. rewrite freshness_loop_snoc.
    set (s := fold_left (freshness_issue now threshold) issues freshness_init) in *.
    destruct IH as (Hall & Hatt & Hstale & Hcount & Hold & Hclosed).
    unfold freshness_issue. cbn [fr_mostRecent fr_staleCount fr_count fr_oldestOpen].
    split; [|split; [|split; [|split; [|split]]]].
    + unfold time.After in *. apply Forall_app. split.
      * eapply Forall_impl; [exact Hall|]. simpl. intros x Hx.
        apply Z.ltb_ge in Hx. apply Z.ltb_ge.
        destruct (Z.ltb_spec (fr_mostRecent s) (model.UpdatedAt iss)); lia.
      * constructor; [|constructor]. apply Z.ltb_ge.
        destruct (Z.ltb_spec (fr_mostRecent s) (model.UpdatedAt iss)); lia.
    + destruct (time.After (model.UpdatedAt iss) (fr_mostRecent s)).
      * right. exists iss. split; [|done]. apply elem_of_app. right. by left.
      * destruct Hatt as [Hz|(x & Hx & Hu)]; [by left|].
        right. exists x. split; [|done]. apply elem_of_app. by left.
    + destruct (negb (time.IsZero (model.UpdatedAt iss))); simpl; [|lia].
      destruct (threshold <=? days_since now (model.UpdatedAt iss))%float; lia.
    + rewrite updated_count_snoc.
      destruct (time.IsZero (model.UpdatedAt iss)); simpl; lia.
    + destruct (negb (String.eqb (model.Status iss) model.StatusClosed)
                && (time.IsZero (fr_oldestOpen s)
                    || time.Before (model.CreatedAt iss) (fr_oldestOpen s))) eqn:E.
      * right. exists iss. split; [apply elem_of_app; right; by left|].
        split; [|done]. apply andb_prop in E as [E _].
        unfold not_closed, is_closed. by apply negb_true_iff.
      * destruct Hold as [Hz|(x & Hx & Hn & Hc)]; [by left|].
        right. exists x. split; [|done]. apply elem_of_app. by left.
    + intros Hc. apply Forall_app in Hc as [Hc1 Hc2].
      apply Forall_cons in Hc2 as [Hiss _].
      unfold not_closed, is_closed in Hiss.
      destruct (String.eqb (model.Status iss) model.StatusClosed); [|done].
      simpl. by apply Hclosed.
Qed.

(** With a creation time on every issue that is not closed, the loop keeps
    the earliest of these creation times. *)
Lemma freshness_loop_oldest (now : time.Time) (threshold : float)
    (issues : list model.Issue) :
  Forall (fun iss => not_closed iss -> time.IsZero (model.CreatedAt iss) = false) issues ->
  let s := fold_left (freshness_issue now threshold) issues freshness_init in
  Forall (fun iss => not_closed iss ->
                     time.Before (model.CreatedAt iss) (fr_oldestOpen s) = false) issues
  /\ (fr_oldestOpen s = time.zero -> Forall (fun iss => ~ not_closed iss) issues).
Proof.
  induction issues as [|iss issues IH] using rev_ind; intros Hnz.
  - simpl. split; constructor.
  - cbv zeta. rewrite freshness_loop_snoc.
    apply Forall_app in Hnz as [Hnz Hiss]. apply Forall_cons in Hiss as [Hiss _].
    specialize (IH Hnz).
    set (s := fold_left (freshness_issue now threshold) issues freshness_init) in *.
    destruct IH as [Hall Hzero].
    unfold freshness_issue. cbn [fr_oldestOpen].
    unfold not_closed, is_closed, time.IsZero, time.Before, time.zero in *.
    destruct (String.eqb (model.Status iss) model.StatusClosed) eqn:Est; simpl.
    + split.
      * apply Forall_app. split; [done|].
        constructor; [simpl; congruence|constructor].
      * intros Hz. apply Forall_app. split; [by apply Hzero|].
        constructor; [simpl; congruence|constructor].
    + specialize (Hiss eq_refl). apply Z.eqb_neq in Hiss.
      destruct (Z.eqb_spec (fr_oldestOpen s) 0) as [Hz|Hz]; simpl.
      * split.
        -- apply Forall_app. split.
           ++ specialize (Hzero Hz). eapply Forall_impl; [exact Hzero|].
              simpl. intros x Hx Hn. done.
           ++ constructor; [|constructor]. intros _. apply Z.ltb_irrefl.
        -- intros Hc. done.
      * split.
        -- apply Forall_app. split.
           ++ eapply Forall_impl; [exact Hall|]. simpl. intros x Hx Hn.
              specialize (Hx Hn). apply Z.ltb_ge in Hx. apply Z.ltb_ge.
              destruct (Z.ltb_spec (model.CreatedAt iss) (fr_oldestOpen s)); lia.
           ++ constructor; [|constructor]. intros _. apply Z.ltb_ge.
              destruct (Z.ltb_spec (model.CreatedAt iss) (fr_oldestOpen s)); lia.
        -- intros Hc.
           destruct (Z.ltb_spec (model.CreatedAt iss) (fr_oldestOpen s)); done.
Qed.

Section FreshnessFurther.
Variable indefinite : float -> Z.

(** X20: in the freshness metrics no issue is updated after the most recent
    update, which is the zero time or the update time of some issue; the
    stale count lies between 0 and the number of issues that carry an update
    time; the oldest open issue is the zero time or the creation time of
    some issue that is not closed, and it is the zero time when every issue
    is closed. *)
Theorem freshness_extremes (issues : list model.Issue) (now : time.Time)
    (staleDays : Z) :
  let f := ComputeFreshnessMetrics indefinite issues now staleDays in
  Forall (fun iss => time.After (model.UpdatedAt iss)
                       (FreshnessMetrics.MostRecentUpdate f) = false) issues
  /\ (FreshnessMetrics.MostRecentUpdate f = time.zero
      \/ exists iss, iss ∈ issues
                     /\ model.UpdatedAt iss = FreshnessMetrics.MostRecentUpdate f)
  /\ 0 <= FreshnessMetrics.StaleCount f <= updated_count issues
  /\ updated_count issues <= Z.of_nat (length issues)
  /\ (FreshnessMetrics.OldestOpenIssue f = time.zero
      \/ exists iss, iss ∈ issues /\ not_closed iss
                     /\ model.CreatedAt iss = FreshnessMetrics.OldestOpenIssue f)
  /\ (Forall (fun iss => ~ not_closed iss) issues ->
        FreshnessMetrics.OldestOpenIssue f = time.zero).
Proof.
  unfold ComputeFreshnessMetrics. cbv zeta. simpl.
  set (t := float64.of_int (if staleDays <=? 0 then DefaultStaleThresholdDays else staleDays)).
  destruct (freshness_loop_spec now t issues) as (H1 & H2 & H3 & H4 & H5 & H6).
  split; [exact H1|]. split; [exact H2|]. split; [lia|].
  split; [|split; [exact H5|exact H6]].
  unfold updated_count. apply inj_le, filter_length_le.
Qed.

(** X21: when every issue that is not closed has a creation time, the
    oldest open issue is the earliest creation time among the issues that
    are not closed: none of them was created before it, and it is the zero
    time only if every issue is closed. *)
Theorem freshness_oldest_open (issues : list model.Issue) (now : time.Time)
    (staleDays : Z) :
  Forall (fun iss => not_closed iss -> time.IsZero (model.CreatedAt iss) = false) issues ->
  let f := ComputeFreshnessMetrics indefinite issues now staleDays in
  Forall (fun iss => not_closed iss ->
                     time.Before (model.CreatedAt iss)
                       (FreshnessMetrics.OldestOpenIssue f) = false) issues
  /\ (time.IsZero (FreshnessMetrics.OldestOpenIssue f) = true
      <-> Forall (fun iss => ~ not_closed iss) issues)
  /\ (time.IsZero (FreshnessMetrics.OldestOpenIssue f) = false ->
        exists iss, iss ∈ issues /\ not_closed iss
                    /\ model.CreatedAt iss = FreshnessMetrics.OldestOpenIssue f).
Proof.
  intros Hnz. unfold ComputeFreshnessMetrics. cbv zeta. simpl.
  set (t := float64.of_int (if staleDays <=? 0 then DefaultStaleThresholdDays else staleDays)).
  destruct (freshness_loop_oldest now t issues Hnz) as [H1 H2].
  destruct (freshness_loop_spec now t issues) as (_ & _ & _ & _ & H5 & H6).
  unfold time.IsZero. split; [exact H1|]. split.
  - rewrite Z.eqb_eq. split; [exact H2|exact H6].
  - rewrite Z.eqb_neq. intros Hne. destruct H5 as [Hz|H5]; done.
Qed.

End FreshnessFurther.

Lemma freshness_oldest_open_witness :
  Forall (fun iss => not_closed iss ->
                     time.Before (model.CreatedAt iss)
                       (FreshnessMetrics.OldestOpenIssue
                          (ComputeFreshnessMetrics (fun _ => 0) oldest_open_test_issues
                             test_now 14)) = false)
    oldest_open_test_issues
  /\ (time.IsZero (FreshnessMetrics.OldestOpenIssue
                     (ComputeFreshnessMetrics (fun _ => 0) oldest_open_test_issues
                        test_now 14)) = true
      <-> Forall (fun iss => ~ not_closed iss) oldest_open_test_issues)
  /\ (time.IsZero (FreshnessMetrics.OldestOpenIssue
                     (ComputeFreshnessMetrics (fun _ => 0) oldest_open_test_issues
                        test_now 14)) = false ->
        exists iss, iss ∈ oldest_open_test_issues /\ not_closed iss
                    /\ model.CreatedAt iss
                       = FreshnessMetrics.OldestOpenIssue
                           (ComputeFreshnessMetrics (fun _ => 0) oldest_open_test_issues
                              test_now 14)).
Proof.
  apply (freshness_oldest_open (fun _ => 0) oldest_open_test_issues test_now 14).
  apply List.Forall_cons; [vm_compute; congruence|].
  apply List.Forall_cons; [vm_compute; congruence|].
  apply List.Forall_nil.
Defined.

(** ** Criticality of one label *)

Lemma criticality_loop_counts (stats : GraphStats.t) (labeled : list model.Issue)
    (s : criticality_state) :
  let s' := fold_left (criticality_issue stats) labeled s in
  cr_critCount s <= cr_critCount s' <= cr_critCount s + Z.of_nat (length labeled)
  /\ cr_bottleneckCount s <= cr_bottleneckCount s'
     <= cr_bottleneckCount s + Z.of_nat (length labeled).
Proof.
  revert s. induction labeled as [|iss rest IH]; intros s.
  - simpl. lia.
  - simpl fold_left. specialize (IH (criticality_issue stats s iss)).
    cbv zeta in *. revert IH. generalize (fold_left (criticality_issue stats) rest
                                            (criticality_issue stats s iss)).
    intros s'. unfold criticality_issue. simpl.
    destruct (0 <? GraphStats.GetCriticalPathScore stats (model.ID iss))%float;
      destruct (0 <? default 0%float (GraphStats.Betweenness stats !! model.ID iss))%float;
      lia.
Qed.

Lemma criticality_loop_max (stats : GraphStats.t) (labeled : list model.Issue) :
  let s := fold_left (criticality_issue stats) labeled
             {| cr_prSum := 0; cr_bwSum := 0; cr_maxBwLabel := 0;
                cr_critCount := 0; cr_bottleneckCount := 0 |} in
  cr_bottleneckCount s = 0 -> cr_maxBwLabel s = 0%float.
Proof.
  cbv zeta.
  assert (H : 0 <= cr_bottleneckCount
                     (fold_left (criticality_issue stats) labeled
                        {| cr_prSum := 0; cr_bwSum := 0; cr_maxBwLabel := 0;
                           cr_critCount := 0; cr_bottleneckCount := 0 |})
              /\ (cr_bottleneckCount
                    (fold_left (criticality_issue stats) labeled
                       {| cr_prSum := 0; cr_bwSum := 0; cr_maxBwLabel := 0;
                          cr_critCount := 0; cr_bottleneckCount := 0 |}) = 0 ->
                  cr_maxBwLabel
                    (fold_left (criticality_issue stats) labeled
                       {| cr_prSum := 0; cr_bwSum := 0; cr_maxBwLabel := 0;
                          cr_critCount := 0; cr_bottleneckCount := 0 |}) = 0%float));
    [|by destruct H].
  apply (fold_left_inv
           (fun s => 0 <= cr_bottleneckCount s
                     /\ (cr_bottleneckCount s = 0 -> cr_maxBwLabel s = 0%float))).
  - simpl. split; [lia|done].
  - intros s iss _ [Hnn Hz]. unfold criticality_issue. simpl.
    destruct (0 <? default 0%float (GraphStats.Betweenness stats !! model.ID iss))%float
      eqn:E.
    + split; [lia|]. intros. lia.
    + split; [lia|]. intros H0. rewrite (Hz H0), E. reflexivity.
Qed.

Section CriticalityOfLabel.
Variable indefinite : float -> Z.
Variable Analyze : list model.Issue -> GraphStats.t.
Variable findMax : gmap string float -> float.

(** X22: in the criticality metrics of a label health the critical path
    count and the bottleneck count lie between 0 and the issue count, and
    the maximal betweenness is 0 when the bottleneck count is 0.  Asking for
    the health of a label without graph statistics gives the same health as
    passing the statistics of the analysis of the same issues. *)
Theorem label_health_criticality (label : string) (issues : list model.Issue)
    (cfg : LabelHealthConfig.t) (now : time.Time) (stats : option GraphStats.t) :
  let h := ComputeLabelHealthForLabel indefinite Analyze findMax label issues cfg now stats in
  let c := LabelHealth.Criticality h in
  0 <= CriticalityMetrics.CriticalPathCount c <= LabelHealth.IssueCount h
  /\ 0 <= CriticalityMetrics.BottleneckCount c <= LabelHealth.IssueCount h
  /\ (CriticalityMetrics.BottleneckCount c = 0 ->
        CriticalityMetrics.MaxBetweenness c = 0%float)
  /\ ComputeLabelHealthForLabel indefinite Analyze findMax label issues cfg now None
     = ComputeLabelHealthForLabel indefinite Analyze findMax label issues cfg now
         (Some (Analyze issues)).
Proof.
  intros h c. subst c h. split; [|split; [|split]].
  4: { unfold ComputeLabelHealthForLabel.
       destruct (Z.of_nat (length (labeled_issues label issues)) =? 0); reflexivity. }
  all: unfold ComputeLabelHealthForLabel;
    destruct (Z.eqb_spec (Z.of_nat (length (labeled_issues label issues))) 0) as [Hz|Hz];
    [simpl; rewrite ?Hz; try done; lia|];
    destruct (fold_left count_status _ _) as [[closed open] blocked];
    simpl.
  - pose proof (criticality_loop_counts
                  (match stats with Some s => s | None => Analyze issues end)
                  (labeled_issues label issues)
                  {| cr_prSum := 0; cr_bwSum := 0; cr_maxBwLabel := 0;
                     cr_critCount := 0; cr_bottleneckCount := 0 |}) as [H _].
    simpl in H. lia.
  - pose proof (criticality_loop_counts
                  (match stats with Some s => s | None => Analyze issues end)
                  (labeled_issues label issues)
                  {| cr_prSum := 0; cr_bwSum := 0; cr_maxBwLabel := 0;
                     cr_critCount := 0; cr_bottleneckCount := 0 |}) as [_ H].
    simpl in H. lia.
  - apply criticality_loop_max.
Qed.

End CriticalityOfLabel.

(** ** The application version *)

Lemma versionFromBuildInfo_cases (buildInfo : option string) :
  version.versionFromBuildInfo buildInfo = ""
  \/ exists rest, version.versionFromBuildInfo buildInfo = String "v" rest.
Proof.
  unfold version.versionFromBuildInfo. destruct buildInfo as [v|]; [|by left].
  destruct (String.eqb v "" || String.eqb v "(devel)"); [by left|].
  destruct v as [|c v]; [by left|]. right.
  destruct (Ascii.eqb_spec c "v") as [-> |_]; [by exists v|].
  by exists (String c v).
Qed.

(** X23: the resolved version is never empty.  A version set at build time
    is used as it is; otherwise the version starts with the letter v: it is
    the module version of the build information, prefixed with v unless it
    already starts with it, and the fallback version when the build
    information is missing, empty or that of a development build. *)
Theorem version_resolved (v : string) (buildInfo : option string) :
  version.init v buildInfo <> ""
  /\ (v <> "" -> version.init v buildInfo = v)
  /\ (v = "" -> exists rest, version.init v buildInfo = String "v" rest)
  /\ (v = "" ->
      buildInfo = None \/ buildInfo = Some "" \/ buildInfo = Some "(devel)" ->
      version.init v buildInfo = version.fallback)
  /\ (forall m, v = "" -> buildInfo = Some m -> m <> "" -> m <> "(devel)" ->
        version.init v buildInfo
        = match m with
          | String "v" _ => m
          | _ => "v" ++ m
          end).
Proof.
  unfold version.init.
  destruct (String.eqb_spec v "") as [-> |Hv]; simpl.
  - pose proof (versionFromBuildInfo_cases buildInfo) as Hc.
    split; [|split; [done|split; [|split]]].
    + destruct Hc as [-> |[rest ->]]; simpl; done.
    + intros _. destruct Hc as [-> |[rest ->]]; simpl; [by eexists|by exists rest].
    + intros _ [-> |[-> | ->]]; reflexivity.
    + intros m _ -> Hm Hd. unfold version.versionFromBuildInfo.
      destruct (String.eqb_spec m "") as [?|_]; [done|].
      destruct (String.eqb_spec m "(devel)") as [?|_]; [done|]. simpl.
      destruct m as [|c m]; [done|].
      destruct (Ascii.eqb_spec c "v") as [-> |Hc']; simpl.
      * reflexivity.
      * destruct c as [[] [] [] [] [] [] [] []]; try reflexivity. done.
  - split; [done|]. split; [done|]. split; [done|]. split; [done|]. intros; done.
Qed.
